(** * Matching and allocation engine: ticket pricing, ticket matching
      optimizer, hedge allocation / price fixing, net exposure.

    Shallow embedding of
      - [calculateTicketPrice] and [handleOptimize]   (OptimizeMatching),
      - [fixingMutation] and [handleSubmit]           (PriceFixingDialog),
      - [netExposure]                                 (HedgingSummarySection),
      - the [basis_with_payable] percent conversion   (templateEngine).

    Number models.  The programs are embedded over two models of the
    JavaScript number.

    [PrimFloat.float], in the modules of [Double], is the number the
    programs run on: an IEEE 754 binary64 value with its rounding, its
    infinities, its NaN and its two zeros.  Every property on the value of
    a sum, a difference, a product or a quotient of quantities or prices,
    or on a comparison of such values, is stated over it: the orders the
    optimizer inserts and the messages it ends with, the checks of a
    submission, the update of a hedge execution, the net exposure.

    [JS.number], in the other modules, is an exact rational, one of the two
    infinities, or NaN: its arithmetic is exact, and rounding and the sign
    of zero are not modelled.  It carries the properties on the order of
    the requests and on what a commit has written when it stops, on the
    handlers and the queries of the dialog, on the shape of the optimizer's
    runs and scans, and on the template engine.  There numeric columns read
    from the store are [option Q] ([None] is null): JSON transports neither
    NaN nor an infinity.  The text of an [<Input type="number">] is
    [option Q]: [None] is the empty string, [Some q] the text of the
    number [q]. *)

From Stdlib Require Import QArith Qabs Qround Qminmax Lqa Lia ZArith List String Bool.
From Stdlib Require Import DecimalString Permutation Sorted.
From Stdlib Require Floats.
Import ListNotations.
Open Scope Q_scope.

(* ================================================================== *)
(** ** JavaScript numbers *)

Module JS.

Inductive number : Type :=
| NaN
| PInf
| NInf
| Fin (q : Q).

Definition Qlt_bool (a b : Q) : bool := negb (Qle_bool b a).

(** [x < y] *)
Definition lt (x y : number) : bool :=
  match x, y with
  | Fin a, Fin b => Qlt_bool a b
  | NInf, Fin _ | NInf, PInf | Fin _, PInf => true
  | _, _ => false
  end.

(** [x <= y] *)
Definition le (x y : number) : bool :=
  match x, y with
  | Fin a, Fin b => Qle_bool a b
  | NInf, Fin _ | NInf, PInf | Fin _, PInf => true
  | NInf, NInf | PInf, PInf => true
  | _, _ => false
  end.

(** [x > y] and [x >= y] *)
Definition gt (x y : number) : bool := lt y x.
Definition ge (x y : number) : bool := le y x.

Definition opp (x : number) : number :=
  match x with
  | NaN => NaN
  | PInf => NInf
  | NInf => PInf
  | Fin a => Fin (- a)
  end.

(** [x + y] *)
Definition add (x y : number) : number :=
  match x, y with
  | NaN, _ | _, NaN => NaN
  | PInf, NInf | NInf, PInf => NaN
  | PInf, _ | _, PInf => PInf
  | NInf, _ | _, NInf => NInf
  | Fin a, Fin b => Fin (a + b)
  end.

(** [x - y] *)
Definition sub (x y : number) : number := add x (opp y).

(** Sign of a rational: [Gt] positive, [Eq] zero, [Lt] negative. *)
Definition sgn (a : Q) : comparison := (a ?= 0)%Q.

(** [x * y] *)
Definition mul (x y : number) : number :=
  match x, y with
  | NaN, _ | _, NaN => NaN
  | Fin a, Fin b => Fin (a * b)
  | PInf, PInf | NInf, NInf => PInf
  | PInf, NInf | NInf, PInf => NInf
  | PInf, Fin a | Fin a, PInf =>
      match sgn a with Gt => PInf | Eq => NaN | Lt => NInf end
  | NInf, Fin a | Fin a, NInf =>
      match sgn a with Gt => NInf | Eq => NaN | Lt => PInf end
  end.

(** [x / y]; zero is the positive zero. *)
Definition div (x y : number) : number :=
  match x, y with
  | NaN, _ | _, NaN => NaN
  | Fin a, Fin b =>
      match sgn b with
      | Eq => match sgn a with Gt => PInf | Eq => NaN | Lt => NInf end
      | _ => Fin (a / b)
      end
  | Fin _, PInf | Fin _, NInf => Fin 0
  | PInf, Fin b => match sgn b with Lt => NInf | _ => PInf end
  | NInf, Fin b => match sgn b with Lt => PInf | _ => NInf end
  | _, _ => NaN
  end.

(** [Math.min(x, y)] and [Math.max(x, y)]: NaN when an argument is NaN. *)
Definition min (x y : number) : number :=
  match x, y with
  | NaN, _ | _, NaN => NaN
  | _, _ => if le x y then x else y
  end.

Definition max (x y : number) : number :=
  match x, y with
  | NaN, _ | _, NaN => NaN
  | _, _ => if le x y then y else x
  end.

(** [Math.abs(x)] *)
Definition abs (x : number) : number :=
  match x with
  | NaN => NaN
  | PInf | NInf => PInf
  | Fin a => Fin (Qabs a)
  end.

(** Truthiness of a number: NaN and zero are falsy. *)
Definition truthy (x : number) : bool :=
  match x with
  | NaN => false
  | PInf | NInf => true
  | Fin a => negb (Qeq_bool a 0)
  end.

(** [x || d] on numbers. *)
Definition or (x d : number) : number := if truthy x then x else d.

(** A nullable numeric column. *)
Definition field := option Q.

(** Truthiness of a nullable numeric column: null and zero are falsy. *)
Definition truthy_field (f : field) : bool :=
  match f with
  | None => false
  | Some a => negb (Qeq_bool a 0)
  end.

(** The number held by a column that passed a truthiness test. *)
Definition val (f : field) : Q :=
  match f with
  | None => 0
  | Some a => a
  end.

(** [f || d] for a nullable numeric column and a numeric default. *)
Definition field_or (f : field) (d : Q) : Q :=
  if truthy_field f then val f else d.

(** [f ?? d]: only null falls through. *)
Definition field_nullish (f : field) (d : Q) : Q :=
  match f with
  | None => d
  | Some a => a
  end.

(** Text of a numeric input box: [None] is the empty string. *)
Definition text := option Q.

(** Truthiness of a string: only the empty string is falsy. *)
Definition truthy_text (s : text) : bool :=
  match s with
  | None => false
  | Some _ => true
  end.

(** [parseFloat(s)] on such a text. *)
Definition parseFloat (s : text) : number :=
  match s with
  | None => NaN
  | Some a => Fin a
  end.

(** Truthiness of an ordinary string. *)
Definition truthy_string (s : string) : bool :=
  negb (String.eqb s EmptyString).

(** [s || d] for a nullable string column. *)
Definition string_or (s : option string) (d : string) : string :=
  match s with
  | None => d
  | Some v => if truthy_string v then v else d
  end.

(** [x.toFixed(2)], as the number of hundredths that is printed: the
    integer [n] with [n / 100] nearest to [x], the larger one on a tie. *)
Definition toFixed2 (x : Q) : Z := Qfloor (x * 100 + (1 # 2)).

End JS.

(* ================================================================== *)
(** ** OptimizeMatching: pricing calculator and ticket matching optimizer *)

(** The two directions of trade: a ticket's [type], a hedge execution's
    [direction], the [side] of a physical exposure. *)
Inductive side := Buy | Sell.

Definition side_eqb (a b : side) : bool :=
  match a, b with
  | Buy, Buy | Sell, Sell => true
  | _, _ => false
  end.

Module OptimizeMatching.

Inductive pricing := Fixed | Formula | Index.

Record ticket : Type := mkTicket {
  id : string;
  type : side;
  status : string;
  commodity_type : string;
  pricing_type : option pricing;
  signed_price : JS.field;
  lme_price : JS.field;
  payable_percent : JS.field;
  premium_discount : JS.field;
  quantity : JS.field;
  incoterms : option string;
  metal_form : option string;
  isri_grade : option string;
  ship_to : option string;
  ship_from : option string
}.

Definition calculateTicketPrice (t : ticket) : Q :=
  match pricing_type t with
  | Some Fixed => JS.field_or (signed_price t) 0
  | Some Formula =>
      if JS.truthy_field (lme_price t) && JS.truthy_field (payable_percent t)
      then JS.val (lme_price t) * JS.val (payable_percent t)
      else 0
  | Some Index =>
      if JS.truthy_field (lme_price t) && JS.truthy_field (premium_discount t)
      then JS.val (lme_price t) + JS.val (premium_discount t)
      else 0
  | None => 0
  end.

(** The ticket [t] with its four pricing inputs replaced. *)
Definition with_inputs (t : ticket) (signed lme payable premium : JS.field) : ticket :=
  {| id := id t; type := type t; status := status t;
     commodity_type := commodity_type t; pricing_type := pricing_type t;
     signed_price := signed; lme_price := lme; payable_percent := payable;
     premium_discount := premium; quantity := quantity t;
     incoterms := incoterms t; metal_form := metal_form t;
     isri_grade := isri_grade t; ship_to := ship_to t; ship_from := ship_from t |}.

(** A ticket with its computed price: [{ ...t, calculatedPrice }]. *)
Record priced : Type := mkPriced {
  tk : ticket;
  calculatedPrice : Q
}.

(** A selected ticket: [{ ...sellTicket, allocQty }]. *)
Record selected : Type := mkSelected {
  entry : priced;
  allocQty : JS.number
}.

Definition with_price (t : ticket) : priced :=
  {| tk := t; calculatedPrice := calculateTicketPrice t |}.

(** [Array.prototype.sort(cmp)]: the stable sort.  [insert] puts [x] in
    front of the first element it does not have to follow. *)
Fixpoint insert (cmp : priced -> priced -> Q) (x : priced) (l : list priced)
  : list priced :=
  match l with
  | [] => [x]
  | y :: l' =>
      if JS.Qlt_bool 0 (cmp x y) then y :: insert cmp x l' else x :: l
  end.

Definition sort (cmp : priced -> priced -> Q) (l : list priced) : list priced :=
  fold_right (insert cmp) [] l.

(** Lowest price first. *)
Definition ascending (a b : priced) : Q := calculatedPrice a - calculatedPrice b.
(** Highest price first. *)
Definition descending (a b : priced) : Q := calculatedPrice b - calculatedPrice a.

(** The greedy scan shared by the two [for ... of] loops: it returns the
    selected tickets in scan order and the remaining quantity. *)
Fixpoint select (remainingQty : JS.number) (sorted : list priced)
  : list selected * JS.number :=
  match sorted with
  | [] => ([], remainingQty)
  | t :: rest =>
      if JS.le remainingQty (JS.Fin 0) then ([], remainingQty)
      else
        let allocQty :=
          JS.min remainingQty (JS.Fin (JS.field_or (quantity (tk t)) 0)) in
        let (more, left) := select (JS.sub remainingQty allocQty) rest in
        ({| entry := t; allocQty := allocQty |} :: more, left)
  end.

(** [selected.reduce((sum, t) => sum + calculateTicketPrice(t) * t.allocQty, 0)] *)
Definition weighted_sum (sel : list selected) : JS.number :=
  fold_left
    (fun sum t =>
       JS.add sum (JS.mul (JS.Fin (calculateTicketPrice (tk (entry t)))) (allocQty t)))
    sel (JS.Fin 0).

Definition average (sel : list selected) (targetQty : JS.number) : JS.number :=
  JS.div (weighted_sum sel) targetQty.

(** The row inserted into the [order] table. *)
Record order : Type := mkOrder {
  order_id : string;
  buyer : string;
  seller : string;
  order_commodity_type : string;
  order_metal_form : option string;
  order_isri_grade : option string;
  allocated_quantity_mt : JS.number;
  buy_price : JS.number;
  sell_price : JS.number;
  margin : JS.number;
  order_status : string;
  transaction_type : string;
  order_ship_to : option string;
  order_ship_from : option string;
  product_details : string;
  created_at : string
}.

(** The answer of a [supabase.from("ticket").select(...)] call. *)
Record response : Type := mkResponse {
  data : option (list ticket);
  error : option string
}.

(** A store that answers the query
    [.eq("type", ty).eq("status", "Approved").eq("commodity_type", c)]
    from its ticket table. *)
Definition from_ticket (table : list ticket) (ty : side) (c : string) : response :=
  {| data :=
       Some (filter
               (fun t => side_eqb (type t) ty
                         && String.eqb (status t) "Approved"
                         && String.eqb (commodity_type t) c)
               table);
     error := None |}.

Inductive message : Type :=
| PleaseFillIn            (* "Please fill in commodity type and quantity" *)
| FailedToFetch           (* "Failed to fetch tickets" *)
| NoMatchingTickets       (* "No matching tickets found with the specified criteria" *)
| NotEnoughSell (targetQty : JS.number)  (* "Not enough sell tickets to match ... MT" *)
| NotEnoughBuy (targetQty : JS.number)   (* "Not enough buy tickets to match ... MT" *)
| BuyExceedsSell.         (* "Cannot create order: Buy price exceeds sell price" *)

(** What a run of [handleOptimize] does to the outside, in order. *)
Inductive event : Type :=
| SelectTickets (ty : side) (c : string)
| ToastError (m : message)
| InsertOrder (o : order).

Definition data_or_empty (r : response) : list ticket :=
  match data r with
  | Some l => l
  | None => []
  end.

Definition has_error (r : response) : bool :=
  match error r with
  | Some _ => true
  | None => false
  end.

(** [selected[0]?.f] *)
Definition first_field {A} (f : ticket -> option A) (sel : list selected) : option A :=
  match sel with
  | [] => None
  | t :: _ => f (tk (entry t))
  end.

Definition join_ids (sel : list selected) : string :=
  String.concat "," (map (fun t => id (tk (entry t))) sel).

(** [String(Math.floor(10000 + Math.random() * 90000))] *)
Definition orderId (random : Q) : string :=
  NilZero.string_of_int (Z.to_int (Qfloor (10000 + random * 90000))).

Definition handleOptimize
  (commodityType : string) (quantity : JS.text)
  (fetch : side -> string -> response) (random : Q) (now : string)
  : list event :=
  if negb (JS.truthy_string commodityType) || negb (JS.truthy_text quantity)
  then [ToastError PleaseFillIn]
  else
    let targetQty := JS.parseFloat quantity in
    let buyResult := fetch Buy commodityType in
    let sellResult := fetch Sell commodityType in
    [SelectTickets Buy commodityType; SelectTickets Sell commodityType] ++
    (if has_error buyResult || has_error sellResult
    then [ToastError FailedToFetch]
    else
      let buyTickets := data_or_empty buyResult in
      let sellTickets := data_or_empty sellResult in
      if (List.length buyTickets =? 0)%nat || (List.length sellTickets =? 0)%nat
      then [ToastError NoMatchingTickets]
      else
        let sortedBuyTickets := sort ascending (map with_price buyTickets) in
        let sortedSellTickets := sort descending (map with_price sellTickets) in
        let (selectedSells, remainingSell) := select targetQty sortedSellTickets in
        if JS.gt remainingSell (JS.Fin 0)
        then [ToastError (NotEnoughSell targetQty)]
        else
          let (selectedBuys, remainingBuy) := select targetQty sortedBuyTickets in
          if JS.gt remainingBuy (JS.Fin 0)
          then [ToastError (NotEnoughBuy targetQty)]
          else
            let avgBuyPrice := average selectedBuys targetQty in
            let avgSellPrice := average selectedSells targetQty in
            if JS.ge avgBuyPrice avgSellPrice
            then [ToastError BuyExceedsSell]
            else
              let buyIncoterms :=
                JS.string_or (first_field incoterms selectedBuys) "—" in
              let sellIncoterms :=
                JS.string_or (first_field incoterms selectedSells) "—" in
              [InsertOrder
                 {| order_id := orderId random;
                    buyer := join_ids selectedBuys;
                    seller := join_ids selectedSells;
                    order_commodity_type := commodityType;
                    order_metal_form := first_field metal_form selectedBuys;
                    order_isri_grade := first_field isri_grade selectedBuys;
                    allocated_quantity_mt := targetQty;
                    buy_price := avgBuyPrice;
                    sell_price := avgSellPrice;
                    margin := JS.div (JS.sub avgSellPrice avgBuyPrice) avgBuyPrice;
                    order_status := "Allocated";
                    transaction_type := "B2B";
                    order_ship_to := first_field ship_to selectedSells;
                    order_ship_from := first_field ship_from selectedBuys;
                    product_details := (buyIncoterms ++ " / " ++ sellIncoterms)%string;
                    created_at := now |}])%list.

End OptimizeMatching.

(* ================================================================== *)
(** ** templateEngine: the percent shown by [basis_with_payable] *)

Module TemplateEngine.

(** The percent shown by the template variable [basis_with_payable]:
    [Number(p) > 1.5 ? Number(p) : Number(p) * 100]. *)
Definition percentValue (payablePercent : Q) : Q :=
  if JS.Qlt_bool (3 # 2) payablePercent then payablePercent
  else payablePercent * 100.

End TemplateEngine.

(* ================================================================== *)
(** ** PriceFixingDialog: the allocation engine *)

Module PriceFixingDialog.

Inductive level := ORDER | BL_ORDER.

Inductive hedge_status := OPEN | PARTIALLY_CLOSED | CLOSED.

(** A row of [hedge_execution], with the joined [hedge_request.order_id]. *)
Record HedgeExecution : Type := mkHedgeExecution {
  id : string;
  direction : side;
  metal : string;
  quantity_mt : Q;
  open_quantity_mt : JS.field;
  executed_price : Q;
  status : hedge_status;
  closed_price : option JS.number;
  closed_at : option string;
  updated_at : option string;
  hedge_request_order_id : option string
}.

(** [openQty: h.open_quantity_mt ?? h.quantity_mt] *)
Definition openQty (h : HedgeExecution) : Q :=
  JS.field_nullish (open_quantity_mt h) (quantity_mt h).

(** A row of [pricing_fixing]; [fixing_row_id] is given by the store. *)
Record PricingFixing : Type := mkPricingFixing {
  fixing_row_id : nat;
  fixing_level : level;
  order_id : option string;
  bl_order_id : option Z;
  fixing_metal : option string;
  fixing_quantity_mt : JS.number;
  final_price : JS.number;
  final_price_currency : string;
  fixed_at : string
}.

(** A row of [hedge_link]. *)
Record HedgeLink : Type := mkHedgeLink {
  hedge_execution_id : string;
  link_id : option string;
  link_level : string;
  allocated_quantity_mt : JS.number;
  link_side : string;
  exec_price : Q;
  fixing_price : JS.number;
  fixing_id : nat;
  link_metal : option string;
  link_direction : side
}.

(** The three tables the dialog writes. *)
Record store : Type := mkStore {
  pricing_fixing : list PricingFixing;
  hedge_link : list HedgeLink;
  hedge_execution : list HedgeExecution
}.

(** Props and state of the dialog when the user submits. *)
Record dialog : Type := mkDialog {
  dlg_level : level;
  orderId : option string;
  blOrderId : option Z;
  dlg_metal : option string;
  physicalQuantity : Q;
  dlg_side : side;
  selectedHedges : list (string * bool);
  allocations : list (string * JS.text);
  fixingPrice : JS.text;
  fixingDate : string;
  existingFixings : option (list JS.field);
  hedges : option (list HedgeExecution)
}.

(** [obj[key]] on an object kept as an association list. *)
Fixpoint lookup {A} (key : string) (obj : list (string * A)) : option A :=
  match obj with
  | [] => None
  | (k, v) :: rest => if String.eqb k key then Some v else lookup key rest
  end.

(** [selectedHedges[id]] as a condition. *)
Definition is_selected (d : dialog) (hedgeId : string) : bool :=
  match lookup hedgeId (selectedHedges d) with
  | Some b => b
  | None => false
  end.

(** [allocations[id]]: a missing entry parses like the empty text. *)
Definition allocation_text (d : dialog) (hedgeId : string) : JS.text :=
  match lookup hedgeId (allocations d) with
  | Some s => s
  | None => None
  end.

(** [existingFixings?.reduce((sum, f) => sum + (f.quantity_mt || 0), 0) || 0] *)
Definition alreadyFixedQty (d : dialog) : JS.number :=
  match existingFixings d with
  | None => JS.Fin 0
  | Some fs =>
      JS.or
        (fold_left (fun sum f => JS.add sum (JS.Fin (JS.field_or f 0))) fs (JS.Fin 0))
        (JS.Fin 0)
  end.

Definition availableUnfixedQty (d : dialog) : JS.number :=
  JS.max (JS.Fin 0) (JS.sub (JS.Fin (physicalQuantity d)) (alreadyFixedQty d)).

Definition hedgesWithOpenQty (d : dialog) : list HedgeExecution :=
  match hedges d with
  | None => []
  | Some hs => hs
  end.

(** [hedgesWithOpenQty.find((h) => h.id === hedgeId)] *)
Definition find_hedge (d : dialog) (hedgeId : string) : option HedgeExecution :=
  find (fun h => String.eqb (id h) hedgeId) (hedgesWithOpenQty d).

(** [parseFloat(val) || 0] *)
Definition alloc_of (val : JS.text) : JS.number :=
  JS.or (JS.parseFloat val) (JS.Fin 0).

Definition totalAllocation (d : dialog) : JS.number :=
  fold_left
    (fun sum (e : string * JS.text) => JS.add sum (alloc_of (snd e)))
    (filter (fun e : string * JS.text => is_selected d (fst e)) (allocations d))
    (JS.Fin 0).

(** *** The store and its failures *)

Inductive failure : Type :=
| StoreError (request : nat)   (* the store answered request number [request] with an error *)
| TypeError.                   (* [blOrderId!.toString()] on a missing id *)

Inductive result (A : Type) : Type :=
| Ok (a : A)
| Throw (e : failure).
Arguments Ok {A} a.
Arguments Throw {A} e.

(** The world of one commit: the tables and the number of requests sent so
    far.  [fails n] tells whether the store answers request [n] with an
    error; a request answered with an error changes no table. *)
Record world : Type := mkWorld {
  db : store;
  sent : nat
}.

Definition M (A : Type) : Type := world -> result A * world.

Definition ret {A} (a : A) : M A := fun w => (Ok a, w).

Definition throw {A} (e : failure) : M A := fun w => (Throw e, w).

Definition bind {A B} (m : M A) (k : A -> M B) : M B :=
  fun w =>
    match m w with
    | (Ok a, w') => k a w'
    | (Throw e, w') => (Throw e, w')
    end.

Notation "x <- m ;; k" := (bind m (fun x => k))
  (at level 61, m at next level, right associativity).
Notation "m ;;; k" := (bind m (fun _ => k))
  (at level 61, right associativity).

(** One awaited request followed by [if (error) throw error]. *)
Definition request {A} (fails : nat -> bool) (apply : store -> A * store) : M A :=
  fun w =>
    if fails (sent w)
    then (Throw (StoreError (sent w)), {| db := db w; sent := S (sent w) |})
    else
      let (a, db') := apply (db w) in
      (Ok a, {| db := db'; sent := S (sent w) |}).

(** [for (const x of xs) { body }], where [continue] is [ret tt]. *)
Fixpoint for_of {A} (xs : list A) (body : A -> M unit) : M unit :=
  match xs with
  | [] => ret tt
  | x :: rest => body x ;;; for_of rest body
  end.

(** The id the store gives to the next [pricing_fixing] row. *)
Definition next_fixing_id (s : store) : nat := List.length (pricing_fixing s).

Definition insert_pricing_fixing (row : nat -> PricingFixing) (s : store)
  : PricingFixing * store :=
  let fixingData := row (next_fixing_id s) in
  (fixingData,
   {| pricing_fixing := pricing_fixing s ++ [fixingData];
      hedge_link := hedge_link s;
      hedge_execution := hedge_execution s |}).

Definition insert_hedge_link (row : HedgeLink) (s : store) : unit * store :=
  (tt,
   {| pricing_fixing := pricing_fixing s;
      hedge_link := hedge_link s ++ [row];
      hedge_execution := hedge_execution s |}).

(** The values of [.update({ ... })] on [hedge_execution]. *)
Record HedgeUpdate : Type := mkHedgeUpdate {
  new_open_quantity_mt : JS.number;
  new_status : hedge_status;
  new_closed_price : option JS.number;
  new_closed_at : option string;
  new_updated_at : string
}.

(** The value a number leaves in a numeric column: the request body is
    JSON, in which NaN and the infinities are written as null. *)
Definition to_column (x : JS.number) : JS.field :=
  match x with
  | JS.Fin a => Some a
  | _ => None
  end.

Definition apply_update (u : HedgeUpdate) (h : HedgeExecution) : HedgeExecution :=
  {| id := id h;
     direction := direction h;
     metal := metal h;
     quantity_mt := quantity_mt h;
     open_quantity_mt := to_column (new_open_quantity_mt u);
     executed_price := executed_price h;
     status := new_status u;
     closed_price := new_closed_price u;
     closed_at := new_closed_at u;
     updated_at := Some (new_updated_at u);
     hedge_request_order_id := hedge_request_order_id h |}.

(** [.update(u).eq("id", hedgeId)] *)
Definition update_hedge_execution (u : HedgeUpdate) (hedgeId : string) (s : store)
  : unit * store :=
  (tt,
   {| pricing_fixing := pricing_fixing s;
      hedge_link := hedge_link s;
      hedge_execution :=
        map (fun h => if String.eqb (id h) hedgeId then apply_update u h else h)
            (hedge_execution s) |}).

Definition toUpperCase (s : side) : string :=
  match s with
  | Buy => "BUY"
  | Sell => "SELL"
  end.

(** The update computed for a hedge with allocation [allocQty]. *)
Definition hedge_update (hedge : HedgeExecution) (allocQty : JS.number)
  (price : JS.number) (now : string) : HedgeUpdate :=
  let newOpenQty := JS.sub (JS.Fin (openQty hedge)) allocQty in
  let newStatus := if JS.le newOpenQty (JS.Fin 0) then CLOSED else PARTIALLY_CLOSED in
  {| new_open_quantity_mt := JS.max (JS.Fin 0) newOpenQty;
     new_status := newStatus;
     new_closed_price := if JS.le newOpenQty (JS.Fin 0) then Some price else None;
     new_closed_at := if JS.le newOpenQty (JS.Fin 0) then Some now else None;
     new_updated_at := now |}.

(** [level === "ORDER" ? orderId! : blOrderId!.toString()] *)
Definition compute_link_id (d : dialog) : M (option string) :=
  match dlg_level d with
  | ORDER => ret (orderId d)
  | BL_ORDER =>
      match blOrderId d with
      | Some n => ret (Some (NilZero.string_of_int (Z.to_int n)))
      | None => throw TypeError
      end
  end.

Definition selectedIds (d : dialog) : list string :=
  filter (fun hedgeId => is_selected d hedgeId) (map fst (selectedHedges d)).

(** The body of the [for (const hedgeId of selectedIds)] loop. *)
Definition allocate_hedge (fails : nat -> bool) (now : string) (d : dialog)
  (fixingData : PricingFixing) (hedgeId : string) : M unit :=
  let allocQty := alloc_of (allocation_text d hedgeId) in
  if JS.le allocQty (JS.Fin 0) then ret tt
  else
    match find_hedge d hedgeId with
    | None => ret tt
    | Some hedge =>
        linkId <- compute_link_id d ;;
        request fails
          (insert_hedge_link
             {| hedge_execution_id := hedgeId;
                link_id := linkId;
                link_level :=
                  match dlg_level d with ORDER => "Order" | BL_ORDER => "Bl_order" end;
                allocated_quantity_mt := allocQty;
                link_side := toUpperCase (dlg_side d);
                exec_price := executed_price hedge;
                fixing_price := JS.parseFloat (fixingPrice d);
                fixing_id := fixing_row_id fixingData;
                link_metal := dlg_metal d;
                link_direction := direction hedge |}) ;;;
        request fails
          (update_hedge_execution
             (hedge_update hedge allocQty (JS.parseFloat (fixingPrice d)) now)
             hedgeId)
    end.

(** The row of step 1, [.from("pricing_fixing").insert({ ... })], with the
    id the store gives it. *)
Definition fixing_row (d : dialog) (row_id : nat) : PricingFixing :=
  {| fixing_row_id := row_id;
     fixing_level := dlg_level d;
     order_id := match dlg_level d with ORDER => orderId d | BL_ORDER => None end;
     bl_order_id := match dlg_level d with BL_ORDER => blOrderId d | ORDER => None end;
     fixing_metal := dlg_metal d;
     fixing_quantity_mt := totalAllocation d;
     final_price := JS.parseFloat (fixingPrice d);
     final_price_currency := "USD";
     fixed_at := fixingDate d |}.

(** [fixingMutation.mutationFn] *)
Definition fixingMutation (fails : nat -> bool) (now : string) (d : dialog)
  : M PricingFixing :=
  fixingData <- request fails (insert_pricing_fixing (fixing_row d)) ;;
  for_of (selectedIds d) (allocate_hedge fails now d fixingData) ;;;
  ret fixingData.

End PriceFixingDialog.

(* ================================================================== *)
(** ** HedgingSummarySection: the exposure aggregator *)

Module HedgingSummarySection.

Import PriceFixingDialog.

Inductive position : Type :=
| Flat
| Long (hundredths : Z)    (* "Long x.xx MT" *)
| Short (hundredths : Z).  (* "Short x.xx MT" *)

Record exposure : Type := mkExposure {
  value : Q;
  label : position
}.

(** The signed quantity one execution adds: Buy is positive, Sell negative. *)
Definition signed_quantity (h : HedgeExecution) : Q :=
  let qty := JS.field_nullish (open_quantity_mt h) (quantity_mt h) in
  match direction h with
  | Buy => qty
  | Sell => - qty
  end.

(** [linkedHedges.reduce((sum, h) => sum + signed quantity, 0)] *)
Definition net_of (linkedHedges : list HedgeExecution) : Q :=
  fold_left (fun sum h => sum + signed_quantity h) linkedHedges 0.

Definition netExposure (linkedHedges : option (list HedgeExecution)) : exposure :=
  match linkedHedges with
  | None | Some [] => {| value := 0; label := Flat |}
  | Some hs =>
      let net := net_of hs in
      if JS.Qlt_bool (Qabs net) (1 # 100) then {| value := 0; label := Flat |}
      else if JS.Qlt_bool 0 net
      then {| value := net; label := Long (JS.toFixed2 net) |}
      else {| value := net; label := Short (JS.toFixed2 (Qabs net)) |}
  end.

End HedgingSummarySection.

(* ================================================================== *)
(** ** PriceFixingDialog: the queries and the handlers of the dialog *)

Module DialogQueries.

Import PriceFixingDialog.

(** A stored row with its soft-deletion mark. *)
Record stored (A : Type) : Type := mkStored {
  row : A;
  deleted_at : option string
}.
Arguments mkStored {A} row deleted_at.
Arguments row {A} s.
Arguments deleted_at {A} s.

Definition is_null {A} (x : option A) : bool :=
  match x with
  | None => true
  | Some _ => false
  end.

(** Truthiness of an optional string: missing and empty are falsy. *)
Definition truthy_option (s : option string) : bool :=
  match s with
  | None => false
  | Some v => JS.truthy_string v
  end.

(** [side === "buy" ? "Sell" : "Buy"] *)
Definition hedgeDirection (s : side) : side :=
  match s with
  | Buy => Sell
  | Sell => Buy
  end.

(** [.in("status", ["OPEN", "PARTIALLY_CLOSED"])] *)
Definition in_open_status (st : hedge_status) : bool :=
  match st with
  | OPEN | PARTIALLY_CLOSED => true
  | CLOSED => false
  end.

(** The [queryFn] of the eligible-hedges query: the store filters on the
    deletion mark, the status, the direction and, when a metal is given, the
    metal; the client then keeps the hedges of the order unless all hedges
    are shown or there is no order id. *)
Definition eligible_hedges (metal : option string) (s : side)
  (orderId : option string) (showAllHedges : bool)
  (table : list (stored HedgeExecution)) : list HedgeExecution :=
  let hedgeDirection := hedgeDirection s in
  let data :=
    filter
      (fun h =>
         is_null (deleted_at h)
         && in_open_status (status (row h))
         && side_eqb (direction (row h)) hedgeDirection
         && match metal with
            | Some m => if JS.truthy_string m then String.eqb (PriceFixingDialog.metal (row h)) m
                        else true
            | None => true
            end)
      table in
  let filtered :=
    if negb showAllHedges && truthy_option orderId
    then filter
           (fun h =>
              match hedge_request_order_id (row h), orderId with
              | Some a, Some b => String.eqb a b
              | _, _ => false
              end)
           data
    else data in
  map row filtered.

(** The query is enabled when the dialog is open and a metal is given;
    until then [hedges] is undefined. *)
Definition hedges_query (open : bool) (metal : option string) (s : side)
  (orderId : option string) (showAllHedges : bool)
  (table : list (stored HedgeExecution)) : option (list HedgeExecution) :=
  if open && truthy_option metal
  then Some (eligible_hedges metal s orderId showAllHedges table)
  else None.

(** The [queryFn] of the existing-fixings query: the quantities of the
    fixings that are not deleted, of the order or of the BL order when its
    id is given. *)
Definition existing_fixings (lvl : level) (orderId : option string)
  (blOrderId : option Z) (table : list (stored PricingFixing)) : list JS.field :=
  let live := filter (fun f => is_null (deleted_at f)) table in
  let scoped :=
    match lvl with
    | ORDER =>
        if truthy_option orderId
        then filter
               (fun f =>
                  match order_id (row f), orderId with
                  | Some a, Some b => String.eqb a b
                  | _, _ => false
                  end)
               live
        else live
    | BL_ORDER =>
        match blOrderId with
        | Some n =>
            if (n =? 0)%Z then live
            else filter
                   (fun f =>
                      match bl_order_id (row f) with
                      | Some a => (a =? n)%Z
                      | None => false
                      end)
                   live
        | None => live
        end
    end in
  map (fun f => to_column (fixing_quantity_mt (row f))) scoped.

(** [{ ...obj, [key]: v }]: a key that is present keeps its place. *)
Fixpoint assign {A} (key : string) (v : A) (obj : list (string * A))
  : list (string * A) :=
  match obj with
  | [] => [(key, v)]
  | (k, x) :: rest =>
      if String.eqb k key then (k, v) :: rest else (k, x) :: assign key v rest
  end.

(** [delete obj[key]] *)
Definition remove {A} (key : string) (obj : list (string * A)) : list (string * A) :=
  filter (fun e => negb (String.eqb (fst e) key)) obj.

(** The dialog with other selections and allocations. *)
Definition with_state (d : dialog) (selection : list (string * bool))
  (allocs : list (string * JS.text)) : dialog :=
  {| dlg_level := dlg_level d;
     orderId := PriceFixingDialog.orderId d;
     blOrderId := PriceFixingDialog.blOrderId d;
     dlg_metal := dlg_metal d;
     physicalQuantity := physicalQuantity d;
     dlg_side := dlg_side d;
     selectedHedges := selection;
     allocations := allocs;
     fixingPrice := fixingPrice d;
     fixingDate := fixingDate d;
     existingFixings := existingFixings d;
     hedges := hedges d |}.

(** The dialog after the existing-fixings query has answered [fs]. *)
Definition with_fixings (d : dialog) (fs : list JS.field) : dialog :=
  {| dlg_level := dlg_level d;
     orderId := PriceFixingDialog.orderId d;
     blOrderId := PriceFixingDialog.blOrderId d;
     dlg_metal := dlg_metal d;
     physicalQuantity := physicalQuantity d;
     dlg_side := dlg_side d;
     selectedHedges := selectedHedges d;
     allocations := allocations d;
     fixingPrice := fixingPrice d;
     fixingDate := fixingDate d;
     existingFixings := Some fs;
     hedges := hedges d |}.

(** The answer of the existing-fixings query for the dialog's reference. *)
Definition fixings_of (d : dialog) (table : list (stored PricingFixing))
  : list JS.field :=
  existing_fixings (dlg_level d) (PriceFixingDialog.orderId d)
                   (PriceFixingDialog.blOrderId d) table.

Definition handleToggleHedge (hedgeId : string) (checked : bool) (d : dialog) : dialog :=
  with_state d
    (assign hedgeId checked (selectedHedges d))
    (if checked then allocations d else remove hedgeId (allocations d)).

Definition handleAllocationChange (hedgeId : string) (value : JS.text) (d : dialog)
  : dialog :=
  with_state d (selectedHedges d) (assign hedgeId value (allocations d)).

(** [x.toFixed(2)] as the text of an input box: the magnitude is rounded
    to hundredths and the sign put back.  Of a number that is not finite
    the text is not a number; the auto-fill only formats finite ones. *)
Definition toFixed (x : JS.number) : JS.text :=
  match x with
  | JS.Fin a =>
      if JS.Qlt_bool a 0
      then Some (- (inject_Z (JS.toFixed2 (- a)) / 100))
      else Some (inject_Z (JS.toFixed2 a) / 100)
  | _ => None
  end.

(** The auto-fill effect: with exactly one hedge selected, listed and
    without an allocation, the allocations become the single entry
    [min(availableUnfixedQty, openQty).toFixed(2)]. *)
Definition autoFill (d : dialog) : dialog :=
  match selectedIds d with
  | [hedgeId] =>
      match find_hedge d hedgeId with
      | Some hedge =>
          if negb (JS.truthy_text (allocation_text d hedgeId))
          then
            let autoAlloc := JS.min (availableUnfixedQty d) (JS.Fin (openQty hedge)) in
            with_state d (selectedHedges d) [(hedgeId, toFixed autoAlloc)]
          else d
      | None => d
      end
  | _ => d
  end.

(** The dialog with another fixing price and date and other answers of
    its two queries. *)
Definition with_inputs (d : dialog) (price : JS.text) (date : string)
  (fixings : option (list JS.field)) (listed : option (list HedgeExecution)) : dialog :=
  {| dlg_level := dlg_level d;
     orderId := PriceFixingDialog.orderId d;
     blOrderId := PriceFixingDialog.blOrderId d;
     dlg_metal := dlg_metal d;
     physicalQuantity := physicalQuantity d;
     dlg_side := dlg_side d;
     selectedHedges := selectedHedges d;
     allocations := allocations d;
     fixingPrice := price;
     fixingDate := date;
     existingFixings := fixings;
     hedges := listed |}.

(** The dialog after it was opened on the day [today]: nothing selected,
    nothing entered, no price. *)
Definition reset (today : string) (d : dialog) : dialog :=
  with_state (with_inputs d None today (existingFixings d) (hedges d)) [] [].

(** The states of the dialog a user can reach: a checkbox is shown for
    every listed hedge, an allocation box only for a selected one, the
    price and the date have their boxes, the queries answer and the
    auto-fill runs on their own. *)
Inductive reachable (d0 : dialog) : dialog -> Prop :=
| reach_reset today : reachable d0 (reset today d0)
| reach_toggle d hedgeId checked :
    reachable d0 d -> reachable d0 (handleToggleHedge hedgeId checked d)
| reach_change d hedgeId value :
    reachable d0 d -> is_selected d hedgeId = true ->
    reachable d0 (handleAllocationChange hedgeId value d)
| reach_input d price date fixings listed :
    reachable d0 d -> reachable d0 (with_inputs d price date fixings listed)
| reach_autoFill d :
    reachable d0 d -> reachable d0 (autoFill d).

(** [canPriceFix] of the hedging summary:
    [openQty > 0 && hedge.status !== "CLOSED"]. *)
Definition canPriceFix (h : HedgeExecution) : bool :=
  JS.Qlt_bool 0 (JS.field_nullish (open_quantity_mt h) (quantity_mt h))
  && negb (match status h with CLOSED => true | _ => false end).

End DialogQueries.

(* ================================================================== *)
(** ** HedgingSummarySection: the linked-hedges query *)

Module SummaryQueries.

Import PriceFixingDialog DialogQueries.

(** A row of [bl_order]: its id and the order it belongs to. *)
Record BlOrder : Type := mkBlOrder {
  bl_id : Z;
  bl_parent : option string
}.

(** A hedge execution enriched with the data of one of its links. *)
Record LinkedHedge : Type := mkLinkedHedge {
  exec : HedgeExecution;
  allocatedQty : option JS.number;
  linked_side : option string;
  linkLevel : option string;
  linkId : option string
}.

(** The BL orders of the order: [.eq("order_id", orderId).is("deleted_at", null)],
    nothing without an order id. *)
Definition blOrders_query (orderId : option string) (table : list (stored BlOrder))
  : list Z :=
  match orderId with
  | Some o =>
      if JS.truthy_string o
      then map (fun b => bl_id (row b))
               (filter
                  (fun b =>
                     match bl_parent (row b) with
                     | Some p => String.eqb p o
                     | None => false
                     end
                     && is_null (deleted_at b))
                  table)
      else []
  | None => []
  end.

(** [[orderId, ...blOrders.map(b => b.id.toString())]] *)
Definition linkIds (o : string) (blOrders : option (list Z)) : list string :=
  o :: match blOrders with
       | Some bs => map (fun b => NilZero.string_of_int (Z.to_int b)) bs
       | None => []
       end.

Definition member (s : string) (l : list string) : bool :=
  existsb (String.eqb s) l.

(** [.in("link_id", linkIds)] *)
Definition links_query (ids : list string) (table : list HedgeLink) : list HedgeLink :=
  filter
    (fun l =>
       match link_id l with
       | Some s => member s ids
       | None => false
       end)
    table.

(** [[...new Set(xs)]]: the first occurrence of each element. *)
Fixpoint unique (xs : list string) : list string :=
  match xs with
  | [] => []
  | x :: rest => x :: filter (fun y => negb (String.eqb y x)) (unique rest)
  end.

(** [.in("id", executionIds).is("deleted_at", null)] *)
Definition executions_query (ids : list string) (table : list (stored HedgeExecution))
  : list HedgeExecution :=
  map row
      (filter (fun e => member (id (row e)) ids && is_null (deleted_at e)) table).

(** [{ ...exec, allocatedQty: link?.allocated_quantity_mt, ... }] with
    [link = links.find(l => l.hedge_execution_id === exec.id)]. *)
Definition enrich (links : list HedgeLink) (e : HedgeExecution) : LinkedHedge :=
  let link := find (fun l => String.eqb (hedge_execution_id l) (id e)) links in
  {| exec := e;
     allocatedQty := option_map allocated_quantity_mt link;
     linked_side := option_map link_side link;
     linkLevel := option_map link_level link;
     linkId := match link with Some l => link_id l | None => None end |}.

(** The [queryFn] of the linked-hedges query; the map keyed by the
    execution id is an association list in insertion order. *)
Definition linkedHedges (orderId : option string) (blOrders : option (list Z))
  (link_table : list HedgeLink) (execution_table : list (stored HedgeExecution))
  : list LinkedHedge :=
  match orderId with
  | None => []
  | Some o =>
      if negb (JS.truthy_string o) then []
      else
        let links := links_query (linkIds o blOrders) link_table in
        if (List.length links =? 0)%nat then []
        else
          let executionIds := unique (map hedge_execution_id links) in
          let executions := executions_query executionIds execution_table in
          let executionMap :=
            fold_left (fun m e => assign (id e) (enrich links e) m) executions [] in
          map snd executionMap
  end.

(** The net exposure shown for the linked hedges. *)
Definition summary_exposure (linked : list LinkedHedge) : HedgingSummarySection.exposure :=
  HedgingSummarySection.netExposure (Some (map exec linked)).

End SummaryQueries.

(* ================================================================== *)
(** ** templateEngine: [resolveValue] *)

Module TemplateResolve.

Local Open Scope string_scope.

(** The values a template variable can resolve to.  [Inherited k] is what
    an object answers for a property name it has from its prototype. *)
#[warnings="-register-all"]
Inductive value : Type :=
| Undefined
| Null
| Num (x : JS.number)
| Str (s : string)
| Obj (fields : list (string * value))
| Arr (items : list value)
| Inherited (key : string).

(** The end of a call: a value, or the TypeError of [key in primitive]. *)
Inductive outcome : Type :=
| Return (v : value)
| TypeError.

Definition truthy (v : value) : bool :=
  match v with
  | Undefined | Null => false
  | Num x => JS.truthy x
  | Str s => JS.truthy_string s
  | Obj _ | Arr _ | Inherited _ => true
  end.

(** [a || b] *)
Definition or_else (a b : value) : value := if truthy a then a else b.

Definition own (key : string) (fields : list (string * value)) : option value :=
  PriceFixingDialog.lookup key fields.

Definition decimal (n : nat) : string := NilZero.string_of_uint (Nat.to_uint n).

(** Whether [key] writes an index below [n]. *)
Definition is_index (key : string) (n : nat) : bool :=
  existsb (fun i => String.eqb (decimal i) key) (seq 0 n).

(** [Math.round(x)] *)
Definition round (x : JS.number) : JS.number :=
  match x with
  | JS.Fin q => JS.Fin (inject_Z (Qfloor (q + (1 # 2))))
  | other => other
  end.

Section Engine.

(** What the language supplies: the property names every object and every
    array inherits, [Number(...)] of a string and of an object, and
    [String(...)] of an object and of a number that is not a moderate
    integer. *)
Variable inherited : string -> bool.
Variable inherited_array : string -> bool.
Variable number_of_text : string -> JS.number.
Variable number_of_object : value -> JS.number.
Variable text_of_object : value -> string.
Variable text_of_fraction : JS.number -> string.

(** The imported constant and the date of the call. *)
Variable METYCLE_INFO : value.
Variable today : string.

(** [key in v]; on a primitive it is a TypeError. *)
Definition has (key : string) (v : value) : option bool :=
  match v with
  | Obj fields =>
      Some (match own key fields with Some _ => true | None => false end
            || inherited key)
  | Arr items =>
      Some (String.eqb key "length" || is_index key (List.length items)
            || inherited_array key)
  | _ => None
  end.

(** [v[key]], for the keys this file reads: a primitive has none of them. *)
Definition get (key : string) (v : value) : value :=
  match v with
  | Obj fields =>
      match own key fields with
      | Some x => x
      | None => if inherited key then Inherited key else Undefined
      end
  | Arr items =>
      if String.eqb key "length" then Num (JS.Fin (inject_Z (Z.of_nat (List.length items))))
      else
        match find (fun i => String.eqb (decimal i) key) (seq 0 (List.length items)) with
        | Some i => nth i items Undefined
        | None => if inherited_array key then Inherited key else Undefined
        end
  | _ => Undefined
  end.

(** [Number(v)] *)
Definition to_number (v : value) : JS.number :=
  match v with
  | Undefined => JS.NaN
  | Null => JS.Fin 0
  | Num x => x
  | Str s => number_of_text s
  | other => number_of_object other
  end.

(** [String(x)] of a number: an integer below 10^21 in magnitude is written
    in decimal digits. *)
Definition show (x : JS.number) : string :=
  match x with
  | JS.NaN => "NaN"
  | JS.PInf => "Infinity"
  | JS.NInf => "-Infinity"
  | JS.Fin q =>
      if Qeq_bool q (inject_Z (Qfloor q))
         && (Z.abs (Qfloor q) <? 10 ^ 21)%Z
      then NilZero.string_of_int (Z.to_int (Qfloor q))
      else text_of_fraction x
  end.

(** [`${v}`] *)
Definition to_string (v : value) : string :=
  match v with
  | Undefined => "undefined"
  | Null => "null"
  | Num x => show x
  | Str s => s
  | other => text_of_object other
  end.

(** The data of the engine: [{ ...data, metycle: METYCLE_INFO }]. *)
Definition construct (data : list (string * value)) : list (string * value) :=
  DialogQueries.assign "metycle" METYCLE_INFO data.

(** [this.data.name] *)
Definition field (data : list (string * value)) (name : string) : value :=
  get name (Obj data).

Definition prefixMap : list (string * string) :=
  [("metycle_", "metycle"); ("bl_", "bl_extraction"); ("bl_order_", "bl_order");
   ("order_", "order"); ("purchaser_", "company"); ("seller_", "company");
   ("buyer_", "company")]%string.

(** The loop over the prefixes; [None] when no prefix gave a value. *)
Fixpoint by_prefix (data : list (string * value)) (varName : string)
  (entries : list (string * string)) : option outcome :=
  match entries with
  | [] => None
  | (prefix, sourceName) :: rest =>
      if String.prefix prefix varName
      then
        let fieldName :=
          String.substring (String.length prefix)
                           (String.length varName - String.length prefix) varName in
        let source := field data sourceName in
        if truthy source
        then
          match has fieldName source with
          | None => Some TypeError
          | Some true => Some (Return (get fieldName source))
          | Some false => by_prefix data varName rest
          end
        else by_prefix data varName rest
      else by_prefix data varName rest
  end.

(** The loop over the sources; [None] when none has the key. *)
Fixpoint by_source (varName : string) (sources : list value) : option outcome :=
  match sources with
  | [] => None
  | source :: rest =>
      if truthy source
      then
        match has varName source with
        | None => Some TypeError
        | Some true => Some (Return (get varName source))
        | Some false => by_source varName rest
        end
      else by_source varName rest
  end.

(** The six sources searched for a plain name, in the order of the source. *)
Definition sources (data : list (string * value)) : list value :=
  [field data "metycle"; field data "bl_extraction"; field data "bl_order";
   field data "order"; field data "company"; field data "company_address"].

Definition is_nullish (v : value) : bool :=
  match v with
  | Undefined | Null => true
  | _ => false
  end.

(** The computed fields and the aliases, in the order of the source. *)
Definition computed (data : list (string * value)) (varName : string) : value :=
  let order := field data "order" in
  let ticket := field data "ticket" in
  let company_address := field data "company_address" in
  let named (name : string) := String.eqb varName name in
  if named "total_sell_value" && truthy order
  then
    let qty := or_else (get "allocated_quantity_mt" order) (Num (JS.Fin 0)) in
    let price := or_else (get "sell_price" order) (Num (JS.Fin 0)) in
    Num (JS.mul (to_number qty) (to_number price))
  else if named "total_buy_value" && truthy order
  then
    let qty := or_else (get "allocated_quantity_mt" order) (Num (JS.Fin 0)) in
    let price := or_else (get "buy_price" order) (Num (JS.Fin 0)) in
    Num (JS.mul (to_number qty) (to_number price))
  else if named "formatted_payment_terms" && truthy ticket
  then
    let paymentTerms := or_else (get "payment_terms" ticket) (Str "") in
    let triggerEvent := or_else (get "payment_trigger_event" ticket) (Str "") in
    let offsetDays := get "payment_offset_days" ticket in
    if truthy paymentTerms && truthy triggerEvent && negb (is_nullish offsetDays)
    then
      let absOffset := JS.abs (to_number offsetDays) in
      let timing :=
        if JS.lt (to_number offsetDays) (JS.Fin 0) then "before" else "after" in
      Str (to_string paymentTerms ++ ", " ++ show absOffset ++ " days " ++ timing
           ++ " " ++ to_string triggerEvent)
    else paymentTerms
  else if named "basis_with_payable" && truthy ticket
  then
    let basis := or_else (get "basis" ticket) (Str "") in
    let payablePercent := get "payable_percent" ticket in
    if truthy basis && negb (is_nullish payablePercent)
    then
      let percentValue :=
        if JS.gt (to_number payablePercent) (JS.Fin (3 # 2))
        then to_number payablePercent
        else JS.mul (to_number payablePercent) (JS.Fin 100) in
      Str (to_string basis ++ " " ++ show (round percentValue) ++ "%")
    else basis
  else if named "ticket_product_details" && truthy ticket
  then get "product_details" ticket
  else if named "payment_terms" && truthy ticket
  then get "payment_terms" ticket
  else if named "buyer_address" && truthy company_address
  then get "line1" company_address
  else if named "seller_address" && truthy company_address
  then get "line1" company_address
  else if named "purchaser_address" && truthy company_address
  then get "line1" company_address
  else if named "seller_contact_name" && truthy company_address
  then get "contact_name_1" company_address
  else if named "seller_contact_email" && truthy company_address
  then get "email_1" company_address
  else if named "purchaser_contact_name" && truthy company_address
  then get "contact_name_1" company_address
  else if named "purchaser_contact_email" && truthy company_address
  then get "email_1" company_address
  else if named "purchaser_vat" && truthy company_address
  then get "VAT_id" company_address
  else if (named "seller_city" || named "purchaser_city") && truthy company_address
  then get "city" company_address
  else if (named "seller_country" || named "purchaser_country") && truthy company_address
  then get "country" company_address
  else Undefined.

(** [resolveValue(varName)] on the data of the engine. *)
Definition resolveValue (data : list (string * value)) (varName : string) : outcome :=
  if String.eqb varName "current_date" then Return (Str today)
  else
    match has varName (Obj data) with
    | Some true => Return (get varName (Obj data))
    | _ =>
        match by_prefix data varName prefixMap with
        | Some r => r
        | None =>
            match by_source varName (sources data) with
            | Some r => r
            | None => Return (computed data varName)
            end
        end
    end.


End Engine.

End TemplateResolve.

(* ================================================================== *)
(** ** The specification's own wording, for comparison with the code *)

Module Specification.

(** The payable fraction as the specification words it: a value above 1.5
    is a percentage and is divided by 100, any other value is a fraction. *)
Definition normalized_payable (payablePercent : Q) : Q :=
  if JS.Qlt_bool (3 # 2) payablePercent then payablePercent / 100
  else payablePercent.

(** The quantity a ticket offers: [ticket.quantity || 0]. *)
Definition offered (t : OptimizeMatching.ticket) : Q :=
  JS.field_or (OptimizeMatching.quantity t) 0.

(** The data model's invariant on a ticket: its quantity is not negative. *)
Definition quantity_in_range (t : OptimizeMatching.ticket) : Prop :=
  0 <= offered t.

(** The stored rows of the hedge execution [k]. *)
Definition rows_of (k : string) (s : PriceFixingDialog.store)
  : list PriceFixingDialog.HedgeExecution :=
  filter (fun h => String.eqb (PriceFixingDialog.id h) k)
         (PriceFixingDialog.hedge_execution s).

(** What one commit has added to the store [s0] when the store is [s]:
    the fixing row [fixingData], some hedge links that all carry its id,
    and no changed hedge execution without one of these links. *)
Definition commit_prefix (fixingData : PriceFixingDialog.PricingFixing)
  (s0 s : PriceFixingDialog.store) : Prop :=
  PriceFixingDialog.pricing_fixing s
  = (PriceFixingDialog.pricing_fixing s0 ++ [fixingData])%list /\
  exists links,
    PriceFixingDialog.hedge_link s
    = (PriceFixingDialog.hedge_link s0 ++ links)%list /\
    (forall l, In l links ->
               PriceFixingDialog.fixing_id l
               = PriceFixingDialog.fixing_row_id fixingData) /\
    (forall h, In h (PriceFixingDialog.hedge_execution s) ->
               In h (PriceFixingDialog.hedge_execution s0) \/
               exists l, In l links /\
                         PriceFixingDialog.hedge_execution_id l
                         = PriceFixingDialog.id h).


(** The number whose decimal writing is the order id. *)
Definition order_number (random : Q) : Z := Qfloor (10000 + random * 90000).

(** The [n] integers from [start] on. *)
Fixpoint count_from (start : Z) (n : nat) : list Z :=
  match n with
  | O => []
  | S k => start :: count_from (start + 1) k
  end.

(** All order numbers a random value in [0, 1) can give. *)
Definition order_numbers : list Z := count_from 10000 (Z.to_nat 90000).

(** Whether the decimal writing of [n] has five characters. *)
Definition five_digits (n : Z) : bool :=
  (String.length (NilZero.string_of_int (Z.to_int n)) =? 5)%nat.

(** Whether the commit loop writes for a selected hedge: its allocation is
    positive and the hedge is listed. *)
Definition writes_for (d : PriceFixingDialog.dialog) (hedgeId : string) : bool :=
  negb (JS.le (PriceFixingDialog.alloc_of (PriceFixingDialog.allocation_text d hedgeId))
              (JS.Fin 0))
  && match PriceFixingDialog.find_hedge d hedgeId with
     | Some _ => true
     | None => false
     end.

(** The selected hedges the commit loop writes for, in loop order. *)
Definition written_ids (d : PriceFixingDialog.dialog) : list string :=
  filter (writes_for d) (PriceFixingDialog.selectedIds d).

(** What identifies a hedge link: its hedge, its quantity, its fixing. *)
Definition link_summary (l : PriceFixingDialog.HedgeLink)
  : string * JS.number * nat :=
  (PriceFixingDialog.hedge_execution_id l,
   PriceFixingDialog.allocated_quantity_mt l,
   PriceFixingDialog.fixing_id l).

End Specification.

(* ================================================================== *)
(** * The programs over binary64 numbers *)

(** The modules above compute with exact rationals.  The modules of
    [Double] are the same programs over the numbers the programs run on:
    a JavaScript number is an IEEE 754 binary64 value, a [float] of the
    kernel, with its rounding, its infinities, its NaN and its two zeros.
    A numeric column of a response is a [float] or null, since JSON
    carries a number as a binary64 value.  The text of an
    [<Input type="number">] is given by the number [parseFloat] reads from
    it, [None] being the empty text. *)

Module Double.

Import PrimFloat SpecFloat FloatOps.
Local Open Scope float_scope.

(** [x > y] and [x >= y]; like [<?] and [<=?] they are false when an
    operand is NaN. *)
Definition gt (x y : float) : bool := y <? x.
Definition ge (x y : float) : bool := y <=? x.

(** Truthiness of a number: [0], [-0] and NaN are falsy. *)
Definition truthy (x : float) : bool := negb (is_zero x || is_nan x).

(** [x || d] *)
Definition or (x d : float) : float := if truthy x then x else d.

(** [Math.min(x, y)]: NaN when an operand is NaN, and [-0] is below [0]. *)
Definition min (x y : float) : float :=
  if is_nan x || is_nan y then nan
  else if x <? y then x
  else if y <? x then y
  else if get_sign x then x else y.

(** [Math.max(x, y)] *)
Definition max (x y : float) : float :=
  if is_nan x || is_nan y then nan
  else if x <? y then y
  else if y <? x then x
  else if get_sign x then y else x.

(** A nullable numeric column. *)
Definition field : Set := option float.

Definition truthy_field (f : field) : bool :=
  match f with
  | None => false
  | Some a => truthy a
  end.

(** The number held by a column that passed a truthiness test. *)
Definition val (f : field) : float :=
  match f with
  | None => 0
  | Some a => a
  end.

(** [f || d] *)
Definition field_or (f : field) (d : float) : float :=
  if truthy_field f then val f else d.

(** [f ?? d] *)
Definition field_nullish (f : field) (d : float) : float :=
  match f with
  | None => d
  | Some a => a
  end.

(** The text of a numeric input box. *)
Definition text : Set := option float.

Definition truthy_text (s : text) : bool :=
  match s with
  | None => false
  | Some _ => true
  end.

(** [parseFloat(s)] *)
Definition parseFloat (s : text) : float :=
  match s with
  | None => nan
  | Some a => a
  end.

(** [Math.floor(x)] of a finite number, as an integer. *)
Definition floor (x : float) : option Z :=
  match Prim2SF x with
  | S754_zero _ => Some 0%Z
  | S754_finite s m e => Some (Z.shiftl (if s then Zneg m else Zpos m) e)
  | _ => None
  end.

(** The value a number leaves in a numeric column: the request body is
    JSON, which writes NaN and the infinities as null and [-0] as [0]. *)
Definition to_column (x : float) : field :=
  if is_finite x then Some (if is_zero x then 0 else x) else None.

(** A finite number is a zero or a finite binary number. *)
Definition finite_spec (x : spec_float) : Prop :=
  match x with
  | S754_zero _ | S754_finite _ _ _ => True
  | _ => False
  end.

(* ------------------------------------------------------------------ *)
(** ** OptimizeMatching *)

Module OptimizeMatching.

Inductive pricing := Fixed | Formula | Index.

Record ticket : Type := mkTicket {
  id : string;
  type : side;
  status : string;
  commodity_type : string;
  pricing_type : option pricing;
  signed_price : field;
  lme_price : field;
  payable_percent : field;
  premium_discount : field;
  quantity : field;
  incoterms : option string;
  metal_form : option string;
  isri_grade : option string;
  ship_to : option string;
  ship_from : option string
}.

Definition calculateTicketPrice (t : ticket) : float :=
  match pricing_type t with
  | Some Fixed => field_or (signed_price t) 0
  | Some Formula =>
      if truthy_field (lme_price t) && truthy_field (payable_percent t)
      then val (lme_price t) * val (payable_percent t)
      else 0
  | Some Index =>
      if truthy_field (lme_price t) && truthy_field (premium_discount t)
      then val (lme_price t) + val (premium_discount t)
      else 0
  | None => 0
  end.

(** A ticket with its computed price: [{ ...t, calculatedPrice }]. *)
Record priced : Type := mkPriced {
  tk : ticket;
  calculatedPrice : float
}.

(** A selected ticket: [{ ...sellTicket, allocQty }]. *)
Record selected : Type := mkSelected {
  entry : priced;
  allocQty : float
}.

Definition with_price (t : ticket) : priced :=
  {| tk := t; calculatedPrice := calculateTicketPrice t |}.

(** [Array.prototype.sort(cmp)]: the stable sort.  [insert] puts [x] in
    front of the first element it does not have to follow, that is the
    first [y] for which [cmp x y] is not above 0. *)
Fixpoint insert (cmp : priced -> priced -> float) (x : priced) (l : list priced)
  : list priced :=
  match l with
  | [] => [x]
  | y :: l' => if 0 <? cmp x y then y :: insert cmp x l' else x :: l
  end.

Definition sort (cmp : priced -> priced -> float) (l : list priced) : list priced :=
  fold_right (insert cmp) [] l.

(** Lowest price first. *)
Definition ascending (a b : priced) : float := calculatedPrice a - calculatedPrice b.
(** Highest price first. *)
Definition descending (a b : priced) : float := calculatedPrice b - calculatedPrice a.

(** The greedy scan shared by the two [for ... of] loops: it returns the
    selected tickets in scan order and the remaining quantity. *)
Fixpoint select (remainingQty : float) (sorted : list priced)
  : list selected * float :=
  match sorted with
  | [] => ([], remainingQty)
  | t :: rest =>
      if remainingQty <=? 0 then ([], remainingQty)
      else
        let allocQty := min remainingQty (field_or (quantity (tk t)) 0) in
        let (more, left) := select (remainingQty - allocQty) rest in
        ({| entry := t; allocQty := allocQty |} :: more, left)
  end.

(** [selected.reduce((sum, t) => sum + calculateTicketPrice(t) * t.allocQty, 0)] *)
Definition weighted_sum (sel : list selected) : float :=
  fold_left
    (fun sum t => sum + calculateTicketPrice (tk (entry t)) * allocQty t)
    sel 0.

Definition average (sel : list selected) (targetQty : float) : float :=
  weighted_sum sel / targetQty.

(** The row inserted into the [order] table. *)
Record order : Type := mkOrder {
  order_id : string;
  buyer : string;
  seller : string;
  order_commodity_type : string;
  order_metal_form : option string;
  order_isri_grade : option string;
  allocated_quantity_mt : float;
  buy_price : float;
  sell_price : float;
  margin : float;
  order_status : string;
  transaction_type : string;
  order_ship_to : option string;
  order_ship_from : option string;
  product_details : string;
  created_at : string
}.

(** The answer of a [supabase.from("ticket").select(...)] call. *)
Record response : Type := mkResponse {
  data : option (list ticket);
  error : option string
}.

(** A store that answers the query
    [.eq("type", ty).eq("status", "Approved").eq("commodity_type", c)]
    from its ticket table. *)
Definition from_ticket (table : list ticket) (ty : side) (c : string) : response :=
  {| data :=
       Some (filter
               (fun t => side_eqb (type t) ty
                         && String.eqb (status t) "Approved"
                         && String.eqb (commodity_type t) c)
               table);
     error := None |}.

Inductive message : Type :=
| PleaseFillIn            (* "Please fill in commodity type and quantity" *)
| FailedToFetch           (* "Failed to fetch tickets" *)
| NoMatchingTickets       (* "No matching tickets found with the specified criteria" *)
| NotEnoughSell (targetQty : float)  (* "Not enough sell tickets to match ... MT" *)
| NotEnoughBuy (targetQty : float)   (* "Not enough buy tickets to match ... MT" *)
| BuyExceedsSell.         (* "Cannot create order: Buy price exceeds sell price" *)

(** What a run of [handleOptimize] does to the outside, in order. *)
Inductive event : Type :=
| SelectTickets (ty : side) (c : string)
| ToastError (m : message)
| InsertOrder (o : order).

Definition data_or_empty (r : response) : list ticket :=
  match data r with
  | Some l => l
  | None => []
  end.

Definition has_error (r : response) : bool :=
  match error r with
  | Some _ => true
  | None => false
  end.

(** [selected[0]?.f] *)
Definition first_field {A} (f : ticket -> option A) (sel : list selected) : option A :=
  match sel with
  | [] => None
  | t :: _ => f (tk (entry t))
  end.

Definition join_ids (sel : list selected) : string :=
  String.concat "," (map (fun t => id (tk (entry t))) sel).

(** [String(Math.floor(10000 + Math.random() * 90000))]; [random] is in
    [0, 1), where the number is finite and [String] writes its digits. *)
Definition orderId (random : float) : string :=
  let x := 10000 + random * 90000 in
  match floor x with
  | Some n => NilZero.string_of_int (Z.to_int n)
  | None => if is_nan x then "NaN" else if 0 <? x then "Infinity" else "-Infinity"
  end.

Definition handleOptimize
  (commodityType : string) (quantity : text)
  (fetch : side -> string -> response) (random : float) (now : string)
  : list event :=
  if negb (JS.truthy_string commodityType) || negb (truthy_text quantity)
  then [ToastError PleaseFillIn]
  else
    let targetQty := parseFloat quantity in
    let buyResult := fetch Buy commodityType in
    let sellResult := fetch Sell commodityType in
    [SelectTickets Buy commodityType; SelectTickets Sell commodityType] ++
    (if has_error buyResult || has_error sellResult
    then [ToastError FailedToFetch]
    else
      let buyTickets := data_or_empty buyResult in
      let sellTickets := data_or_empty sellResult in
      if (List.length buyTickets =? 0)%nat || (List.length sellTickets =? 0)%nat
      then [ToastError NoMatchingTickets]
      else
        let sortedBuyTickets := sort ascending (map with_price buyTickets) in
        let sortedSellTickets := sort descending (map with_price sellTickets) in
        let (selectedSells, remainingSell) := select targetQty sortedSellTickets in
        if gt remainingSell 0
        then [ToastError (NotEnoughSell targetQty)]
        else
          let (selectedBuys, remainingBuy) := select targetQty sortedBuyTickets in
          if gt remainingBuy 0
          then [ToastError (NotEnoughBuy targetQty)]
          else
            let avgBuyPrice := average selectedBuys targetQty in
            let avgSellPrice := average selectedSells targetQty in
            if ge avgBuyPrice avgSellPrice
            then [ToastError BuyExceedsSell]
            else
              let buyIncoterms :=
                JS.string_or (first_field incoterms selectedBuys) "—" in
              let sellIncoterms :=
                JS.string_or (first_field incoterms selectedSells) "—" in
              [InsertOrder
                 {| order_id := orderId random;
                    buyer := join_ids selectedBuys;
                    seller := join_ids selectedSells;
                    order_commodity_type := commodityType;
                    order_metal_form := first_field metal_form selectedBuys;
                    order_isri_grade := first_field isri_grade selectedBuys;
                    allocated_quantity_mt := targetQty;
                    buy_price := avgBuyPrice;
                    sell_price := avgSellPrice;
                    margin := (avgSellPrice - avgBuyPrice) / avgBuyPrice;
                    order_status := "Allocated";
                    transaction_type := "B2B";
                    order_ship_to := first_field ship_to selectedSells;
                    order_ship_from := first_field ship_from selectedBuys;
                    product_details := (buyIncoterms ++ " / " ++ sellIncoterms)%string;
                    created_at := now |}])%list.

(** The quantity of a ticket is a finite number or null, as in every
    response of the store. *)
Definition numeric_quantity (t : ticket) : Prop :=
  forall x, quantity t = Some x -> is_finite x = true.

End OptimizeMatching.

(* ------------------------------------------------------------------ *)
(** ** PriceFixingDialog *)

Module PriceFixingDialog.

Inductive level := ORDER | BL_ORDER.

Inductive hedge_status := OPEN | PARTIALLY_CLOSED | CLOSED.

(** A row of [hedge_execution], with the joined [hedge_request.order_id]. *)
Record HedgeExecution : Type := mkHedgeExecution {
  id : string;
  direction : side;
  metal : string;
  quantity_mt : float;
  open_quantity_mt : field;
  executed_price : float;
  status : hedge_status;
  closed_price : option float;
  closed_at : option string;
  updated_at : option string;
  hedge_request_order_id : option string
}.

(** [openQty: h.open_quantity_mt ?? h.quantity_mt] *)
Definition openQty (h : HedgeExecution) : float :=
  field_nullish (open_quantity_mt h) (quantity_mt h).

(** A row of [pricing_fixing]; [fixing_row_id] is given by the store. *)
Record PricingFixing : Type := mkPricingFixing {
  fixing_row_id : nat;
  fixing_level : level;
  order_id : option string;
  bl_order_id : option Z;
  fixing_metal : option string;
  fixing_quantity_mt : float;
  final_price : float;
  final_price_currency : string;
  fixed_at : string
}.

(** A row of [hedge_link]. *)
Record HedgeLink : Type := mkHedgeLink {
  hedge_execution_id : string;
  link_id : option string;
  link_level : string;
  allocated_quantity_mt : float;
  link_side : string;
  exec_price : float;
  fixing_price : float;
  fixing_id : nat;
  link_metal : option string;
  link_direction : side
}.

(** The three tables the dialog writes. *)
Record store : Type := mkStore {
  pricing_fixing : list PricingFixing;
  hedge_link : list HedgeLink;
  hedge_execution : list HedgeExecution
}.

(** Props and state of the dialog when the user submits; [existingFixings]
    and [hedges] are the data of its two queries, as last answered. *)
Record dialog : Type := mkDialog {
  dlg_level : level;
  orderId : option string;
  blOrderId : option Z;
  dlg_metal : option string;
  physicalQuantity : float;
  dlg_side : side;
  selectedHedges : list (string * bool);
  allocations : list (string * text);
  fixingPrice : text;
  fixingDate : string;
  existingFixings : option (list field);
  hedges : option (list HedgeExecution)
}.

(** [obj[key]] on an object kept as an association list. *)
Fixpoint lookup {A} (key : string) (obj : list (string * A)) : option A :=
  match obj with
  | [] => None
  | (k, v) :: rest => if String.eqb k key then Some v else lookup key rest
  end.

(** [selectedHedges[id]] as a condition. *)
Definition is_selected (d : dialog) (hedgeId : string) : bool :=
  match lookup hedgeId (selectedHedges d) with
  | Some b => b
  | None => false
  end.

(** [allocations[id]]: a missing entry parses like the empty text. *)
Definition allocation_text (d : dialog) (hedgeId : string) : text :=
  match lookup hedgeId (allocations d) with
  | Some s => s
  | None => None
  end.

(** [existingFixings?.reduce((sum, f) => sum + (f.quantity_mt || 0), 0) || 0] *)
Definition alreadyFixedQty (d : dialog) : float :=
  match existingFixings d with
  | None => 0
  | Some fs => or (fold_left (fun sum f => sum + field_or f 0) fs 0) 0
  end.

Definition availableUnfixedQty (d : dialog) : float :=
  max 0 (physicalQuantity d - alreadyFixedQty d).

Definition hedgesWithOpenQty (d : dialog) : list HedgeExecution :=
  match hedges d with
  | None => []
  | Some hs => hs
  end.

(** [hedgesWithOpenQty.find((h) => h.id === hedgeId)] *)
Definition find_hedge (d : dialog) (hedgeId : string) : option HedgeExecution :=
  find (fun h => String.eqb (id h) hedgeId) (hedgesWithOpenQty d).

(** [parseFloat(val) || 0] *)
Definition alloc_of (val : text) : float := or (parseFloat val) 0.

Definition totalAllocation (d : dialog) : float :=
  fold_left
    (fun sum (e : string * text) => sum + alloc_of (snd e))
    (filter (fun e : string * text => is_selected d (fst e)) (allocations d))
    0.

Definition exceedsPhysical (d : dialog) : bool :=
  gt (totalAllocation d) (availableUnfixedQty d).

Definition hasValidAllocation (d : dialog) : bool :=
  gt (totalAllocation d) 0.

(** The keys of [allocationErrors]. *)
Definition allocationErrors (d : dialog) : list string :=
  map fst
    (filter
       (fun e : string * text =>
          is_selected d (fst e) &&
          match find_hedge d (fst e) with
          | Some hedge => gt (alloc_of (snd e)) (openQty hedge)
          | None => false
          end)
       (allocations d)).

Definition hasAllocationErrors (d : dialog) : bool :=
  (0 <? List.length (allocationErrors d))%nat.

(** *** The store and its failures *)

Inductive failure : Type :=
| StoreError (request : nat)   (* the store answered request number [request] with an error *)
| TypeError.                   (* [blOrderId!.toString()] on a missing id *)

Inductive result (A : Type) : Type :=
| Ok (a : A)
| Throw (e : failure).
Arguments Ok {A} a.
Arguments Throw {A} e.

(** The world of one commit: the tables and the number of requests sent so
    far.  [fails n] tells whether the store answers request [n] with an
    error; a request answered with an error changes no table. *)
Record world : Type := mkWorld {
  db : store;
  sent : nat
}.

Definition M (A : Type) : Type := world -> result A * world.

Definition ret {A} (a : A) : M A := fun w => (Ok a, w).

Definition throw {A} (e : failure) : M A := fun w => (Throw e, w).

Definition bind {A B} (m : M A) (k : A -> M B) : M B :=
  fun w =>
    match m w with
    | (Ok a, w') => k a w'
    | (Throw e, w') => (Throw e, w')
    end.

Notation "x <- m ;; k" := (bind m (fun x => k))
  (at level 61, m at next level, right associativity).
Notation "m ;;; k" := (bind m (fun _ => k))
  (at level 61, right associativity).

(** One awaited request followed by [if (error) throw error]. *)
Definition request {A} (fails : nat -> bool) (apply : store -> A * store) : M A :=
  fun w =>
    if fails (sent w)
    then (Throw (StoreError (sent w)), {| db := db w; sent := S (sent w) |})
    else
      let (a, db') := apply (db w) in
      (Ok a, {| db := db'; sent := S (sent w) |}).

(** [for (const x of xs) { body }], where [continue] is [ret tt]. *)
Fixpoint for_of {A} (xs : list A) (body : A -> M unit) : M unit :=
  match xs with
  | [] => ret tt
  | x :: rest => body x ;;; for_of rest body
  end.

(** The id the store gives to the next [pricing_fixing] row. *)
Definition next_fixing_id (s : store) : nat := List.length (pricing_fixing s).

Definition insert_pricing_fixing (row : nat -> PricingFixing) (s : store)
  : PricingFixing * store :=
  let fixingData := row (next_fixing_id s) in
  (fixingData,
   {| pricing_fixing := pricing_fixing s ++ [fixingData];
      hedge_link := hedge_link s;
      hedge_execution := hedge_execution s |}).

Definition insert_hedge_link (row : HedgeLink) (s : store) : unit * store :=
  (tt,
   {| pricing_fixing := pricing_fixing s;
      hedge_link := hedge_link s ++ [row];
      hedge_execution := hedge_execution s |}).

(** The values of [.update({ ... })] on [hedge_execution]. *)
Record HedgeUpdate : Type := mkHedgeUpdate {
  new_open_quantity_mt : float;
  new_status : hedge_status;
  new_closed_price : option float;
  new_closed_at : option string;
  new_updated_at : string
}.

Definition apply_update (u : HedgeUpdate) (h : HedgeExecution) : HedgeExecution :=
  {| id := id h;
     direction := direction h;
     metal := metal h;
     quantity_mt := quantity_mt h;
     open_quantity_mt := to_column (new_open_quantity_mt u);
     executed_price := executed_price h;
     status := new_status u;
     closed_price :=
       match new_closed_price u with
       | Some price => to_column price
       | None => None
       end;
     closed_at := new_closed_at u;
     updated_at := Some (new_updated_at u);
     hedge_request_order_id := hedge_request_order_id h |}.

(** [.update(u).eq("id", hedgeId)] *)
Definition update_hedge_execution (u : HedgeUpdate) (hedgeId : string) (s : store)
  : unit * store :=
  (tt,
   {| pricing_fixing := pricing_fixing s;
      hedge_link := hedge_link s;
      hedge_execution :=
        map (fun h => if String.eqb (id h) hedgeId then apply_update u h else h)
            (hedge_execution s) |}).

Definition toUpperCase (s : side) : string :=
  match s with
  | Buy => "BUY"
  | Sell => "SELL"
  end.

(** The update computed for a hedge with allocation [allocQty]. *)
Definition hedge_update (hedge : HedgeExecution) (allocQty : float)
  (price : float) (now : string) : HedgeUpdate :=
  let newOpenQty := openQty hedge - allocQty in
  let newStatus := if newOpenQty <=? 0 then CLOSED else PARTIALLY_CLOSED in
  {| new_open_quantity_mt := max 0 newOpenQty;
     new_status := newStatus;
     new_closed_price := if newOpenQty <=? 0 then Some price else None;
     new_closed_at := if newOpenQty <=? 0 then Some now else None;
     new_updated_at := now |}.

(** [level === "ORDER" ? orderId! : blOrderId!.toString()] *)
Definition compute_link_id (d : dialog) : M (option string) :=
  match dlg_level d with
  | ORDER => ret (orderId d)
  | BL_ORDER =>
      match blOrderId d with
      | Some n => ret (Some (NilZero.string_of_int (Z.to_int n)))
      | None => throw TypeError
      end
  end.

Definition selectedIds (d : dialog) : list string :=
  filter (fun hedgeId => is_selected d hedgeId) (map fst (selectedHedges d)).

(** The body of the [for (const hedgeId of selectedIds)] loop. *)
Definition allocate_hedge (fails : nat -> bool) (now : string) (d : dialog)
  (fixingData : PricingFixing) (hedgeId : string) : M unit :=
  let allocQty := alloc_of (allocation_text d hedgeId) in
  if allocQty <=? 0 then ret tt
  else
    match find_hedge d hedgeId with
    | None => ret tt
    | Some hedge =>
        linkId <- compute_link_id d ;;
        request fails
          (insert_hedge_link
             {| hedge_execution_id := hedgeId;
                link_id := linkId;
                link_level :=
                  match dlg_level d with ORDER => "Order" | BL_ORDER => "Bl_order" end;
                allocated_quantity_mt := allocQty;
                link_side := toUpperCase (dlg_side d);
                exec_price := executed_price hedge;
                fixing_price := parseFloat (fixingPrice d);
                fixing_id := fixing_row_id fixingData;
                link_metal := dlg_metal d;
                link_direction := direction hedge |}) ;;;
        request fails
          (update_hedge_execution
             (hedge_update hedge allocQty (parseFloat (fixingPrice d)) now)
             hedgeId)
    end.

(** The row of step 1, [.from("pricing_fixing").insert({ ... })], with the
    id the store gives it. *)
Definition fixing_row (d : dialog) (row_id : nat) : PricingFixing :=
  {| fixing_row_id := row_id;
     fixing_level := dlg_level d;
     order_id := match dlg_level d with ORDER => orderId d | BL_ORDER => None end;
     bl_order_id := match dlg_level d with BL_ORDER => blOrderId d | ORDER => None end;
     fixing_metal := dlg_metal d;
     fixing_quantity_mt := totalAllocation d;
     final_price := parseFloat (fixingPrice d);
     final_price_currency := "USD";
     fixed_at := fixingDate d |}.

(** [fixingMutation.mutationFn] *)
Definition fixingMutation (fails : nat -> bool) (now : string) (d : dialog)
  : M PricingFixing :=
  fixingData <- request fails (insert_pricing_fixing (fixing_row d)) ;;
  for_of (selectedIds d) (allocate_hedge fails now d fixingData) ;;;
  ret fixingData.

Inductive toast : Type :=
| PleaseAllocate        (* "Please allocate quantity to at least one hedge" *)
| ExceedsAvailable      (* "Total allocation exceeds available unfixed quantity" *)
| ExceedsOpenQuantity   (* "Some allocations exceed hedge open quantity" *)
| InvalidFixingPrice.   (* "Please enter a valid fixing price" *)

(** How a submission ends: refused by a check before the mutation runs, or
    the mutation's success or failure. *)
Inductive submission : Type :=
| Refused (t : toast)
| Success (fixingData : PricingFixing)
| Failure (e : failure).

(** [fixingMutation.mutate()]: run the mutation and report how it ends. *)
Definition mutate (fails : nat -> bool) (now : string) (d : dialog)
  (w : world) : submission * world :=
  match fixingMutation fails now d w with
  | (Ok fixingData, w') => (Success fixingData, w')
  | (Throw e, w') => (Failure e, w')
  end.

Definition handleSubmit (fails : nat -> bool) (now : string) (d : dialog)
  (w : world) : submission * world :=
  if negb (hasValidAllocation d) then (Refused PleaseAllocate, w)
  else if exceedsPhysical d then (Refused ExceedsAvailable, w)
  else if hasAllocationErrors d then (Refused ExceedsOpenQuantity, w)
  else if negb (truthy_text (fixingPrice d)) || (parseFloat (fixingPrice d) <=? 0)
  then (Refused InvalidFixingPrice, w)
  else mutate fails now d w.

End PriceFixingDialog.

(* ------------------------------------------------------------------ *)
(** ** HedgingSummarySection: the exposure aggregator *)

Module HedgingSummarySection.

Import PriceFixingDialog.

(** The label; [Long x] is ["Long " + x.toFixed(2) + " MT"], [Short x] is
    ["Short " + x.toFixed(2) + " MT"]. *)
Inductive position : Type :=
| Flat
| Long (x : float)
| Short (x : float).

Record exposure : Type := mkExposure {
  value : float;
  label : position
}.

(** [sum + (h.direction === "Buy" ? qty : -qty)] with
    [qty = h.open_quantity_mt ?? h.quantity_mt] *)
Definition add_signed (sum : float) (h : HedgeExecution) : float :=
  let qty := field_nullish (open_quantity_mt h) (quantity_mt h) in
  sum + match direction h with
        | Buy => qty
        | Sell => - qty
        end.

(** [linkedHedges.reduce(..., 0)] *)
Definition net_of (linkedHedges : list HedgeExecution) : float :=
  fold_left add_signed linkedHedges 0.

#[warnings="-inexact-float"]
Definition netExposure (linkedHedges : option (list HedgeExecution)) : exposure :=
  match linkedHedges with
  | None | Some [] => {| value := 0; label := Flat |}
  | Some hs =>
      let net := net_of hs in
      if abs net <? 0.01 then {| value := 0; label := Flat |}
      else if gt net 0
      then {| value := net; label := Long net |}
      else {| value := net; label := Short (abs net) |}
  end.

End HedgingSummarySection.

End Double.

(* ================================================================== *)
(** ** Sample data *)

Module Samples.

Import OptimizeMatching.

(** A ticket of the given side, pricing mode and pricing inputs. *)
Definition a_ticket (name : string) (ty : side) (mode : option pricing)
  (signed lme payable premium qty : JS.field) (dest : option string) : ticket :=
  {| id := name; type := ty; status := "Approved"; commodity_type := "Copper";
     pricing_type := mode;
     signed_price := signed; lme_price := lme; payable_percent := payable;
     premium_discount := premium; quantity := qty;
     incoterms := None; metal_form := None; isri_grade := None;
     ship_to := dest; ship_from := None |}.


(** Index pricing with premium/discount exactly 0. *)
Definition index_flat : ticket :=
  a_ticket "I0" Sell (Some Index) None (Some 100) None (Some 0) (Some 10) None.

(** A ticket with a fixed price. *)
Definition fixed_ticket (name : string) (ty : side) (price qty : Q)
  (dest : string) : ticket :=
  a_ticket name ty (Some Fixed) (Some price) None None None (Some qty) (Some dest).

Definition sell_520 : ticket := fixed_ticket "S1" Sell 520 30 "Rotterdam".
Definition sell_500 : ticket := fixed_ticket "S2" Sell 500 20 "Hamburg".
Definition buy_450 : ticket := fixed_ticket "B1" Buy 450 40 "Antwerp".

(** The scenario pool of the specification. *)
Definition pool : list ticket := [sell_500; sell_520; buy_450].

(** A hedge execution with the given direction, trade quantity and open
    quantity. *)
Definition a_hedge (name : string) (dir : side) (trade : Q) (open : JS.field)
  : PriceFixingDialog.HedgeExecution :=
  {| PriceFixingDialog.id := name;
     PriceFixingDialog.direction := dir;
     PriceFixingDialog.metal := "Copper";
     PriceFixingDialog.quantity_mt := trade;
     PriceFixingDialog.open_quantity_mt := open;
     PriceFixingDialog.executed_price := 9000;
     PriceFixingDialog.status := PriceFixingDialog.OPEN;
     PriceFixingDialog.closed_price := None;
     PriceFixingDialog.closed_at := None;
     PriceFixingDialog.updated_at := None;
     PriceFixingDialog.hedge_request_order_id := Some "12345"%string |}.

(** An open Buy hedge of 40 MT. *)
Definition hedge_40 : PriceFixingDialog.HedgeExecution := a_hedge "H1" Buy 40 (Some 40).

(** A second open Buy hedge of 30 MT. *)
Definition hedge_30 : PriceFixingDialog.HedgeExecution := a_hedge "H2" Buy 30 None.

(** A dialog on order 12345 (sell side, 100 MT of which 60 are fixed), with
    the given selection, allocations and fixing price. *)
Definition a_dialog (selection : list (string * bool))
  (allocs : list (string * JS.text)) (price : JS.text) : PriceFixingDialog.dialog :=
  {| PriceFixingDialog.dlg_level := PriceFixingDialog.ORDER;
     PriceFixingDialog.orderId := Some "12345"%string;
     PriceFixingDialog.blOrderId := None;
     PriceFixingDialog.dlg_metal := Some "Copper"%string;
     PriceFixingDialog.physicalQuantity := 100;
     PriceFixingDialog.dlg_side := Sell;
     PriceFixingDialog.selectedHedges := selection;
     PriceFixingDialog.allocations := allocs;
     PriceFixingDialog.fixingPrice := price;
     PriceFixingDialog.fixingDate := "2025-01-15";
     PriceFixingDialog.existingFixings := Some [Some 60];
     PriceFixingDialog.hedges := Some [hedge_40; hedge_30] |}.

(** Allocate 15 MT against H1 at 9500. *)
Definition fix_15 : PriceFixingDialog.dialog :=
  a_dialog [("H1"%string, true)] [("H1"%string, Some 15)] (Some 9500).

(** Allocate all 40 MT of H1 at 9500. *)
Definition fix_40 : PriceFixingDialog.dialog :=
  a_dialog [("H1"%string, true)] [("H1"%string, Some 40)] (Some 9500).

(** A store that holds the two hedges and nothing else; no request sent. *)
Definition world0 : PriceFixingDialog.world :=
  {| PriceFixingDialog.db :=
       {| PriceFixingDialog.pricing_fixing := [];
          PriceFixingDialog.hedge_link := [];
          PriceFixingDialog.hedge_execution := [hedge_40; hedge_30] |};
     PriceFixingDialog.sent := 0 |}.

(** Every request is answered. *)
Definition no_failure : nat -> bool := fun _ => false.

(** The second request of the commit (the first hedge-link insert) is
    answered with an error. *)
Definition link_insert_fails : nat -> bool := fun n => (n =? 1)%nat.

(** The third request of the commit (the first hedge-execution update) is
    answered with an error. *)
Definition update_fails : nat -> bool := fun n => (n =? 2)%nat.

(** The fixing row of [fix_15], as the store returns it. *)
Definition fixing_0 : PriceFixingDialog.PricingFixing :=
  {| PriceFixingDialog.fixing_row_id := 0;
     PriceFixingDialog.fixing_level := PriceFixingDialog.ORDER;
     PriceFixingDialog.order_id := Some "12345"%string;
     PriceFixingDialog.bl_order_id := None;
     PriceFixingDialog.fixing_metal := Some "Copper"%string;
     PriceFixingDialog.fixing_quantity_mt := JS.Fin 15;
     PriceFixingDialog.final_price := JS.Fin 9500;
     PriceFixingDialog.final_price_currency := "USD";
     PriceFixingDialog.fixed_at := "2025-01-15" |}.

(** The sell candidates of [pool], best price first. *)
Definition sorted_sells : list priced :=
  sort descending (map with_price [sell_500; sell_520]).

(** What the scan for the target 40 selects of them, and what it leaves. *)
Definition selected_sells : list selected := fst (select (JS.Fin 40) sorted_sells).
Definition left_sells : JS.number := snd (select (JS.Fin 40) sorted_sells).

(** Allocate all 40 MT of H1: the fixing row the store returns, and the
    world after the commit, every request answered. *)
Definition fixing_40 : PriceFixingDialog.PricingFixing :=
  {| PriceFixingDialog.fixing_row_id := 0;
     PriceFixingDialog.fixing_level := PriceFixingDialog.ORDER;
     PriceFixingDialog.order_id := Some "12345"%string;
     PriceFixingDialog.bl_order_id := None;
     PriceFixingDialog.fixing_metal := Some "Copper"%string;
     PriceFixingDialog.fixing_quantity_mt := JS.Fin 40;
     PriceFixingDialog.final_price := JS.Fin 9500;
     PriceFixingDialog.final_price_currency := "USD";
     PriceFixingDialog.fixed_at := "2025-01-15" |}.

Definition world_after_40 : PriceFixingDialog.world :=
  snd (PriceFixingDialog.fixingMutation no_failure "t1" fix_40 world0).

(** A hedge link of 10 MT of the given execution, addressed to [target]. *)
Definition a_link (execution : string) (lvl target : string)
  : PriceFixingDialog.HedgeLink :=
  {| PriceFixingDialog.hedge_execution_id := execution;
     PriceFixingDialog.link_id := Some target;
     PriceFixingDialog.link_level := lvl;
     PriceFixingDialog.allocated_quantity_mt := JS.Fin 10;
     PriceFixingDialog.link_side := "SELL";
     PriceFixingDialog.exec_price := 9000;
     PriceFixingDialog.fixing_price := JS.Fin 9500;
     PriceFixingDialog.fixing_id := 0;
     PriceFixingDialog.link_metal := Some "Copper"%string;
     PriceFixingDialog.link_direction := Buy |}.

(** H1 is linked to order 12345 and to its BL order 7; H2 is linked to
    another order. *)
Definition link_table : list PriceFixingDialog.HedgeLink :=
  [a_link "H1" "Order" "12345"; a_link "H2" "Order" "99999";
   a_link "H1" "Bl_order" "7"]%string.

Definition execution_table
  : list (DialogQueries.stored PriceFixingDialog.HedgeExecution) :=
  [DialogQueries.mkStored hedge_40 None; DialogQueries.mkStored hedge_30 None].

(** The property names an object literal inherits, and those of an array
    on top of them. *)
Definition object_prototype (key : string) : bool :=
  existsb (String.eqb key)
    ["constructor"; "hasOwnProperty"; "isPrototypeOf"; "propertyIsEnumerable";
     "toLocaleString"; "toString"; "valueOf"; "__proto__"]%string.

Definition array_prototype (key : string) : bool :=
  object_prototype key
  || existsb (String.eqb key) ["map"; "filter"; "find"; "join"; "push"]%string.

(** Template data with parts of the engine's preview data. *)
Definition template_data : list (string * TemplateResolve.value) :=
  [("order",
    TemplateResolve.Obj
      [("id", TemplateResolve.Str "ORD-2024-001");
       ("allocated_quantity_mt", TemplateResolve.Num (JS.Fin 40));
       ("buy_price", TemplateResolve.Num (JS.Fin 450));
       ("sell_price", TemplateResolve.Num (JS.Fin 520))]);
   ("company",
    TemplateResolve.Obj [("name", TemplateResolve.Str "Sample Company Ltd")]);
   ("ticket",
    TemplateResolve.Obj
      [("payment_terms", TemplateResolve.Str "100% CAD");
       ("payment_trigger_event", TemplateResolve.Str "ETA");
       ("payment_offset_days", TemplateResolve.Num (JS.Fin (-7)));
       ("basis", TemplateResolve.Str "3M LLME");
       ("payable_percent", TemplateResolve.Num (JS.Fin (57 # 100)))]);
   ("bl_extraction",
    TemplateResolve.Obj
      [("bl_number", TemplateResolve.Str "SAMPLE-BL-12345");
       ("vessel_name", TemplateResolve.Str "SAMPLE VESSEL")]);
   ("bl_order",
    TemplateResolve.Obj
      [("bl_order_name", TemplateResolve.Str "28878-1");
       ("status", TemplateResolve.Str "In Transit")]);
   ("metycle", TemplateResolve.Obj [("name", TemplateResolve.Str "METYCLE")])]%string.

(** The fields of its objects. *)
Definition template_company : list (string * TemplateResolve.value) :=
  match TemplateResolve.own "company" template_data with
  | Some (TemplateResolve.Obj fields) => fields
  | _ => []
  end.

Definition template_extraction : list (string * TemplateResolve.value) :=
  match TemplateResolve.own "bl_extraction" template_data with
  | Some (TemplateResolve.Obj fields) => fields
  | _ => []
  end.

Definition template_bl_order : list (string * TemplateResolve.value) :=
  match TemplateResolve.own "bl_order" template_data with
  | Some (TemplateResolve.Obj fields) => fields
  | _ => []
  end.


(** [resolveValue] on that data; numbers and objects are never converted
    from text here. *)
Definition resolve_sample (varName : string) : TemplateResolve.outcome :=
  TemplateResolve.resolveValue object_prototype array_prototype
    (fun _ => JS.NaN) (fun _ => JS.NaN) (fun _ => "[object Object]"%string)
    (fun _ => "0.5"%string) "2025-01-15" template_data varName.

End Samples.

(* ================================================================== *)
(** ** Sample data over binary64 numbers *)

Module DoubleSamples.

Import PrimFloat.
Import Double Double.OptimizeMatching.
Local Open Scope float_scope.

(** A ticket of the given side, pricing mode and pricing inputs. *)
Definition a_ticket (name : string) (ty : side) (mode : option pricing)
  (signed lme payable premium qty : field) (dest : option string) : ticket :=
  {| id := name; type := ty; status := "Approved"; commodity_type := "Copper";
     pricing_type := mode;
     signed_price := signed; lme_price := lme; payable_percent := payable;
     premium_discount := premium; quantity := qty;
     incoterms := match ty with Buy => Some "FOB"%string | Sell => Some "CIF"%string end;
     metal_form := Some "Cathode"%string; isri_grade := Some "Barley"%string;
     ship_to := dest; ship_from := Some "Valparaiso"%string |}.

(** A ticket with a fixed price. *)
Definition fixed_ticket (name : string) (ty : side) (price qty : float)
  (dest : string) : ticket :=
  a_ticket name ty (Some Fixed) (Some price) None None None (Some qty) (Some dest).

Definition sell_520 : ticket := fixed_ticket "S1" Sell 520 30 "Rotterdam".
Definition sell_500 : ticket := fixed_ticket "S2" Sell 500 20 "Hamburg".
Definition buy_450 : ticket := fixed_ticket "B1" Buy 450 40 "Antwerp".

(** A sell ticket with the best price and nothing left to allocate. *)
Definition sell_600_empty : ticket := fixed_ticket "S0" Sell 600 0 "Genoa".

(** A buy ticket with a negative price and a sell ticket priced 5. *)
Definition buy_minus_10 : ticket := fixed_ticket "B2" Buy (-10) 40 "Antwerp".
Definition sell_5 : ticket := fixed_ticket "S3" Sell 5 40 "Hamburg".

(** The scenario pool of the specification. *)
Definition pool : list ticket := [sell_500; sell_520; buy_450].

(** The same pool with the empty best-priced sell ticket. *)
Definition pool_with_empty : list ticket := [sell_500; sell_600_empty; sell_520; buy_450].

(** A pool whose buy side has a negative price. *)
Definition pool_negative : list ticket := [sell_5; buy_minus_10].

(** A pool with no sell ticket. *)
Definition pool_buy_only : list ticket := [buy_450].

(** Buy 10 at 513.37 against sells of 3 and 7 at the same price. *)
#[warnings="-inexact-float"]
Definition pool_same_price : list ticket :=
  [fixed_ticket "B3" Buy 513.37 10 "Antwerp";
   fixed_ticket "S4" Sell 513.37 3 "Hamburg";
   fixed_ticket "S5" Sell 513.37 7 "Hamburg"].

(** Sells of 0.1 and 39.9 against a buy of 40. *)
#[warnings="-inexact-float"]
Definition pool_tenths : list ticket :=
  [fixed_ticket "S6" Sell 520 0.1 "Hamburg";
   fixed_ticket "S7" Sell 500 39.9 "Hamburg";
   buy_450].

(** Sells of 24.4 and 15.6 against a buy of 40. *)
#[warnings="-inexact-float"]
Definition pool_24_16 : list ticket :=
  [fixed_ticket "S8" Sell 520 24.4 "Hamburg";
   fixed_ticket "S9" Sell 500 15.6 "Hamburg";
   buy_450].

(** A hedge execution with the given direction, trade quantity and open
    quantity. *)
Definition a_hedge (name : string) (dir : side) (trade : float) (open : field)
  : PriceFixingDialog.HedgeExecution :=
  {| PriceFixingDialog.id := name;
     PriceFixingDialog.direction := dir;
     PriceFixingDialog.metal := "Copper";
     PriceFixingDialog.quantity_mt := trade;
     PriceFixingDialog.open_quantity_mt := open;
     PriceFixingDialog.executed_price := 9000;
     PriceFixingDialog.status := PriceFixingDialog.OPEN;
     PriceFixingDialog.closed_price := None;
     PriceFixingDialog.closed_at := None;
     PriceFixingDialog.updated_at := None;
     PriceFixingDialog.hedge_request_order_id := Some "12345"%string |}.

(** Buy 40 of which 25 open, Sell 10 fully open: net long 15. *)
Definition linked_long : list PriceFixingDialog.HedgeExecution :=
  [a_hedge "H1" Buy 40 (Some 25); a_hedge "H2" Sell 10 None].

(** Buy 10 of which 0.11 open, Sell 0.1. *)
#[warnings="-inexact-float"]
Definition linked_hundredth : list PriceFixingDialog.HedgeExecution :=
  [a_hedge "H1" Buy 10 (Some 0.11); a_hedge "H2" Sell 0.1 None].

(** Buy 0.01, Buy 0.02, Sell 0.02. *)
#[warnings="-inexact-float"]
Definition linked_three : list PriceFixingDialog.HedgeExecution :=
  [a_hedge "H1" Buy 0.01 None; a_hedge "H2" Buy 0.02 None; a_hedge "H3" Sell 0.02 None].

(** An open Buy hedge of 40 MT. *)
Definition hedge_40 : PriceFixingDialog.HedgeExecution := a_hedge "H1" Buy 40 (Some 40).

(** A second open Buy hedge of 30 MT. *)
Definition hedge_30 : PriceFixingDialog.HedgeExecution := a_hedge "H2" Buy 30 None.

(** A dialog on order 12345 (sell side), with the given physical quantity,
    fixed quantities, selection, allocations and fixing price; it lists
    the hedges H1 (40 open) and H2 (30 open). *)
Definition a_dialog (physical : float) (fixed : list field)
  (selection : list (string * bool))
  (allocs : list (string * text)) (price : text) : PriceFixingDialog.dialog :=
  {| PriceFixingDialog.dlg_level := PriceFixingDialog.ORDER;
     PriceFixingDialog.orderId := Some "12345"%string;
     PriceFixingDialog.blOrderId := None;
     PriceFixingDialog.dlg_metal := Some "Copper"%string;
     PriceFixingDialog.physicalQuantity := physical;
     PriceFixingDialog.dlg_side := Sell;
     PriceFixingDialog.selectedHedges := selection;
     PriceFixingDialog.allocations := allocs;
     PriceFixingDialog.fixingPrice := price;
     PriceFixingDialog.fixingDate := "2025-01-15";
     PriceFixingDialog.existingFixings := Some fixed;
     PriceFixingDialog.hedges := Some [hedge_40; hedge_30] |}.

(** 100 MT of which 60 are fixed: allocate 15 MT against H1 at 9500. *)
Definition fix_15 : PriceFixingDialog.dialog :=
  a_dialog 100 [Some 60] [("H1"%string, true)] [("H1"%string, Some 15)] (Some 9500).


(** The same with all 40 MT of H1. *)
Definition fix_40 : PriceFixingDialog.dialog :=
  a_dialog 100 [Some 60] [("H1"%string, true)] [("H1"%string, Some 40)] (Some 9500).

(** The same with 39.99 MT. *)
#[warnings="-inexact-float"]
Definition fix_39_99 : PriceFixingDialog.dialog :=
  a_dialog 100 [Some 60] [("H1"%string, true)] [("H1"%string, Some 39.99)] (Some 9500).


(** Allocate 50 MT against H2 (open 30) when only 40 MT are unfixed. *)
Definition fix_50 : PriceFixingDialog.dialog :=
  a_dialog 100 [Some 60] [("H2"%string, true)] [("H2"%string, Some 50)] (Some 9500).

(** 3.3 MT, nothing fixed: allocate 1.1 against H1 and 2.2 against H2. *)
#[warnings="-inexact-float"]
Definition fix_1_1_and_2_2 : PriceFixingDialog.dialog :=
  a_dialog 3.3 [] [("H1"%string, true); ("H2"%string, true)]
           [("H1"%string, Some 1.1); ("H2"%string, Some 2.2)] (Some 9500).

(** A store that holds the two hedges and nothing else; no request sent. *)
Definition world0 : PriceFixingDialog.world :=
  {| PriceFixingDialog.db :=
       {| PriceFixingDialog.pricing_fixing := [];
          PriceFixingDialog.hedge_link := [];
          PriceFixingDialog.hedge_execution := [hedge_40; hedge_30] |};
     PriceFixingDialog.sent := 0 |}.

(** Every request is answered. *)
Definition no_failure : nat -> bool := fun _ => false.

(** The fixing row of [fix_15], as the store returns it. *)
Definition fixing_0 : PriceFixingDialog.PricingFixing :=
  {| PriceFixingDialog.fixing_row_id := 0;
     PriceFixingDialog.fixing_level := PriceFixingDialog.ORDER;
     PriceFixingDialog.order_id := Some "12345"%string;
     PriceFixingDialog.bl_order_id := None;
     PriceFixingDialog.fixing_metal := Some "Copper"%string;
     PriceFixingDialog.fixing_quantity_mt := 15;
     PriceFixingDialog.final_price := 9500;
     PriceFixingDialog.final_price_currency := "USD";
     PriceFixingDialog.fixed_at := "2025-01-15" |}.



(** What the store shows of its hedge executions. *)
Definition shown (w : PriceFixingDialog.world)
  : list (string * field * PriceFixingDialog.hedge_status * option float) :=
  map (fun h => (PriceFixingDialog.id h, PriceFixingDialog.open_quantity_mt h,
                 PriceFixingDialog.status h, PriceFixingDialog.closed_price h))
      (PriceFixingDialog.hedge_execution (PriceFixingDialog.db w)).

End DoubleSamples.

(* ================================================================== *)
(** * Properties *)

(** ** Arithmetic of the number model *)

Section NumberFacts.

Lemma Qlt_bool_iff (a b : Q) : JS.Qlt_bool a b = true <-> a < b.
Proof.
  unfold JS.Qlt_bool. rewrite negb_true_iff.
  split; intro H.
  - apply Qnot_le_lt. intro L. apply Qle_bool_iff in L. congruence.
  - destruct (Qle_bool b a) eqn:E; [|reflexivity].
    apply Qle_bool_iff in E. exfalso. apply (Qlt_not_le _ _ H E).
Qed.

Lemma Qlt_bool_false_iff (a b : Q) : JS.Qlt_bool a b = false <-> b <= a.
Proof.
  unfold JS.Qlt_bool. rewrite negb_false_iff. apply Qle_bool_iff.
Qed.

Lemma Qle_bool_false_iff (a b : Q) : Qle_bool a b = false <-> b < a.
Proof.
  rewrite <- Qlt_bool_iff. unfold JS.Qlt_bool.
  destruct (Qle_bool a b); simpl; split; congruence.
Qed.

Lemma Qeq_bool_false_iff (a b : Q) : Qeq_bool a b = false <-> ~ a == b.
Proof.
  split; intro H.
  - intro E. apply Qeq_bool_iff in E. congruence.
  - destruct (Qeq_bool a b) eqn:E; [|reflexivity].
    apply Qeq_bool_iff in E. contradiction.
Qed.

Lemma truthy_field_zero (z : Q) : z == 0 -> JS.truthy_field (Some z) = false.
Proof.
  intro H. simpl. apply negb_false_iff. now apply Qeq_bool_iff.
Qed.

Lemma truthy_field_nonzero (z : Q) : ~ z == 0 -> JS.truthy_field (Some z) = true.
Proof.
  intro H. simpl. apply negb_true_iff. now apply Qeq_bool_false_iff.
Qed.

End NumberFacts.

(* ================================================================== *)
(** ** Pricing Calculator *)

Section Pricing.

Import OptimizeMatching.

Lemma formula_price (t : ticket) (l p : Q) :
  pricing_type t = Some Formula ->
  lme_price t = Some l -> payable_percent t = Some p ->
  ~ l == 0 -> ~ p == 0 ->
  calculateTicketPrice t = l * p.
Proof.
  intros Hm Hl Hp Hl0 Hp0. unfold calculateTicketPrice.
  rewrite Hm, Hl, Hp.
  rewrite (truthy_field_nonzero l Hl0), (truthy_field_nonzero p Hp0).
  reflexivity.
Qed.

Lemma index_price (t : ticket) (l d : Q) :
  pricing_type t = Some Index ->
  lme_price t = Some l -> premium_discount t = Some d ->
  ~ l == 0 -> ~ d == 0 ->
  calculateTicketPrice t = l + d.
Proof.
  intros Hm Hl Hd Hl0 Hd0. unfold calculateTicketPrice.
  rewrite Hm, Hl, Hd.
  rewrite (truthy_field_nonzero l Hl0), (truthy_field_nonzero d Hd0).
  reflexivity.
Qed.

(** Whenever the stored payable percent is above 1.5 the computed Formula
    price is a hundred times the price the specification asks for. *)
Lemma formula_price_above_threshold (t : ticket) (l p : Q) :
  pricing_type t = Some Formula ->
  lme_price t = Some l -> payable_percent t = Some p ->
  ~ l == 0 -> 3 # 2 < p ->
  calculateTicketPrice t == 100 * (l * Specification.normalized_payable p) /\
  ~ calculateTicketPrice t == l * Specification.normalized_payable p.
Proof.
  intros Hm Hl Hp Hl0 Hgt.
  assert (Hp0 : ~ p == 0) by (intro E; rewrite E in Hgt; discriminate Hgt).
  rewrite (formula_price t l p Hm Hl Hp Hl0 Hp0).
  unfold Specification.normalized_payable.
  apply Qlt_bool_iff in Hgt. rewrite Hgt.
  split.
  - field.
  - intro E.
    assert (E' : l * (p - p / 100) == 0) by (rewrite <- (Qplus_opp_r (l * p)); rewrite E at 2; ring).
    apply Qmult_integral in E'. destruct E' as [E' | E']; [contradiction|].
    apply Hp0. apply Qlt_bool_iff in Hgt.
    assert (99 * p == 0) by (rewrite <- (Qmult_0_r 100), <- E'; field).
    apply Qmult_integral in H. destruct H as [H | H]; [discriminate H | exact H].
Qed.

(** Up to the threshold the computed price is the specified one. *)
Lemma formula_price_below_threshold (t : ticket) (l p : Q) :
  pricing_type t = Some Formula ->
  lme_price t = Some l -> payable_percent t = Some p ->
  ~ l == 0 -> ~ p == 0 -> p <= 3 # 2 ->
  calculateTicketPrice t = l * Specification.normalized_payable p.
Proof.
  intros Hm Hl Hp Hl0 Hp0 Hle.
  rewrite (formula_price t l p Hm Hl Hp Hl0 Hp0).
  unfold Specification.normalized_payable.
  apply Qlt_bool_false_iff in Hle. now rewrite Hle.
Qed.


(** C10.  Presence of a pricing input is tested by truthiness: an Index
    ticket whose premium/discount or reference price is exactly 0, and a
    Formula ticket whose payable percent or reference price is exactly 0,
    are priced 0; and in every pricing mode a pricing input that is 0
    gives the same price as the input being absent. *)
Theorem C10_zero_input_is_missing_input (t : ticket) (z : Q) (Hz : z == 0) :
  (pricing_type t = Some Index ->
   premium_discount t = Some z \/ lme_price t = Some z ->
   calculateTicketPrice t = 0) /\
  (pricing_type t = Some Formula ->
   payable_percent t = Some z \/ lme_price t = Some z ->
   calculateTicketPrice t = 0) /\
  (forall s l p d : JS.field,
      calculateTicketPrice (with_inputs t (Some z) l p d)
      = calculateTicketPrice (with_inputs t None l p d) /\
      calculateTicketPrice (with_inputs t s (Some z) p d)
      = calculateTicketPrice (with_inputs t s None p d) /\
      calculateTicketPrice (with_inputs t s l (Some z) d)
      = calculateTicketPrice (with_inputs t s l None d) /\
      calculateTicketPrice (with_inputs t s l p (Some z))
      = calculateTicketPrice (with_inputs t s l p None)).
Proof.
  pose proof (truthy_field_zero z Hz) as Hf.
  split; [|split].
  - intros Hm [H | H]; unfold calculateTicketPrice; rewrite Hm, H, Hf;
      [rewrite andb_false_r|]; reflexivity.
  - intros Hm [H | H]; unfold calculateTicketPrice; rewrite Hm, H, Hf;
      [rewrite andb_false_r|]; reflexivity.
  - intros s l p d. unfold calculateTicketPrice, JS.field_or.
    cbn [with_inputs pricing_type signed_price lme_price payable_percent premium_discount].
    rewrite Hf. cbn [JS.truthy_field andb].
    rewrite !andb_false_r.
    destruct (pricing_type t) as [[ | | ]|]; repeat split; reflexivity.
Qed.

Lemma C10_zero_input_is_missing_input_witness :
  (0 # 1) == 0 /\
  calculateTicketPrice Samples.index_flat = 0.
Proof.
  split; [reflexivity|].
  apply (proj1 (C10_zero_input_is_missing_input Samples.index_flat (0 # 1) (Qeq_refl 0)));
    [reflexivity | left; reflexivity].
Defined.

End Pricing.

(* ================================================================== *)
(** ** Allocation Engine *)

Section Allocation.

Import PriceFixingDialog.

Variable fails : nat -> bool.
Variable now : string.

(** *** Requests *)

Lemma request_answered {A} (apply : store -> A * store) (w : world) :
  fails (sent w) = false ->
  request fails apply w
  = (Ok (fst (apply (db w))), {| db := snd (apply (db w)); sent := S (sent w) |}).
Proof.
  intro H. unfold request. rewrite H. now destruct (apply (db w)).
Qed.

Lemma request_refused {A} (apply : store -> A * store) (w : world) :
  fails (sent w) = true ->
  request fails apply w
  = (Throw (StoreError (sent w)), {| db := db w; sent := S (sent w) |}).
Proof.
  intro H. unfold request. now rewrite H.
Qed.

Lemma alloc_of_positive (a : Q) : 0 < a -> alloc_of (Some a) = JS.Fin a.
Proof.
  intro H. unfold alloc_of, JS.or. simpl.
  assert (E : Qeq_bool a 0 = false).
  { apply Qeq_bool_false_iff. intro E. rewrite E in H. discriminate H. }
  now rewrite E.
Qed.

(** *** The update of one hedge execution *)

Lemma hedge_update_fields (hedge : HedgeExecution) (a : Q) (price : JS.number) :
  let o := openQty hedge in
  let u := hedge_update hedge (JS.Fin a) price now in
  (exists m, new_open_quantity_mt u = JS.Fin m /\ m == Qmax 0 (o - a)) /\
  (new_status u = CLOSED <-> o - a <= 0) /\
  (new_status u = PARTIALLY_CLOSED <-> ~ o - a <= 0) /\
  (o - a <= 0 -> new_closed_price u = Some price /\ new_closed_at u = Some now) /\
  (~ o - a <= 0 -> new_closed_price u = None /\ new_closed_at u = None).
Proof.
  intros o u. subst u. unfold hedge_update. fold o.
  change (JS.sub (JS.Fin o) (JS.Fin a)) with (JS.Fin (o - a)).
  cbn [new_open_quantity_mt new_status new_closed_price new_closed_at JS.le JS.max].
  destruct (Qle_bool (o - a) 0) eqn:Hle.
  - apply Qle_bool_iff in Hle.
    split.
    + destruct (Qle_bool 0 (o - a)) eqn:H0.
      * apply Qle_bool_iff in H0. exists (o - a). split; [reflexivity|].
        rewrite Q.max_r by exact H0. reflexivity.
      * exists 0. split; [reflexivity|]. now rewrite Q.max_l.
    + repeat split; intros; auto; try discriminate; try contradiction.
  - apply Qle_bool_false_iff in Hle.
    assert (Hn : ~ o - a <= 0) by (apply Qlt_not_le; exact Hle).
    split.
    + assert (H0 : Qle_bool 0 (o - a) = true) by (apply Qle_bool_iff, Qlt_le_weak, Hle).
      rewrite H0. exists (o - a). split; [reflexivity|].
      rewrite Q.max_r by (apply Qlt_le_weak, Hle). reflexivity.
    + repeat split; intros; auto; try discriminate; try contradiction.
Qed.

Lemma compute_link_id_pure (d : dialog) (w : world) :
  snd (compute_link_id d w) = w.
Proof.
  unfold compute_link_id. destruct (dlg_level d); [reflexivity|].
  destruct (blOrderId d); reflexivity.
Qed.

(** A completed loop body for a listed hedge with a positive allocation
    has sent the link insert and then the update. *)
Lemma allocate_hedge_completed (d : dialog) (fixingData : PricingFixing)
  (hedgeId : string) (hedge : HedgeExecution) (a : Q) (w w' : world) :
  allocation_text d hedgeId = Some a -> 0 < a ->
  find_hedge d hedgeId = Some hedge ->
  allocate_hedge fails now d fixingData hedgeId w = (Ok tt, w') ->
  hedge_execution (db w')
  = map (fun h =>
           if String.eqb (id h) hedgeId
           then apply_update
                  (hedge_update hedge (JS.Fin a) (JS.parseFloat (fixingPrice d)) now) h
           else h)
        (hedge_execution (db w)).
Proof.
  intros Halloc Hpos Hfind Hrun.
  unfold allocate_hedge in Hrun.
  rewrite Halloc, (alloc_of_positive a Hpos), Hfind in Hrun.
  assert (Hle : JS.le (JS.Fin a) (JS.Fin 0) = false).
  { simpl. apply Qle_bool_false_iff. exact Hpos. }
  rewrite Hle in Hrun. unfold bind in Hrun.
  pose proof (compute_link_id_pure d w) as Hpure.
  destruct (compute_link_id d w) as [[linkId | e] w1]; [|discriminate Hrun].
  simpl in Hpure. subst w1.
  unfold request in Hrun at 1.
  destruct (fails (sent w)); [discriminate Hrun|].
  cbn [insert_hedge_link] in Hrun.
  unfold request in Hrun. cbn [sent db] in Hrun.
  destruct (fails (S (sent w))); [discriminate Hrun|].
  cbn [update_hedge_execution] in Hrun.
  inversion Hrun; subst w'. reflexivity.
Qed.

(** *** The commit writes a prefix of its requests *)

Lemma for_of_cons {A} (x : A) (rest : list A) (body : A -> M unit) (w : world) :
  for_of (x :: rest) body w
  = match body x w with
    | (Ok _, w1) => for_of rest body w1
    | (Throw e, w1) => (Throw e, w1)
    end.
Proof. reflexivity. Qed.

Lemma commit_prefix_start (fixingData : PricingFixing) (s : store) :
  Specification.commit_prefix fixingData s
    {| pricing_fixing := pricing_fixing s ++ [fixingData];
       hedge_link := hedge_link s;
       hedge_execution := hedge_execution s |}.
Proof.
  split; [reflexivity|]. exists []. cbn.
  split; [now rewrite app_nil_r|].
  split; [intros l []|]. intros h Hh. now left.
Qed.

Lemma commit_prefix_link (fixingData : PricingFixing) (s0 s : store) (l : HedgeLink) :
  fixing_id l = fixing_row_id fixingData ->
  Specification.commit_prefix fixingData s0 s ->
  Specification.commit_prefix fixingData s0 (snd (insert_hedge_link l s)).
Proof.
  intros Hid [Hfix [links [Hlinks [Hids Hcover]]]].
  split; [exact Hfix|]. exists (links ++ [l]). cbn.
  split; [rewrite Hlinks; now rewrite app_assoc|].
  split.
  - intros l' Hin. apply in_app_or in Hin. destruct Hin as [Hin | [<- | []]]; auto.
  - intros h Hh. destruct (Hcover h Hh) as [Hold | [l' [Hin Hl']]]; [now left|].
    right. exists l'. split; [apply in_or_app; now left | exact Hl'].
Qed.

Lemma commit_prefix_update (fixingData : PricingFixing) (s0 s : store)
  (l : HedgeLink) (u : HedgeUpdate) :
  fixing_id l = fixing_row_id fixingData ->
  Specification.commit_prefix fixingData s0 s ->
  Specification.commit_prefix fixingData s0
    (snd (update_hedge_execution u (hedge_execution_id l)
            (snd (insert_hedge_link l s)))).
Proof.
  intros Hid Hpre.
  destruct (commit_prefix_link fixingData s0 s l Hid Hpre)
    as [Hfix [links [Hlinks [Hids Hcover]]]].
  assert (Hlast : In l links).
  { destruct Hpre as [_ [links0 [Hlinks0 _]]]. cbn in Hlinks.
    rewrite Hlinks0, <- app_assoc in Hlinks. apply app_inv_head in Hlinks.
    rewrite <- Hlinks. apply in_or_app. right. now left. }
  split; [exact Hfix|]. exists links. cbn.
  split; [exact Hlinks|]. split; [exact Hids|].
  intros h Hh. apply in_map_iff in Hh. destruct Hh as [h0 [Hh Hin]].
  destruct (String.eqb (id h0) (hedge_execution_id l)) eqn:Heq.
  - right. exists l. split; [exact Hlast|].
    subst h. cbn. apply String.eqb_eq in Heq. now symmetry.
  - subst h. apply (Hcover h0). exact Hin.
Qed.

Lemma allocate_hedge_prefix (d : dialog) (fixingData : PricingFixing)
  (hedgeId : string) (s0 : store) (w : world) :
  Specification.commit_prefix fixingData s0 (db w) ->
  Specification.commit_prefix fixingData s0
    (db (snd (allocate_hedge fails now d fixingData hedgeId w))).
Proof.
  intro Hpre. unfold allocate_hedge.
  destruct (JS.le _ _); [exact Hpre|].
  destruct (find_hedge d hedgeId) as [hedge|]; [|exact Hpre].
  unfold bind.
  pose proof (compute_link_id_pure d w) as Hpure.
  destruct (compute_link_id d w) as [[linkId | e] w1]; simpl in Hpure; subst w1;
    [|exact Hpre].
  unfold request at 1.
  destruct (fails (sent w)); [exact Hpre|].
  match goal with
  | |- context [insert_hedge_link ?row (db w)] => set (l := row)
  end.
  cbn [insert_hedge_link]. unfold request. cbn [sent db].
  destruct (fails (S (sent w))).
  - apply (commit_prefix_link fixingData s0 (db w) l eq_refl Hpre).
  - apply (commit_prefix_update fixingData s0 (db w) l _ eq_refl Hpre).
Qed.

Lemma for_of_prefix (d : dialog) (fixingData : PricingFixing) (s0 : store)
  (ids : list string) (w : world) :
  Specification.commit_prefix fixingData s0 (db w) ->
  Specification.commit_prefix fixingData s0
    (db (snd (for_of ids (allocate_hedge fails now d fixingData) w))).
Proof.
  revert w. induction ids as [|hedgeId ids IH]; intros w Hpre; [exact Hpre|].
  rewrite for_of_cons.
  pose proof (allocate_hedge_prefix d fixingData hedgeId s0 w Hpre) as Hstep.
  destruct (allocate_hedge fails now d fixingData hedgeId w) as [[[] | e] w1].
  - apply IH. exact Hstep.
  - exact Hstep.
Qed.

(** C1 (amended).  The commit is not atomic: its requests are sent one
    after another and the first one that fails ends it, nothing being
    undone.  If the [pricing_fixing] insert fails, no table is changed.  If
    it succeeds, then however the commit ends (also with a failure) the
    fixing row stays in the store, the hedge links added all carry its id,
    and every hedge execution that was changed has one of these links: a
    hedge execution is never updated without its link. *)
Theorem C1_commit_keeps_written_prefix (d : dialog) (w : world) :
  (fails (sent w) = true ->
   fixingMutation fails now d w
   = (Throw (StoreError (sent w)), {| db := db w; sent := S (sent w) |})) /\
  (fails (sent w) = false ->
   let fixingData := fixing_row d (next_fixing_id (db w)) in
   Specification.commit_prefix fixingData (db w)
     (db (snd (fixingMutation fails now d w))) /\
   (forall fd w', fixingMutation fails now d w = (Ok fd, w') -> fd = fixingData)).
Proof.
  split; intro Hf.
  - unfold fixingMutation, bind. now rewrite request_refused.
  - intro fixingData. unfold fixingMutation, bind.
    rewrite request_answered by exact Hf.
    cbn [insert_pricing_fixing fst snd]. fold fixingData.
    set (w1 := {| db := _; sent := S (sent w) |}).
    assert (Hstart : Specification.commit_prefix fixingData (db w) (db w1))
      by apply commit_prefix_start.
    pose proof (for_of_prefix d fixingData (db w) (selectedIds d) w1 Hstart) as Hloop.
    destruct (for_of (selectedIds d) (allocate_hedge fails now d fixingData) w1)
      as [[[] | e] w2]; cbn [snd] in Hloop |- *.
    + split; [exact Hloop|]. intros fd w' H. inversion H. reflexivity.
    + split; [exact Hloop|]. intros fd w' H. discriminate H.
Qed.

End Allocation.

(** The first hedge-link insert of a commit fails: the commit ends with the
    error, and the fixing row stays in the store with no link. *)
Lemma C1_counterexample_fixing_without_links :
  let run := PriceFixingDialog.fixingMutation Samples.link_insert_fails "t1"
               Samples.fix_15 Samples.world0 in
  fst run = PriceFixingDialog.Throw (PriceFixingDialog.StoreError 1) /\
  PriceFixingDialog.pricing_fixing (PriceFixingDialog.db (snd run))
  = [Samples.fixing_0] /\
  PriceFixingDialog.hedge_link (PriceFixingDialog.db (snd run)) = [] /\
  PriceFixingDialog.db (snd run) <> PriceFixingDialog.db Samples.world0.
Proof.
  cbv zeta. repeat split; try reflexivity.
  intro H. apply (f_equal PriceFixingDialog.pricing_fixing) in H.
  vm_compute in H. discriminate H.
Qed.

(** The same run seen through the amended statement: the fixing row is
    kept although the commit failed. *)
Lemma C1_commit_keeps_written_prefix_witness :
  Specification.commit_prefix Samples.fixing_0
    (PriceFixingDialog.db Samples.world0)
    (PriceFixingDialog.db
       (snd (PriceFixingDialog.fixingMutation Samples.link_insert_fails "t1"
               Samples.fix_15 Samples.world0))).
Proof.
  exact (proj1 (proj2 (C1_commit_keeps_written_prefix Samples.link_insert_fails "t1"
                         Samples.fix_15 Samples.world0) eq_refl)).
Defined.

(** When the update fails after its link insert, the link stays and the
    hedge execution keeps its old open quantity. *)
Example update_failure_keeps_link :
  let run := PriceFixingDialog.fixingMutation Samples.update_fails "t1"
               Samples.fix_15 Samples.world0 in
  fst run = PriceFixingDialog.Throw (PriceFixingDialog.StoreError 2) /\
  map PriceFixingDialog.hedge_execution_id
      (PriceFixingDialog.hedge_link (PriceFixingDialog.db (snd run))) = ["H1"%string] /\
  PriceFixingDialog.hedge_execution (PriceFixingDialog.db (snd run))
  = PriceFixingDialog.hedge_execution (PriceFixingDialog.db Samples.world0).
Proof. cbv zeta. repeat split; reflexivity. Qed.

Section Commit.

Import PriceFixingDialog.

Variable fails : nat -> bool.
Variable now : string.

Lemma update_keeps_other_rows (u : HedgeUpdate) (hedgeId k : string) (s : store) :
  hedgeId <> k ->
  Specification.rows_of k (snd (update_hedge_execution u hedgeId s)) = Specification.rows_of k s.
Proof.
  intro Hne. unfold Specification.rows_of. cbn [update_hedge_execution snd hedge_execution].
  induction (hedge_execution s) as [|h l IH]; [reflexivity|].
  cbn [map filter]. rewrite IH.
  destruct (String.eqb (id h) hedgeId) eqn:E; [|reflexivity].
  apply String.eqb_eq in E. cbn [apply_update id].
  assert (Hk : String.eqb (id h) k = false) by (apply String.eqb_neq; congruence).
  now rewrite Hk.
Qed.

Lemma allocate_hedge_keeps_other_rows (d : dialog) (fixingData : PricingFixing)
  (hedgeId k : string) (w : world) :
  hedgeId <> k ->
  Specification.rows_of k (db (snd (allocate_hedge fails now d fixingData hedgeId w)))
  = Specification.rows_of k (db w).
Proof.
  intro Hne. unfold allocate_hedge.
  destruct (JS.le _ _); [reflexivity|].
  destruct (find_hedge d hedgeId) as [hedge|]; [|reflexivity].
  unfold bind.
  pose proof (compute_link_id_pure d w) as Hpure.
  destruct (compute_link_id d w) as [[linkId | e] w1]; simpl in Hpure; subst w1;
    [|reflexivity].
  unfold request at 1.
  destruct (fails (sent w)); [reflexivity|].
  cbn [insert_hedge_link]. unfold request. cbn [sent db].
  destruct (fails (S (sent w))); [reflexivity|].
  match goal with
  | |- context [update_hedge_execution ?u hedgeId ?s] =>
      pose proof (update_keeps_other_rows u hedgeId k s Hne) as Hkeep;
      destruct (update_hedge_execution u hedgeId s) as [a db']
  end.
  cbn [snd db] in Hkeep |- *. rewrite Hkeep. reflexivity.
Qed.

Lemma for_of_keeps_other_rows (d : dialog) (fixingData : PricingFixing)
  (ids : list string) (k : string) (w : world) :
  ~ In k ids ->
  Specification.rows_of k (db (snd (for_of ids (allocate_hedge fails now d fixingData) w)))
  = Specification.rows_of k (db w).
Proof.
  revert w. induction ids as [|hedgeId ids IH]; intros w Hnot; [reflexivity|].
  rewrite for_of_cons.
  assert (Hne : hedgeId <> k) by (intro E; apply Hnot; now left).
  pose proof (allocate_hedge_keeps_other_rows d fixingData hedgeId k w Hne) as Hstep.
  destruct (allocate_hedge fails now d fixingData hedgeId w) as [[[] | e] w1];
    cbn [snd] in Hstep |- *.
  - rewrite IH; [exact Hstep | intro H; apply Hnot; now right].
  - exact Hstep.
Qed.

Lemma for_of_split {A} (pre post : list A) (x : A) (body : A -> M unit) (w w' : world) :
  for_of (pre ++ x :: post) body w = (Ok tt, w') ->
  exists w1 w2,
    body x w1 = (Ok tt, w2) /\
    for_of post body w2 = (Ok tt, w') /\
    snd (for_of pre body w) = w1.
Proof.
  revert w. induction pre as [|y pre IH]; intros w H.
  - cbn [app] in H. rewrite for_of_cons in H.
    destruct (body x w) as [[[] | e] w2] eqn:E; [|discriminate H].
    exists w, w2. auto.
  - cbn [app] in H. rewrite for_of_cons in H |- *.
    destruct (body y w) as [[[] | e] w0]; [|discriminate H].
    apply IH. exact H.
Qed.

Lemma rows_of_in (k : string) (s : store) (h : HedgeExecution) :
  In h (Specification.rows_of k s) <-> In h (hedge_execution s) /\ id h = k.
Proof.
  unfold Specification.rows_of. rewrite filter_In. now rewrite String.eqb_eq.
Qed.

End Commit.

(* ================================================================== *)
(** ** Ticket Matching Optimizer *)

Section Optimizer.

Import OptimizeMatching.

(** *** Comparisons *)


(** *** The greedy scan *)

Lemma select_done (r : Q) (sorted : list priced) :
  r <= 0 -> select (JS.Fin r) sorted = ([], JS.Fin r).
Proof.
  intro H. destruct sorted as [|t rest]; [reflexivity|].
  simpl. apply Qle_bool_iff in H. now rewrite H.
Qed.

Lemma select_step (r : Q) (t : priced) (rest : list priced) :
  0 < r ->
  select (JS.Fin r) (t :: rest)
  = let allocQty := JS.min (JS.Fin r) (JS.Fin (Specification.offered (tk t))) in
    let (more, left) := select (JS.sub (JS.Fin r) allocQty) rest in
    ({| entry := t; allocQty := allocQty |} :: more, left).
Proof.
  intro H. cbn [select]. apply Qle_bool_false_iff in H.
  cbn [JS.le]. now rewrite H.
Qed.

Lemma min_finite (r x : Q) :
  JS.min (JS.Fin r) (JS.Fin x) = JS.Fin (if Qle_bool r x then r else x).
Proof. simpl. now destruct (Qle_bool r x). Qed.

(** *** Sorting *)

(** The sort orders its result: no element has to follow its successor. *)
Lemma insert_sorted (cmp : priced -> priced -> Q) (x : priced) (l : list priced) :
  (forall a b, 0 < cmp a b -> cmp b a <= 0) ->
  Sorted (fun a b => cmp a b <= 0) l ->
  Sorted (fun a b => cmp a b <= 0) (insert cmp x l).
Proof.
  intros Hanti Hl. induction Hl as [|y l Hl IH Hhd]; simpl.
  - repeat constructor.
  - destruct (JS.Qlt_bool 0 (cmp x y)) eqn:E.
    + apply Qlt_bool_iff in E. constructor; [exact IH|].
      destruct l as [|z l']; simpl.
      * constructor. now apply Hanti.
      * destruct (JS.Qlt_bool 0 (cmp x z)).
        -- constructor. now inversion Hhd.
        -- constructor. now apply Hanti.
    + apply Qlt_bool_false_iff in E.
      constructor; [now constructor | now constructor].
Qed.

Lemma sort_sorted (cmp : priced -> priced -> Q) (l : list priced) :
  (forall a b, 0 < cmp a b -> cmp b a <= 0) ->
  Sorted (fun a b => cmp a b <= 0) (sort cmp l).
Proof.
  intro Hanti. induction l as [|x l IH]; simpl; [constructor|].
  now apply insert_sorted.
Qed.

Lemma sort_ascending_sorted (l : list priced) :
  Sorted (fun a b => calculatedPrice a <= calculatedPrice b) (sort ascending l).
Proof.
  assert (H : Sorted (fun a b => ascending a b <= 0) (sort ascending l)).
  { apply sort_sorted. unfold ascending. intros a b Hab. lra. }
  induction H as [|x s Hs IH Hhd]; constructor; [exact IH|].
  destruct Hhd as [|y s' Hxy]; constructor. unfold ascending in Hxy. lra.
Qed.

Lemma sort_descending_sorted (l : list priced) :
  Sorted (fun a b => calculatedPrice b <= calculatedPrice a) (sort descending l).
Proof.
  assert (H : Sorted (fun a b => descending a b <= 0) (sort descending l)).
  { apply sort_sorted. unfold descending. intros a b Hab. lra. }
  induction H as [|x s Hs IH Hhd]; constructor; [exact IH|].
  destruct Hhd as [|y s' Hxy]; constructor. unfold descending in Hxy. lra.
Qed.

End Optimizer.

Section OptimizerOrders.

Import OptimizeMatching.

Variable fetch : side -> string -> response.
Variable random : Q.
Variable now : string.



(** *** What the scan selects *)

Lemma select_prefix (sorted : list priced) (r : JS.number)
  (sel : list selected) (left : JS.number) :
  select r sorted = (sel, left) ->
  exists rest, sorted = map entry sel ++ rest.
Proof.
  revert r sel left. induction sorted as [|t rest IH]; intros r sel left H.
  - inversion H; subst. exists []. reflexivity.
  - cbn [select] in H. destruct (JS.le r (JS.Fin 0)).
    + inversion H; subst. exists (t :: rest). reflexivity.
    + destruct (select _ rest) as [more left'] eqn:E.
      inversion H; subst. destruct (IH _ _ _ E) as [rest' Hrest].
      exists rest'. cbn. now rewrite <- Hrest.
Qed.

End OptimizerOrders.

(* ================================================================== *)
(** * Properties over binary64 numbers *)

Set Warnings "-inexact-float".

(** ** Order and finiteness of binary64 numbers *)

(** Writes the two orientations of a comparison with one of them. *)
Ltac norm_compare :=
  repeat match goal with
         | |- context [(?a ?= ?b)%Z] =>
             match goal with
             | |- context [(b ?= a)%Z] => rewrite (Z.compare_antisym a b)
             end
         end;
  repeat match goal with
         | |- context [Pos.compare_cont Eq ?a ?b] =>
             match goal with
             | |- context [Pos.compare_cont Eq b a] =>
                 change (Pos.compare_cont Eq b a) with (Pos.compare b a);
                 rewrite (Pos.compare_antisym a b);
                 change (Pos.compare a b) with (Pos.compare_cont Eq a b)
             end
         end.

(** Case analysis on the signs and comparisons of two binary numbers. *)
Ltac spec_cases :=
  repeat match goal with
         | s : bool |- _ => destruct s
         end;
  cbn; norm_compare;
  repeat match goal with
         | |- context [(?a ?= ?b)%Z] => destruct (a ?= b)%Z
         end;
  cbn;
  repeat match goal with
         | |- context [Pos.compare_cont Eq ?a ?b] => destruct (Pos.compare_cont Eq a b)
         end;
  cbn; intros; repeat split; try congruence; try discriminate.

Section FloatOrder.

Import PrimFloat SpecFloat FloatOps FloatAxioms.
Local Open Scope float_scope.

Lemma SFcompare_antisym (x y : spec_float) :
  SFcompare y x = option_map CompOpp (SFcompare x y).
Proof.
  destruct x as [sx|sx| |sx mx ex], y as [sy|sy| |sy my ey]; cbn;
    try reflexivity; try (destruct sx, sy; reflexivity);
    try (destruct sx; reflexivity); try (destruct sy; reflexivity).
  destruct sx, sy; cbn; try reflexivity;
    rewrite (Z.compare_antisym ey ex);
    destruct (ey ?= ex)%Z; cbn; try reflexivity;
    change (Pos.compare_cont Eq mx my) with (Pos.compare mx my);
    change (Pos.compare_cont Eq my mx) with (Pos.compare my mx);
    rewrite (Pos.compare_antisym my mx); destruct (my ?= mx)%positive; reflexivity.
Qed.

Lemma SFcompare_refl (x : spec_float) :
  x <> S754_nan -> SFcompare x x = Some Eq.
Proof.
  destruct x as [s|s| |s m e]; cbn; intro H; try reflexivity; try contradiction.
  - destruct s; reflexivity.
  - destruct s; rewrite Z.compare_refl, Pos.compare_cont_refl; reflexivity.
Qed.

Lemma is_nan_spec (x : float) : is_nan x = true <-> Prim2SF x = S754_nan.
Proof.
  unfold is_nan. rewrite eqb_spec. unfold SFeqb.
  destruct (Prim2SF x) as [s|s| |s m e] eqn:E.
  - cbn. split; discriminate.
  - cbn. destruct s; split; discriminate.
  - cbn. split; reflexivity.
  - rewrite SFcompare_refl by discriminate. cbn. split; discriminate.
Qed.

Lemma not_nan_spec (x : float) : is_nan x = false <-> Prim2SF x <> S754_nan.
Proof.
  rewrite <- is_nan_spec. destruct (is_nan x); split; congruence.
Qed.

Lemma ltb_leb_false (x y : float) : (x <? y) = true -> (y <=? x) = false.
Proof.
  rewrite ltb_spec, leb_spec. unfold SFltb, SFleb.
  rewrite (SFcompare_antisym (Prim2SF x) (Prim2SF y)).
  destruct (SFcompare (Prim2SF x) (Prim2SF y)) as [[ | | ]|]; cbn; congruence.
Qed.


Lemma SFcompare_some (x y : spec_float) :
  x <> S754_nan -> y <> S754_nan -> exists c, SFcompare x y = Some c.
Proof.
  destruct x, y; cbn; intros Hx Hy; try contradiction; eauto.
Qed.

Lemma ltb_false_leb (x y : float) :
  is_nan x = false -> is_nan y = false -> (x <? y) = false -> (y <=? x) = true.
Proof.
  rewrite !not_nan_spec, ltb_spec, leb_spec. unfold SFltb, SFleb. intros Hx Hy.
  rewrite (SFcompare_antisym (Prim2SF x) (Prim2SF y)).
  destruct (SFcompare_some _ _ Hx Hy) as [c ->]. destruct c; cbn; congruence.
Qed.

Lemma leb_refl (x : float) : is_nan x = false -> (x <=? x) = true.
Proof.
  rewrite not_nan_spec, leb_spec. unfold SFleb. intro H.
  now rewrite SFcompare_refl.
Qed.

Lemma ltb_irrefl (x : float) : (x <? x) = false.
Proof.
  rewrite ltb_spec. unfold SFltb.
  destruct (Prim2SF x) as [s|s| |s m e]; cbn; try reflexivity.
  - now destruct s.
  - destruct s; rewrite Z.compare_refl, Pos.compare_cont_refl; reflexivity.
Qed.

Lemma ltb_not_nan (x y : float) :
  (x <? y) = true -> is_nan x = false /\ is_nan y = false.
Proof.
  rewrite !not_nan_spec, ltb_spec. unfold SFltb.
  destruct (Prim2SF x), (Prim2SF y); cbn; intro H; split; congruence.
Qed.


Lemma ltb_asym (x y : float) : (x <? y) = true -> (y <? x) = false.
Proof.
  rewrite !ltb_spec. unfold SFltb.
  rewrite (SFcompare_antisym (Prim2SF x) (Prim2SF y)).
  destruct (SFcompare (Prim2SF x) (Prim2SF y)) as [[ | | ]|]; cbn; congruence.
Qed.

Lemma ltb_leb (x y : float) : (x <? y) = true -> (x <=? y) = true.
Proof.
  rewrite ltb_spec, leb_spec. unfold SFltb, SFleb.
  destruct (SFcompare (Prim2SF x) (Prim2SF y)) as [[ | | ]|]; cbn; congruence.
Qed.

Lemma Prim2SF_zero : Prim2SF 0 = S754_zero false.
Proof. reflexivity. Qed.

Lemma Prim2SF_infinity : Prim2SF infinity = S754_infinity false.
Proof. reflexivity. Qed.

Lemma Prim2SF_nan : Prim2SF nan = S754_nan.
Proof. reflexivity. Qed.

Lemma is_finite_spec (x : float) : is_finite x = true <-> Double.finite_spec (Prim2SF x).
Proof.
  unfold is_finite. rewrite negb_true_iff, orb_false_iff.
  rewrite not_nan_spec. unfold is_infinity.
  rewrite eqb_spec, abs_spec, Prim2SF_infinity. unfold SFeqb.
  destruct (Prim2SF x) as [s|s| |s m e]; cbn; split; try tauto;
    try (intros [H1 H2]; congruence); try (intros _; split; congruence).
Qed.

(** *** Sums and differences of numbers are numbers *)

Lemma iter_pos_invariant {A} (P : A -> Prop) (f : A -> A) :
  (forall x, P x -> P (f x)) -> forall n x, P x -> P (iter_pos f n x).
Proof.
  intro Hf. induction n as [n IH|n IH|]; intros x Hx; cbn; auto.
Qed.

Lemma shr_1_nonneg (mrs : shr_record) :
  (0 <= shr_m mrs)%Z -> (0 <= shr_m (shr_1 mrs))%Z.
Proof.
  destruct mrs as [m r s]. cbn. intro H.
  destruct m as [|p|p]; cbn; [lia| |lia].
  destruct p; cbn; lia.
Qed.

Lemma shr_fexp_nonneg (m e : Z) (l : location) :
  (0 <= m)%Z -> (0 <= shr_m (fst (shr_fexp prec emax m e l)))%Z.
Proof.
  intro H. unfold shr_fexp, shr.
  assert (H0 : (0 <= shr_m (shr_record_of_loc m l))%Z)
    by (destruct l as [|[ | | ]]; exact H).
  destruct (fexp prec emax (Zdigits2 m + e) - e)%Z as [|p|p]; cbn [fst]; try exact H0.
  apply (iter_pos_invariant (fun mrs => (0 <= shr_m mrs)%Z)); [apply shr_1_nonneg | exact H0].
Qed.

Lemma round_nearest_even_nonneg (m : Z) (l : location) :
  (0 <= m)%Z -> (0 <= round_nearest_even m l)%Z.
Proof.
  intro H. destruct l as [|[ | | ]]; cbn; try lia. destruct (Z.even m); lia.
Qed.

Lemma binary_round_aux_not_nan (s : bool) (m e : Z) (l : location) :
  (0 <= m)%Z -> binary_round_aux prec emax s m e l <> S754_nan.
Proof.
  intro H. unfold binary_round_aux.
  pose proof (shr_fexp_nonneg m e l H) as H1.
  destruct (shr_fexp prec emax m e l) as [mrs' e']. cbn [fst] in H1.
  pose proof (shr_fexp_nonneg _ e' loc_Exact
                (round_nearest_even_nonneg _ (loc_of_shr_record mrs') H1)) as H2.
  destruct (shr_fexp prec emax _ e' loc_Exact) as [mrs'' e'']. cbn [fst] in H2.
  destruct (shr_m mrs'') as [|p|p]; [discriminate| |lia].
  destruct (e'' <=? emax - prec)%Z; discriminate.
Qed.

Lemma binary_normalize_not_nan (m e : Z) (szero : bool) :
  binary_normalize prec emax m e szero <> S754_nan.
Proof.
  unfold binary_normalize, binary_round.
  destruct m as [|p|p]; [discriminate| |];
    destruct (shl_align _ _ _) as [mz ez]; apply binary_round_aux_not_nan; lia.
Qed.




Lemma finite_not_nan (x : float) : is_finite x = true -> is_nan x = false.
Proof.
  unfold is_finite. rewrite negb_true_iff, orb_false_iff. tauto.
Qed.

(** *** A threshold and its opposite *)

Section Threshold.

Variable c : float.
Hypothesis Hc : (0 <? c) = true.




End Threshold.

End FloatOrder.

Section FloatMore.

Import PrimFloat SpecFloat FloatOps FloatAxioms.
Local Open Scope float_scope.


(** [0 / q] for a negative [q] is a zero. *)
Lemma zero_over_negative (q : float) : (q <? 0) = true -> is_nan (0 / q) = false.
Proof.
  rewrite not_nan_spec, ltb_spec, div_spec, Prim2SF_zero. unfold SFltb, SF64div, SFdiv.
  destruct (Prim2SF q) as [s|s| |s m e]; cbn; try discriminate.
Qed.

Lemma min_positive_zero (r : float) : (0 <? r) = true -> Double.min r 0 = 0.
Proof.
  intro H. unfold Double.min.
  destruct (ltb_not_nan _ _ H) as [_ Hr]. rewrite Hr, (ltb_asym _ _ H), H.
  reflexivity.
Qed.

Lemma min_not_nan (x y : float) :
  is_nan x = false -> is_nan y = false ->
  Double.min x y = x \/ Double.min x y = y.
Proof.
  intros Hx Hy. unfold Double.min. rewrite Hx, Hy. cbn [orb].
  destruct (x <? y); [now left|]. destruct (y <? x); [now right|].
  destruct (get_sign x); [now left | now right].
Qed.



Lemma or_finite (x d : float) :
  is_finite x = true -> is_finite d = true -> is_finite (Double.or x d) = true.
Proof.
  intros Hx Hd. unfold Double.or. now destruct (Double.truthy x).
Qed.

(** A finite price times the allocation 0 is a zero. *)
Lemma finite_times_zero (p : float) : is_finite p = true -> is_zero (p * 0) = true.
Proof.
  unfold is_zero. rewrite is_finite_spec, eqb_spec, mul_spec, Prim2SF_zero.
  unfold SF64mul, SFmul, SFeqb.
  destruct (Prim2SF p) as [s|s| |s m e]; cbn; try contradiction; reflexivity.
Qed.

Lemma sub_finite_not_nan (x y : float) :
  is_nan x = false -> is_finite y = true -> is_nan (x - y) = false.
Proof.
  rewrite !not_nan_spec, is_finite_spec, sub_spec. unfold SF64sub, SFsub.
  destruct (Prim2SF x) as [sx|sx| |sx mx ex], (Prim2SF y) as [sy|sy| |sy my ey];
    cbn [Double.finite_spec]; intros Hx Hy; try contradiction; try discriminate.
  - destruct sx, sy; discriminate.
  - apply binary_normalize_not_nan.
Qed.

(** The smaller of a positive number and a finite one is finite. *)
Lemma min_with_finite (r y : float) :
  (0 <? r) = true -> is_finite y = true -> is_finite (Double.min r y) = true.
Proof.
  intros Hr Hy.
  assert (Hcases : (r <? y) = true \/ (r <? y) = false /\ (y <? r) = false ->
                   is_finite r = true).
  { revert Hr Hy. rewrite !is_finite_spec, !ltb_spec, Prim2SF_zero. unfold SFltb.
    destruct (Prim2SF r) as [sr|sr| |sr mr er], (Prim2SF y) as [sy|sy| |sy my ey];
      cbn [Double.finite_spec]; try tauto; try discriminate; intros H0 _ [H | [H1 H2]];
      revert H0; try revert H; try revert H1 H2; spec_cases. }
  unfold Double.min.
  destruct (ltb_not_nan _ _ Hr) as [_ Hrn]. rewrite Hrn, (finite_not_nan _ Hy).
  cbn [orb].
  destruct (r <? y) eqn:E1; [apply Hcases; now left|].
  destruct (y <? r) eqn:E2; [exact Hy|].
  destruct (get_sign r); [apply Hcases; right; now split | exact Hy].
Qed.

End FloatMore.

(** ** Magnitude of rounded binary64 numbers *)

Section Magnitude.

Import PrimFloat SpecFloat FloatOps FloatAxioms.
Local Open Scope Z_scope.

Lemma fexp_eq (e : Z) : fexp prec emax e = Z.max (e - 53) (-1074).
Proof. reflexivity. Qed.

(** The number of binary digits of a positive number. *)
Lemma digits2_pos_bounds (m : positive) :
  2 ^ (Zpos (digits2_pos m) - 1) <= Zpos m < 2 ^ Zpos (digits2_pos m).
Proof.
  induction m as [m IH|m IH|]; cbn [digits2_pos].
  - rewrite Pos2Z.inj_succ.
    replace (Z.succ (Zpos (digits2_pos m)) - 1) with (Z.succ (Zpos (digits2_pos m) - 1)) by lia.
    rewrite !Z.pow_succ_r by lia. lia.
  - rewrite Pos2Z.inj_succ.
    replace (Z.succ (Zpos (digits2_pos m)) - 1) with (Z.succ (Zpos (digits2_pos m) - 1)) by lia.
    rewrite !Z.pow_succ_r by lia. lia.
  - cbn. lia.
Qed.

Lemma digits_at_least (m : positive) (k : Z) :
  0 <= k -> 2 ^ k <= Zpos m -> k + 1 <= Zpos (digits2_pos m).
Proof.
  intros Hk H. destruct (digits2_pos_bounds m) as [_ Hu].
  destruct (Z_lt_le_dec (Zpos (digits2_pos m)) (k + 1)) as [Hlt|]; [|assumption].
  exfalso. assert (2 ^ Zpos (digits2_pos m) <= 2 ^ k) by (apply Z.pow_le_mono_r; lia).
  lia.
Qed.

Lemma digits_at_most (m : positive) (k : Z) :
  Zpos m < 2 ^ k -> Zpos (digits2_pos m) <= k.
Proof.
  intro H. destruct (digits2_pos_bounds m) as [Hl _].
  destruct (Z_lt_le_dec k (Zpos (digits2_pos m))) as [Hlt|]; [|assumption].
  exfalso.
  assert (2 ^ k <= 2 ^ (Zpos (digits2_pos m) - 1)).
  { destruct (Z_lt_le_dec k 0) as [Hneg|Hpos].
    - rewrite (Z.pow_neg_r 2 k Hneg). apply Z.pow_nonneg. lia.
    - apply Z.pow_le_mono_r; lia. }
  lia.
Qed.

(** Shifting to the right. *)
Lemma shr_1_half (mrs : shr_record) :
  0 <= shr_m mrs -> shr_m (shr_1 mrs) = shr_m mrs / 2.
Proof.
  destruct mrs as [m r s]. cbn [shr_m]. intro H.
  destruct m as [|[p|p|]|p]; cbn [shr_1 shr_m]; try lia; try reflexivity.
  - apply (Z.div_unique _ 2 _ 1); lia.
  - apply (Z.div_unique _ 2 _ 0); lia.
Qed.

Lemma pow2_xI (p : positive) : 2 ^ Zpos p~1 = 2 * 2 ^ Zpos p * 2 ^ Zpos p.
Proof.
  rewrite (Pos2Z.inj_xI p).
  replace (2 * Zpos p + 1) with (1 + Zpos p + Zpos p) by lia.
  rewrite !Z.pow_add_r by lia. reflexivity.
Qed.

Lemma pow2_xO (p : positive) : 2 ^ Zpos p~0 = 2 ^ Zpos p * 2 ^ Zpos p.
Proof.
  rewrite (Pos2Z.inj_xO p).
  replace (2 * Zpos p) with (Zpos p + Zpos p) by lia.
  rewrite !Z.pow_add_r by lia. reflexivity.
Qed.

Lemma shr_iter (p : positive) (mrs : shr_record) :
  0 <= shr_m mrs ->
  shr_m (iter_pos shr_1 p mrs) = shr_m mrs / 2 ^ Zpos p.
Proof.
  revert mrs. induction p as [p IH|p IH|]; intros mrs H; cbn [iter_pos].
  - assert (Hp : 0 < 2 ^ Zpos p) by (apply Z.pow_pos_nonneg; lia).
    assert (H1 : 0 <= shr_m (shr_1 mrs)) by (rewrite shr_1_half by lia; apply Z.div_pos; lia).
    assert (H2 : 0 <= shr_m (iter_pos shr_1 p (shr_1 mrs)))
      by (rewrite IH by lia; apply Z.div_pos; lia).
    rewrite IH, IH, shr_1_half by lia.
    rewrite pow2_xI, !Z.div_div by lia. f_equal. lia.
  - assert (Hp : 0 < 2 ^ Zpos p) by (apply Z.pow_pos_nonneg; lia).
    assert (H2 : 0 <= shr_m (iter_pos shr_1 p mrs))
      by (rewrite IH by lia; apply Z.div_pos; lia).
    rewrite IH, IH by lia.
    rewrite pow2_xO, !Z.div_div by lia. f_equal.
  - rewrite shr_1_half by lia. reflexivity.
Qed.

(** The digits of a shifted number. *)
Lemma digits_shifted (m : positive) (n : Z) :
  0 <= n -> n < Zpos (digits2_pos m) ->
  exists m', Zpos m / 2 ^ n = Zpos m' /\ Zpos (digits2_pos m') = Zpos (digits2_pos m) - n.
Proof.
  intros Hn Hlt. destruct (digits2_pos_bounds m) as [Hl Hu].
  set (d := Zpos (digits2_pos m)) in *.
  assert (Hp : 0 < 2 ^ n) by (apply Z.pow_pos_nonneg; lia).
  assert (Hlow : 2 ^ (d - 1 - n) <= Zpos m / 2 ^ n).
  { apply Z.div_le_lower_bound; [exact Hp|].
    rewrite <- Z.pow_add_r by lia. replace (n + (d - 1 - n)) with (d - 1) by lia. exact Hl. }
  assert (Hup : Zpos m / 2 ^ n < 2 ^ (d - n)).
  { apply Z.div_lt_upper_bound; [exact Hp|].
    rewrite <- Z.pow_add_r by lia. replace (n + (d - n)) with d by lia. exact Hu. }
  assert (H0 : 0 < 2 ^ (d - 1 - n)) by (apply Z.pow_pos_nonneg; lia).
  destruct (Zpos m / 2 ^ n) as [|m'|m'] eqn:E; try lia.
  exists m'. split; [reflexivity|].
  pose proof (digits_at_least m' (d - 1 - n) ltac:(lia) Hlow).
  pose proof (digits_at_most m' (d - n) Hup). lia.
Qed.

Lemma shr_positive (m : positive) (r s : bool) (e n : Z) :
  n < Zpos (digits2_pos m) ->
  exists m' r' s',
    shr {| shr_m := Zpos m; shr_r := r; shr_s := s |} e n
    = ({| shr_m := Zpos m'; shr_r := r'; shr_s := s' |}, e + Z.max n 0) /\
    Zpos (digits2_pos m') = Zpos (digits2_pos m) - Z.max n 0.
Proof.
  intro H. destruct n as [|p|p]; cbn [shr].
  - exists m, r, s. split; [f_equal; lia | lia].
  - destruct (digits_shifted m (Zpos p) ltac:(lia) H) as [m' [Hm Hd]].
    pose proof (shr_iter p {| shr_m := Zpos m; shr_r := r; shr_s := s |} ltac:(cbn; lia)) as Hs.
    cbn [shr_m] in Hs. rewrite Hm in Hs.
    destruct (iter_pos shr_1 p _) as [m1 r1 s1]. cbn [shr_m] in Hs. subst m1.
    exists m', r1, s1. split; [f_equal; lia | lia].
  - exists m, r, s. split; [f_equal; lia | lia].
Qed.

Lemma round_nearest_even_digits (m : positive) (l : location) :
  exists m', round_nearest_even (Zpos m) l = Zpos m' /\
             Zpos (digits2_pos m) <= Zpos (digits2_pos m').
Proof.
  assert (Hsucc : Zpos (digits2_pos m) <= Zpos (digits2_pos (m + 1))).
  { destruct (digits2_pos_bounds m) as [Hl _].
    pose proof (digits_at_least (m + 1) (Zpos (digits2_pos m) - 1) ltac:(lia) ltac:(lia)).
    lia. }
  destruct l as [|[ | | ]]; cbn [round_nearest_even].
  - exists m. split; [reflexivity | lia].
  - destruct (Z.even (Zpos m)).
    + exists m. split; [reflexivity | lia].
    + exists (m + 1)%positive. split; [reflexivity | exact Hsucc].
  - exists m. split; [reflexivity | lia].
  - exists (m + 1)%positive. split; [reflexivity | exact Hsucc].
Qed.

(** Rounding a positive number whose magnitude is above the smallest
    exponent gives a number of the same sign that is not zero and whose
    magnitude is not smaller. *)
Lemma round_keeps_magnitude (s : bool) (m : positive) (e : Z) (l : location) :
  -1074 < Zpos (digits2_pos m) + e ->
  match binary_round_aux prec emax s (Zpos m) e l with
  | S754_finite s' m' e' =>
      s' = s /\ Zpos (digits2_pos m) + e <= Zpos (digits2_pos m') + e'
  | S754_infinity s' => s' = s
  | _ => False
  end.
Proof.
  intro Hmu. unfold binary_round_aux, shr_fexp. cbn [Zdigits2]. rewrite fexp_eq.
  set (d := Zpos (digits2_pos m)) in *.
  set (n := Z.max (d + e - 53) (-1074) - e).
  assert (Hn : n < d) by (subst n; lia).
  assert (Hrec : exists r0 s0, shr_record_of_loc (Zpos m) l
                               = {| shr_m := Zpos m; shr_r := r0; shr_s := s0 |})
    by (destruct l as [|[ | | ]]; cbn; eauto).
  destruct Hrec as [r0 [s0 ->]].
  destruct (shr_positive m r0 s0 e n Hn) as [m1 [r1 [s1 [-> Hd1]]]].
  destruct (round_nearest_even_digits m1 (loc_of_shr_record
              {| shr_m := Zpos m1; shr_r := r1; shr_s := s1 |})) as [m2 [Hm2 Hd2]].
  cbn [shr_m]. rewrite Hm2. cbn [Zdigits2 shr_record_of_loc]. rewrite fexp_eq.
  set (d2 := Zpos (digits2_pos m2)) in *.
  set (e1 := e + Z.max n 0).
  set (n2 := Z.max (d2 + e1 - 53) (-1074) - e1).
  assert (Hn2 : n2 < d2) by (subst n2 e1 n; lia).
  destruct (shr_positive m2 false false e1 n2 Hn2) as [m3 [r3 [s3 [-> Hd3]]]].
  cbn [shr_m].
  destruct (e1 + Z.max n2 0 <=? emax - prec); [|reflexivity].
  split; [reflexivity|]. subst e1 n2 n. lia.
Qed.

(** Aligning a mantissa on a smaller exponent. *)
Lemma iter_xO_value (m d : positive) : Zpos (Pos.iter xO m d) = Zpos m * 2 ^ Zpos d.
Proof.
  change (Pos.iter xO m d) with (shift_pos d m). rewrite shift_pos_correct.
  change (Zpower_pos 2 d) with (2 ^ Zpos d). lia.
Qed.

Lemma digits_scaled (m m' : positive) (k : Z) :
  0 <= k -> Zpos m' = Zpos m * 2 ^ k ->
  Zpos (digits2_pos m') = Zpos (digits2_pos m) + k.
Proof.
  intros Hk E. destruct (digits2_pos_bounds m) as [Hl Hu].
  set (d := Zpos (digits2_pos m)) in *.
  assert (Hp : 0 < 2 ^ k) by (apply Z.pow_pos_nonneg; lia).
  assert (H1 : 2 ^ (d - 1 + k) <= Zpos m') by (rewrite Z.pow_add_r, E by lia; nia).
  assert (H2 : Zpos m' < 2 ^ (d + k)) by (rewrite Z.pow_add_r, E by lia; nia).
  pose proof (digits_at_least m' (d - 1 + k) ltac:(lia) H1).
  pose proof (digits_at_most m' (d + k) H2). lia.
Qed.

Lemma shl_align_value (mx : positive) (ex ex' : Z) :
  snd (shl_align mx ex ex') = Z.min ex ex' /\
  Zpos (fst (shl_align mx ex ex')) = Zpos mx * 2 ^ (ex - Z.min ex ex').
Proof.
  unfold shl_align. destruct (ex' - ex) as [|d|d] eqn:E; cbn [fst snd].
  - split; [lia|]. replace (ex - Z.min ex ex') with 0 by lia. cbn. lia.
  - split; [lia|]. replace (ex - Z.min ex ex') with 0 by lia. cbn. lia.
  - split; [lia|]. rewrite iter_xO_value. f_equal. f_equal. lia.
Qed.

Lemma shl_align_digits (mx : positive) (ex ex' : Z) :
  Zpos (digits2_pos (fst (shl_align mx ex ex'))) + snd (shl_align mx ex ex')
  = Zpos (digits2_pos mx) + ex.
Proof.
  destruct (shl_align_value mx ex ex') as [He Hm].
  rewrite (digits_scaled mx _ (ex - Z.min ex ex') ltac:(lia) Hm). lia.
Qed.

(** The mantissa and the exponent of a finite binary64 number. *)
Lemma valid_finite (s : bool) (m : positive) (e : Z) :
  SpecFloat.valid_binary prec emax (S754_finite s m e) = true ->
  Zpos (digits2_pos m) <= 53 /\ -1074 <= e /\
  (-1074 < e -> Zpos (digits2_pos m) = 53).
Proof.
  cbn [SpecFloat.valid_binary]. unfold bounded, canonical_mantissa. rewrite fexp_eq.
  intro H. apply andb_true_iff in H. destruct H as [H _].
  apply Z.eqb_eq in H. lia.
Qed.

(** Subtracting a smaller positive number leaves a positive number, at
    least one unit of the smaller number's exponent. *)
Lemma sub_magnitude (x : spec_float) (my : positive) (ey : Z) :
  SpecFloat.valid_binary prec emax x = true ->
  SpecFloat.valid_binary prec emax (S754_finite false my ey) = true ->
  SFcompare (S754_finite false my ey) x = Some Lt ->
  match SFsub prec emax x (S754_finite false my ey) with
  | S754_finite s m e => s = false /\ ey + 1 <= Zpos (digits2_pos m) + e
  | S754_infinity s => s = false
  | _ => False
  end.
Proof.
  intros Hx Hy Hlt.
  destruct (valid_finite _ _ _ Hy) as [Hdy [Hey _]].
  destruct x as [sx|sx| |sx mx ex]; cbn [SFcompare] in Hlt; try discriminate Hlt.
  - destruct sx; [discriminate Hlt | reflexivity].
  - destruct sx; [discriminate Hlt|].
    destruct (valid_finite _ _ _ Hx) as [Hdx [Hex Hnormal]].
    assert (Horder : ey < ex \/ (ey = ex /\ Zpos my < Zpos mx)).
    { destruct (ey ?= ex) eqn:E.
      - right. apply Z.compare_eq in E. split; [exact E|].
        change (Pos.compare_cont Eq my mx) with (Pos.compare my mx) in Hlt.
        destruct (Pos.compare my mx) eqn:Ec; try discriminate Hlt.
        pose proof (proj1 (Pos.compare_lt_iff my mx) Ec). lia.
      - left. now apply Z.compare_lt_iff.
      - discriminate Hlt. }
    cbn [SFsub cond_Zopp].
    assert (Hmin : Z.min ex ey = ey) by lia. rewrite Hmin.
    destruct (shl_align_value mx ex ey) as [_ Hmx].
    destruct (shl_align_value my ey ey) as [_ Hmy].
    rewrite Hmin in Hmx. rewrite Z.min_id, Z.sub_diag in Hmy. cbn [Z.pow] in Hmy.
    rewrite Hmx, Hmy.
    destruct (digits2_pos_bounds mx) as [Hlx _].
    destruct (digits2_pos_bounds my) as [_ Huy].
    assert (Hpos : 0 < Zpos mx * 2 ^ (ex - ey) - Zpos my * 1).
    { destruct Horder as [Hl | [He Hm]].
      - assert (Hd : Zpos (digits2_pos mx) = 53) by (apply Hnormal; lia).
        rewrite Hd in Hlx. cbn in Hlx.
        assert (Hy53 : Zpos my < 2 ^ 53).
        { eapply Z.lt_le_trans; [exact Huy|]. apply Z.pow_le_mono_r; lia. }
        assert (H2 : 2 ^ 1 <= 2 ^ (ex - ey)) by (apply Z.pow_le_mono_r; lia).
        change (2 ^ 1) with 2 in H2. change (2 ^ 53) with 9007199254740992 in Hy53.
        nia.
      - subst ex. rewrite Z.sub_diag. cbn [Z.pow]. lia. }
    destruct (Zpos mx * 2 ^ (ex - ey) - Zpos my * 1) as [|z|z] eqn:Ez; try lia.
    cbn [binary_normalize]. unfold binary_round.
    pose proof (shl_align_digits z ey (fexp prec emax (Zpos (digits2_pos z) + ey))) as Hal.
    destruct (shl_align z ey _) as [mz ez]. cbn [fst snd] in Hal.
    pose proof (round_keeps_magnitude false mz ez loc_Exact ltac:(lia)) as Hr.
    destruct (binary_round_aux prec emax false (Zpos mz) ez loc_Exact)
      as [s'|s'| |s' m' e']; try exact Hr.
    destruct Hr as [Hs Hm]. split; [exact Hs | lia].
Qed.

(** Dividing such a difference by the smaller number gives a positive
    number. *)
Lemma div_positive (x : spec_float) (my : positive) (ey : Z) :
  SpecFloat.valid_binary prec emax (S754_finite false my ey) = true ->
  match x with
  | S754_finite s m e => s = false /\ ey + 1 <= Zpos (digits2_pos m) + e
  | S754_infinity s => s = false
  | _ => False
  end ->
  match SFdiv prec emax x (S754_finite false my ey) with
  | S754_finite s _ _ | S754_infinity s => s = false
  | _ => False
  end.
Proof.
  intros Hy Hx. destruct (valid_finite _ _ _ Hy) as [Hdy [Hey _]].
  destruct x as [sx|sx| |sx mx ex]; try contradiction.
  - subst sx. reflexivity.
  - destruct Hx as [-> Hmag]. cbn [SFdiv xorb]. unfold SFdiv_core_binary.
    cbn [Zdigits2]. rewrite fexp_eq.
    set (d1 := Zpos (digits2_pos mx)) in *. set (d2 := Zpos (digits2_pos my)) in *.
    set (e' := Z.min (Z.max (d1 + ex - (d2 + ey) - 53) (-1074)) (ex - ey)).
    set (s := ex - ey - e').
    assert (Hs : 0 <= s) by (subst s e'; lia).
    assert (Hm' : match s with
                  | Zpos _ => Z.shiftl (Zpos mx) s
                  | 0 => Zpos mx
                  | Zneg _ => 0
                  end = Zpos mx * 2 ^ s).
    { destruct s as [|p|p] eqn:Es; [cbn; lia | | lia].
      rewrite Z.shiftl_mul_pow2 by lia. reflexivity. }
    rewrite Hm'.
    destruct (Z.div_eucl (Zpos mx * 2 ^ s) (Zpos my)) as [q r] eqn:Ediv.
    assert (Hq : q = Zpos mx * 2 ^ s / Zpos my) by (unfold Z.div; now rewrite Ediv).
    set (k := d1 + ex - (d2 + ey) - 1 - e').
    assert (Hk : 52 <= k) by (subst k e'; lia).
    destruct (digits2_pos_bounds mx) as [Hlx _].
    destruct (digits2_pos_bounds my) as [_ Huy].
    fold d1 in Hlx. fold d2 in Huy.
    assert (Hlow : 2 ^ k <= q).
    { rewrite Hq. apply Z.div_le_lower_bound; [lia|].
      assert (Hps : 0 < 2 ^ s) by (apply Z.pow_pos_nonneg; lia).
      assert (Hpk : 0 < 2 ^ k) by (apply Z.pow_pos_nonneg; lia).
      assert (E : 2 ^ (d1 - 1) * 2 ^ s = 2 ^ d2 * 2 ^ k).
      { rewrite <- !Z.pow_add_r by lia. f_equal. subst k s. lia. }
      nia. }
    assert (H0 : 0 < 2 ^ k) by (apply Z.pow_pos_nonneg; lia).
    destruct q as [|qp|qp]; try lia.
    pose proof (digits_at_least qp k ltac:(lia) Hlow) as Hdq.
    pose proof (round_keeps_magnitude false qp e' (new_location (Zpos my) r)
                  ltac:(subst k e'; lia)) as Hr.
    destruct (binary_round_aux prec emax false (Zpos qp) e' (new_location (Zpos my) r))
      as [s'|s'| |s' m' e'']; try exact Hr.
    now destruct Hr.
Qed.

Local Open Scope float_scope.

(** With 0 < b < s, the quotient (s - b) / b is positive. *)
Lemma relative_difference_positive (b s : float) :
  (0 <? b) = true -> (b <? s) = true -> (0 <? (s - b) / b) = true.
Proof.
  rewrite !ltb_spec, div_spec, sub_spec, Prim2SF_zero. unfold SFltb, SF64div, SF64sub.
  pose proof (Prim2SF_valid b) as Hvb. pose proof (Prim2SF_valid s) as Hvs.
  intros H0 Hlt.
  destruct (SFcompare (Prim2SF b) (Prim2SF s)) as [[ | | ]|] eqn:Hc; try discriminate Hlt.
  clear Hlt.
  destruct (Prim2SF b) as [sb|sb| |sb mb eb]; cbn [SFcompare] in H0; try discriminate H0.
  - destruct sb; [discriminate H0|].
    destruct (Prim2SF s) as [ss|[|]| |ss ms es]; cbn [SFcompare] in Hc; discriminate Hc.
  - destruct sb; [discriminate H0|].
    pose proof (sub_magnitude _ mb eb Hvs Hvb Hc) as Hsub.
    pose proof (div_positive _ mb eb Hvb Hsub) as Hdiv.
    destruct (SFdiv prec emax _ _) as [sq|sq| |sq mq eq]; try contradiction;
      subst sq; reflexivity.
Qed.

End Magnitude.

(* ================================================================== *)
(** ** Ticket Matching Optimizer *)

Section Optimizer64.

Import PrimFloat SpecFloat FloatOps FloatAxioms.
Import Double Double.OptimizeMatching.
Local Open Scope float_scope.

Variable fetch : side -> string -> response.
Variable random : float.
Variable now : string.

Lemma no_order_in_message (reads : list event) (m : message) (o : order) :
  (forall e, In e reads -> exists ty c, e = SelectTickets ty c) ->
  ~ In (InsertOrder o) (reads ++ [ToastError m]).
Proof.
  intros Hreads Hin. apply in_app_or in Hin. destruct Hin as [Hin | [Hin | []]].
  - destruct (Hreads _ Hin) as [ty [c E]]. discriminate E.
  - discriminate Hin.
Qed.

Lemma reads_are_reads (c : string) (e : event) :
  In e [SelectTickets Buy c; SelectTickets Sell c] -> exists ty c', e = SelectTickets ty c'.
Proof. intros [<- | [<- | []]]; eauto. Qed.

Ltac message_only c :=
  apply (no_order_in_message [SelectTickets Buy c; SelectTickets Sell c]), reads_are_reads.

(** The run after both queries were answered. *)
Lemma handleOptimize_answered (c : string) (q : float) (buys sells : list ticket) :
  JS.truthy_string c = true ->
  fetch Buy c = {| data := Some buys; error := None |} ->
  fetch Sell c = {| data := Some sells; error := None |} ->
  handleOptimize c (Some q) fetch random now
  = [SelectTickets Buy c; SelectTickets Sell c] ++
    if (List.length buys =? 0)%nat || (List.length sells =? 0)%nat
    then [ToastError NoMatchingTickets]
    else
    let (selectedSells, remainingSell) :=
      select q (sort descending (map with_price sells)) in
    if gt remainingSell 0
    then [ToastError (NotEnoughSell q)]
    else
      let (selectedBuys, remainingBuy) :=
        select q (sort ascending (map with_price buys)) in
      if gt remainingBuy 0
      then [ToastError (NotEnoughBuy q)]
      else
        let avgBuyPrice := average selectedBuys q in
        let avgSellPrice := average selectedSells q in
        if ge avgBuyPrice avgSellPrice
        then [ToastError BuyExceedsSell]
        else
          [InsertOrder
             {| order_id := orderId random;
                buyer := join_ids selectedBuys;
                seller := join_ids selectedSells;
                order_commodity_type := c;
                order_metal_form := first_field metal_form selectedBuys;
                order_isri_grade := first_field isri_grade selectedBuys;
                allocated_quantity_mt := q;
                buy_price := avgBuyPrice;
                sell_price := avgSellPrice;
                margin := (avgSellPrice - avgBuyPrice) / avgBuyPrice;
                order_status := "Allocated";
                transaction_type := "B2B";
                order_ship_to := first_field ship_to selectedSells;
                order_ship_from := first_field ship_from selectedBuys;
                product_details :=
                  (JS.string_or (first_field incoterms selectedBuys) "—" ++ " / " ++
                   JS.string_or (first_field incoterms selectedSells) "—")%string;
                created_at := now |}].
Proof.
  intros Hc Hb Hs. unfold handleOptimize.
  rewrite Hc. cbn [negb orb truthy_text parseFloat].
  rewrite Hb, Hs. unfold has_error, data_or_empty. cbn [error data orb].
  reflexivity.
Qed.

(** The remainder of a scan is the target less the allocations, taken off
    one after the other. *)
Lemma select_remainder64 (sorted : list priced) (r : float) :
  snd (select r sorted)
  = fold_left (fun rem t => if rem <=? 0 then rem
                            else rem - min rem (field_or (quantity (tk t)) 0))
              sorted r.
Proof.
  revert r. induction sorted as [|t rest IH]; intro r; [reflexivity|].
  cbn [select fold_left]. destruct (r <=? 0) eqn:E.
  - cbn [snd]. clear IH. induction rest as [|t' rest IH]; [reflexivity|].
    cbn [fold_left]. now rewrite E.
  - rewrite <- IH. now destruct (select _ rest).
Qed.

Lemma select_done64 (r : float) (sorted : list priced) :
  (r <=? 0) = true -> select r sorted = ([], r).
Proof.
  intro H. destruct sorted as [|t rest]; [reflexivity|]. cbn [select]. now rewrite H.
Qed.

Lemma scan_done64 (r : float) (l : list priced) :
  (r <=? 0) = true ->
  fold_left (fun rem t => if rem <=? 0 then rem
                          else rem - min rem (field_or (quantity (tk t)) 0)) l r = r.
Proof.
  intro H. induction l as [|t l IH]; [reflexivity|]. cbn [fold_left]. now rewrite H.
Qed.

(** What a scan selects: a ticket reached with a remainder that is not
    used up is selected, at its place, with the smaller of that remainder
    and its quantity; a ticket reached with nothing left is not, nor is any
    ticket after it. *)
Lemma select_greedy64 (sorted : list priced) (r : float) :
  let take rem t :=
    if rem <=? 0 then rem else rem - min rem (field_or (quantity (tk t)) 0) in
  (List.length (fst (select r sorted)) <= List.length sorted)%nat /\
  forall pre t post, sorted = (pre ++ t :: post)%list ->
    if fold_left take pre r <=? 0
    then (List.length (fst (select r sorted)) <= List.length pre)%nat
    else exists s, nth_error (fst (select r sorted)) (List.length pre) = Some s /\
                   entry s = t /\
                   allocQty s = min (fold_left take pre r) (field_or (quantity (tk t)) 0).
Proof.
  intro take. revert r. induction sorted as [|x rest IH]; intro r.
  - split; [cbn; lia|]. intros [|p pre] t post H; discriminate H.
  - cbn [select]. destruct (r <=? 0) eqn:E.
    + cbn [fst List.length]. split; [lia|]. intros pre t post _.
      unfold take. rewrite (scan_done64 r pre E), E. lia.
    + set (a := min r (field_or (quantity (tk x)) 0)).
      destruct (IH (r - a)) as [Hlen Hrest].
      destruct (select (r - a) rest) as [more left]. cbn [fst] in *.
      split; [cbn [List.length]; lia|].
      intros [|p pre] t post H; cbn [app] in H; inversion H; subst.
      * cbn [fold_left List.length nth_error]. rewrite E.
        eexists. split; [reflexivity|]. split; reflexivity.
      * cbn [fold_left List.length nth_error].
        assert (Et : take r p = r - a) by (unfold take; now rewrite E).
        rewrite Et. specialize (Hrest pre t post eq_refl).
        destruct (fold_left take pre (r - a) <=? 0); [lia | exact Hrest].
Qed.

Lemma ltb_nan_right (x y : float) : is_nan y = true -> (x <? y) = false.
Proof.
  rewrite is_nan_spec, ltb_spec. intros ->. unfold SFltb.
  now destruct (Prim2SF x).
Qed.

Lemma ltb_nan_left (x y : float) : is_nan x = true -> (x <? y) = false.
Proof.
  rewrite is_nan_spec, ltb_spec. intros ->. reflexivity.
Qed.

Lemma div_nan (x q : float) : is_nan q = true -> is_nan (x / q) = true.
Proof.
  rewrite !is_nan_spec, div_spec. intros ->. unfold SF64div, SFdiv.
  now destruct (Prim2SF x).
Qed.

(** A covered target with a sell average above the buy average needs a
    ticket on each side. *)
Lemma covered_pools_nonempty (q : float) (buys sells : list ticket)
  (selectedSells selectedBuys : list selected) (remainingSell remainingBuy : float) :
  select q (sort descending (map with_price sells)) = (selectedSells, remainingSell) ->
  select q (sort ascending (map with_price buys)) = (selectedBuys, remainingBuy) ->
  (0 <? remainingSell) = false ->
  (0 <? remainingBuy) = false ->
  (average selectedBuys q <? average selectedSells q) = true ->
  buys <> [] /\ sells <> [].
Proof.
  intros Hsel Hbuy HcovS HcovB Hlt.
  assert (Hq : buys = [] \/ sells = [] -> (0 <? q) = false).
  { intros [-> | ->].
    - cbn in Hbuy. now inversion Hbuy; subst.
    - cbn in Hsel. now inversion Hsel; subst. }
  assert (Hnone : buys = [] \/ sells = [] -> False).
  { intro He. specialize (Hq He).
    destruct (is_nan q) eqn:Hnan.
    - unfold average in Hlt.
      rewrite (ltb_nan_right _ _ (div_nan _ q Hnan)) in Hlt. discriminate Hlt.
    - assert (Hle : (q <=? 0) = true) by (apply ltb_false_leb; [reflexivity | exact Hnan | exact Hq]).
      rewrite (select_done64 q _ Hle) in Hsel. rewrite (select_done64 q _ Hle) in Hbuy.
      inversion Hsel; inversion Hbuy; subst.
      rewrite ltb_irrefl in Hlt. discriminate Hlt. }
  split; intro E; apply Hnone; [now left | now right].
Qed.

Lemma order_of_selection (c : string) (q : float)
  (buys sells : list ticket)
  (selectedSells selectedBuys : list selected) (remainingSell remainingBuy : float)
  (Hc : JS.truthy_string c = true)
  (Hb : fetch Buy c = {| data := Some buys; error := None |})
  (Hs : fetch Sell c = {| data := Some sells; error := None |})
  (Hsel : select q (sort descending (map with_price sells))
          = (selectedSells, remainingSell))
  (Hbuy : select q (sort ascending (map with_price buys))
          = (selectedBuys, remainingBuy))
  (HcovS : (0 <? remainingSell) = false)
  (HcovB : (0 <? remainingBuy) = false) :
  let weighted sel :=
    fold_left (fun sum t => sum + calculateTicketPrice (tk (entry t)) * allocQty t) sel 0 in
  let avgBuy := weighted selectedBuys / q in
  let avgSell := weighted selectedSells / q in
  let trace := handleOptimize c (Some q) fetch random now in
  ((avgBuy <? avgSell) = true ->
   exists o,
     trace = [SelectTickets Buy c; SelectTickets Sell c; InsertOrder o] /\
     allocated_quantity_mt o = q /\
     buy_price o = avgBuy /\ sell_price o = avgSell /\
     margin o = (avgSell - avgBuy) / avgBuy /\
     ((0 <? avgBuy) = true -> (0 <? margin o) = true)) /\
  ((avgSell <=? avgBuy) = true -> forall o, ~ In (InsertOrder o) trace).
Proof.
  intros weighted avgBuy avgSell trace. subst trace.
  rewrite (handleOptimize_answered c q buys sells Hc Hb Hs).
  assert (Hab : average selectedBuys q = avgBuy) by reflexivity.
  assert (Has : average selectedSells q = avgSell) by reflexivity.
  split.
  - intro Hlt.
    assert (Hne : (List.length buys =? 0)%nat || (List.length sells =? 0)%nat = false).
    { destruct (covered_pools_nonempty q buys sells _ _ _ _ Hsel Hbuy HcovS HcovB Hlt)
        as [Hnb Hns].
      destruct buys; [congruence|]. destruct sells; [congruence | reflexivity]. }
    rewrite Hne, Hsel. unfold gt. rewrite HcovS, Hbuy, HcovB. cbv zeta.
    rewrite Hab, Has. unfold ge. rewrite (ltb_leb_false _ _ Hlt).
    eexists. split; [reflexivity|].
    cbn [allocated_quantity_mt buy_price sell_price margin].
    split; [reflexivity|]. split; [reflexivity|]. split; [reflexivity|].
    split; [reflexivity|].
    intro Hpos. now apply relative_difference_positive.
  - intros Hge o.
    destruct ((List.length buys =? 0)%nat || (List.length sells =? 0)%nat);
      [message_only c|].
    rewrite Hsel. unfold gt. rewrite HcovS, Hbuy, HcovB. cbv zeta.
    rewrite Hab, Has. unfold ge. rewrite Hge.
    message_only c.
Qed.

(** C3 (amended).  With the two ticket queries answered, the selection
    of a side is the greedy one: going through the price-sorted candidates
    with the target as first remainder, a ticket reached while the
    remainder is not used up is selected with the smaller of the remainder
    and its quantity, which is taken off the remainder; the first ticket
    reached with nothing left ends the scan.  Let avgBuy and avgSell be the
    quantity-weighted averages of the selected tickets' prices, divided by
    the target, each operation rounded to binary64 as the program computes
    it.  When both scans cover the target (neither leaves a positive
    remainder) and avgBuy < avgSell, the run reads the tickets and inserts
    exactly one order: its allocated quantity is the target, its prices
    are the two averages and its margin is the binary64 value of
    (avgSell - avgBuy) / avgBuy, which is > 0 when avgBuy > 0.  When both
    scans cover the target and avgSell <= avgBuy, the run inserts no
    order. *)
Theorem C3_order_for_covered_target (c : string) (q : float)
  (buys sells : list ticket)
  (Hc : JS.truthy_string c = true)
  (Hb : fetch Buy c = {| data := Some buys; error := None |})
  (Hs : fetch Sell c = {| data := Some sells; error := None |}) :
  let take rem t :=
    if rem <=? 0 then rem else rem - min rem (field_or (quantity (tk t)) 0) in
  let sortedSells := sort descending (map with_price sells) in
  let sortedBuys := sort ascending (map with_price buys) in
  let selectedSells := fst (select q sortedSells) in
  let selectedBuys := fst (select q sortedBuys) in
  let greedy (sorted : list priced) (sel : list selected) :=
    (List.length sel <= List.length sorted)%nat /\
    forall pre t post, sorted = (pre ++ t :: post)%list ->
      if fold_left take pre q <=? 0
      then (List.length sel <= List.length pre)%nat
      else exists s, nth_error sel (List.length pre) = Some s /\
                     entry s = t /\
                     allocQty s
                     = min (fold_left take pre q) (field_or (quantity (tk t)) 0) in
  let weighted sel :=
    fold_left (fun sum t => sum + calculateTicketPrice (tk (entry t)) * allocQty t) sel 0 in
  let avgBuy := weighted selectedBuys / q in
  let avgSell := weighted selectedSells / q in
  let trace := handleOptimize c (Some q) fetch random now in
  greedy sortedSells selectedSells /\
  greedy sortedBuys selectedBuys /\
  ((0 <? fold_left take sortedSells q) = false ->
   (0 <? fold_left take sortedBuys q) = false ->
   ((avgBuy <? avgSell) = true ->
    exists o,
      trace = [SelectTickets Buy c; SelectTickets Sell c; InsertOrder o] /\
      allocated_quantity_mt o = q /\
      buy_price o = avgBuy /\ sell_price o = avgSell /\
      margin o = (avgSell - avgBuy) / avgBuy /\
      ((0 <? avgBuy) = true -> (0 <? margin o) = true)) /\
   ((avgSell <=? avgBuy) = true -> forall o, ~ In (InsertOrder o) trace)).
Proof.
  intros take sortedSells sortedBuys selectedSells selectedBuys greedy weighted
         avgBuy avgSell trace.
  split; [exact (select_greedy64 sortedSells q)|].
  split; [exact (select_greedy64 sortedBuys q)|].
  intros HcovS HcovB.
  apply (order_of_selection c q buys sells selectedSells selectedBuys
           (snd (select q sortedSells)) (snd (select q sortedBuys)) Hc Hb Hs
           (surjective_pairing _) (surjective_pairing _)).
  - unfold sortedSells. rewrite select_remainder64. exact HcovS.
  - unfold sortedBuys. rewrite select_remainder64. exact HcovB.
Qed.

(** C5 (amended).  A run whose quantity text is empty, or whose commodity
    is missing, is refused with the fill-in message before any ticket is
    read, and inserts no order.  A run with a commodity and a negative
    target is not refused: both ticket queries are sent first, and the run
    then ends with one message and no order, the message being the fetch
    failure, the no-matching-tickets or the buy-exceeds-sell one. *)
Theorem C5_missing_or_negative_target (c : string) :
  handleOptimize c None fetch random now = [ToastError PleaseFillIn] /\
  (forall quantity, handleOptimize "" quantity fetch random now = [ToastError PleaseFillIn]) /\
  (forall q, JS.truthy_string c = true -> (q <? 0) = true ->
             exists m,
               handleOptimize c (Some q) fetch random now
               = [SelectTickets Buy c; SelectTickets Sell c; ToastError m] /\
               (m = FailedToFetch \/ m = NoMatchingTickets \/ m = BuyExceedsSell)).
Proof.
  split; [|split].
  - unfold handleOptimize. cbn [truthy_text negb]. now rewrite orb_true_r.
  - intro quantity. reflexivity.
  - intros q Hc Hq. unfold handleOptimize.
    rewrite Hc. cbn [negb orb truthy_text parseFloat].
    destruct (has_error (fetch Buy c) || has_error (fetch Sell c));
      [exists FailedToFetch; split; [reflexivity | now left]|].
    destruct ((List.length (data_or_empty (fetch Buy c)) =? 0)%nat
              || (List.length (data_or_empty (fetch Sell c)) =? 0)%nat);
      [exists NoMatchingTickets; split; [reflexivity | right; now left]|].
    rewrite !(select_done64 q _ (ltb_leb _ _ Hq)).
    unfold gt. rewrite (ltb_asym _ _ Hq).
    unfold ge, average, weighted_sum. cbn [fold_left].
    rewrite (leb_refl _ (zero_over_negative q Hq)).
    exists BuyExceedsSell. split; [reflexivity | right; now right].
Qed.

(** *** What the scan selects *)

Lemma select_prefix64 (sorted : list priced) (r : float)
  (sel : list selected) (left : float) :
  select r sorted = (sel, left) ->
  exists rest, sorted = (map entry sel ++ rest)%list.
Proof.
  revert r sel left. induction sorted as [|t rest IH]; intros r sel left H.
  - inversion H; subst. exists []. reflexivity.
  - cbn [select] in H. destruct (r <=? 0).
    + inversion H; subst. exists (t :: rest). reflexivity.
    + destruct (select _ rest) as [more left'] eqn:E.
      inversion H; subst. destruct (IH _ _ _ E) as [rest' Hrest].
      exists rest'. cbn. now rewrite <- Hrest.
Qed.

Lemma insert_perm64 (cmp : priced -> priced -> float) (x : priced) (l : list priced) :
  Permutation (insert cmp x l) (x :: l).
Proof.
  induction l as [|y l IH]; simpl; [apply Permutation_refl|].
  destruct (0 <? cmp x y); [|apply Permutation_refl].
  apply perm_trans with (y :: x :: l); [now apply perm_skip | apply perm_swap].
Qed.

Lemma sort_perm64 (cmp : priced -> priced -> float) (l : list priced) :
  Permutation (sort cmp l) l.
Proof.
  induction l as [|x l IH]; simpl; [apply perm_nil|].
  apply perm_trans with (x :: sort cmp l); [apply insert_perm64 | now apply perm_skip].
Qed.

Lemma offered_finite (t : ticket) :
  numeric_quantity t -> is_finite (field_or (quantity t) 0) = true.
Proof.
  intro H. unfold field_or, truthy_field, val.
  destruct (quantity t) as [x|] eqn:E; [|reflexivity].
  destruct (truthy x); [now apply (H x) | reflexivity].
Qed.

Lemma sorted_numeric (cmp : priced -> priced -> float) (ts : list ticket) :
  Forall numeric_quantity ts ->
  Forall (fun p => numeric_quantity (tk p)) (sort cmp (map with_price ts)).
Proof.
  intro H. rewrite Forall_forall in *. intros p Hp.
  apply (Permutation_in _ (sort_perm64 cmp _)) in Hp.
  apply in_map_iff in Hp. destruct Hp as [t [<- Ht]]. now apply H.
Qed.

(** While the quantities are numbers the remaining quantity stays one, and
    a visited ticket without a quantity is allocated 0. *)
Lemma select_zero_quantity64 (sorted : list priced) (r : float)
  (sel : list selected) (left : float) :
  Forall (fun p => numeric_quantity (tk p)) sorted ->
  is_nan r = false ->
  select r sorted = (sel, left) ->
  forall s, In s sel ->
            truthy_field (quantity (tk (entry s))) = false ->
            allocQty s = 0.
Proof.
  intro Hnum. revert r sel left.
  induction Hnum as [|t rest Ht _ IH]; intros r sel left Hr H s Hin Hz.
  - inversion H; subst. contradiction.
  - cbn [select] in H. destruct (r <=? 0) eqn:Hle;
      [inversion H; subst; contradiction|].
    assert (Hpos : (0 <? r) = true).
    { destruct (0 <? r) eqn:E; [reflexivity|].
      rewrite (ltb_false_leb 0 r eq_refl Hr E) in Hle. discriminate Hle. }
    pose proof (offered_finite (tk t) Ht) as Hoff.
    destruct (select _ rest) as [more left'] eqn:E.
    inversion H; subst sel left'. clear H.
    destruct Hin as [<- | Hin].
    + cbn [entry allocQty] in *. unfold field_or. rewrite Hz.
      now apply min_positive_zero.
    + refine (IH _ _ _ _ E s Hin Hz).
      apply sub_finite_not_nan; [exact Hr|]. now apply min_with_finite.
Qed.

(** C7 (amended).  With the two ticket queries answered: if the buy or the
    sell candidate list is empty the run ends with the no-matching-tickets
    message; if both are non-empty and the scan of the sell candidates, best
    price first, leaves a positive remainder, it ends with the
    not-enough-sell message; if both are non-empty, the sell scan leaves no
    positive remainder and the scan of the buy candidates leaves one, it
    ends with the not-enough-buy message.  The remainder of a scan is the
    target less, ticket by ticket while it is positive,
    min(remainder, quantity || 0), each subtraction rounded to binary64.  In
    each of these cases the run inserts no order; no run changes a
    ticket, an [event] being a ticket query, a message or an order
    insert. *)
Theorem C7_insufficient_liquidity (c : string) (q : float) (buys sells : list ticket)
  (Hc : JS.truthy_string c = true)
  (Hb : fetch Buy c = {| data := Some buys; error := None |})
  (Hs : fetch Sell c = {| data := Some sells; error := None |}) :
  let trace := handleOptimize c (Some q) fetch random now in
  let reads := [SelectTickets Buy c; SelectTickets Sell c] in
  let take rem t :=
    if rem <=? 0 then rem else rem - min rem (field_or (quantity (tk t)) 0) in
  let remainingSell := fold_left take (sort descending (map with_price sells)) q in
  let remainingBuy := fold_left take (sort ascending (map with_price buys)) q in
  (buys = [] \/ sells = [] -> trace = (reads ++ [ToastError NoMatchingTickets])%list) /\
  (buys <> [] -> sells <> [] -> (0 <? remainingSell) = true ->
   trace = (reads ++ [ToastError (NotEnoughSell q)])%list) /\
  (buys <> [] -> sells <> [] ->
   (0 <? remainingSell) = false -> (0 <? remainingBuy) = true ->
   trace = (reads ++ [ToastError (NotEnoughBuy q)])%list) /\
  (buys = [] \/ sells = [] \/ (0 <? remainingSell) = true \/ (0 <? remainingBuy) = true ->
   forall o, ~ In (InsertOrder o) trace).
Proof.
  intros trace reads take remainingSell remainingBuy.
  assert (HrS : snd (select q (sort descending (map with_price sells))) = remainingSell)
    by apply select_remainder64.
  assert (HrB : snd (select q (sort ascending (map with_price buys))) = remainingBuy)
    by apply select_remainder64.
  assert (Htrace := handleOptimize_answered c q buys sells Hc Hb Hs). fold trace in Htrace.
  assert (Hempty : buys = [] \/ sells = [] ->
                   trace = (reads ++ [ToastError NoMatchingTickets])%list).
  { intro H. rewrite Htrace.
    destruct H as [-> | ->]; cbn [List.length Nat.eqb orb];
      [|rewrite orb_true_r]; reflexivity. }
  assert (Hnonempty : buys <> [] -> sells <> [] ->
                      (List.length buys =? 0)%nat || (List.length sells =? 0)%nat = false).
  { intros Hnb Hns. destruct buys; [congruence|]. destruct sells; [congruence | reflexivity]. }
  assert (Hsell : buys <> [] -> sells <> [] -> (0 <? remainingSell) = true ->
                  trace = (reads ++ [ToastError (NotEnoughSell q)])%list).
  { intros Hnb Hns Hshort. rewrite Htrace, (Hnonempty Hnb Hns).
    destruct (select q (sort descending _)) as [selS remS]. cbn [snd] in HrS. subst remS.
    unfold gt. now rewrite Hshort. }
  assert (Hbuy : buys <> [] -> sells <> [] ->
                 (0 <? remainingSell) = false -> (0 <? remainingBuy) = true ->
                 trace = (reads ++ [ToastError (NotEnoughBuy q)])%list).
  { intros Hnb Hns Hcov Hshort. rewrite Htrace, (Hnonempty Hnb Hns).
    destruct (select q (sort descending _)) as [selS remS]. cbn [snd] in HrS. subst remS.
    destruct (select q (sort ascending _)) as [selB remB]. cbn [snd] in HrB. subst remB.
    unfold gt. now rewrite Hcov, Hshort. }
  split; [exact Hempty|]. split; [exact Hsell|]. split; [exact Hbuy|].
  intros Hshort o.
  assert (Hcases : exists m, trace = (reads ++ [ToastError m])%list).
  { destruct buys as [|b buys'] eqn:Eb; [eexists; apply Hempty; now left|].
    destruct sells as [|s sells'] eqn:Es; [eexists; apply Hempty; now right|].
    destruct (0 <? remainingSell) eqn:ES;
      [eexists; apply Hsell; [discriminate | discriminate | reflexivity]|].
    destruct Hshort as [H | [H | [H | H]]]; try discriminate H.
    eexists; apply Hbuy; [discriminate | discriminate | reflexivity | exact H]. }
  destruct Hcases as [m ->]. subst reads. message_only c.
Qed.

(** C8 (amended).  Whenever a run inserts an order, for a target that is
    a number and ticket quantities that are finite or null: the tickets
    named in the order's buyer and seller fields are the tickets the scans
    visited, a leading part of each price-sorted candidate list that holds
    every ticket reached before the remainder was used up, whatever its
    quantity; the order's ship-from, metal form and ISRI grade are those of
    the first visited buy ticket, its ship-to that of the first visited
    sell ticket, and its product details join the incoterms of the first
    visited buy and sell tickets.  A visited ticket whose quantity is null
    or zero has the allocation 0, so that it adds a zero to the weighted
    price sum when its price is finite. *)
Theorem C8_zero_quantity_ticket_is_listed (c : string) (quantity : text) (o : order)
  (Hq : forall q, quantity = Some q -> is_nan q = false)
  (Hnum : Forall numeric_quantity
            (data_or_empty (fetch Buy c) ++ data_or_empty (fetch Sell c)))
  (Hin : In (InsertOrder o) (handleOptimize c quantity fetch random now)) :
  let q := match quantity with Some q => q | None => nan end in
  let take rem t :=
    if rem <=? 0 then rem else rem - min rem (field_or (OptimizeMatching.quantity (tk t)) 0) in
  let visited (sorted : list priced) (sel : list selected) :=
    (exists rest, sorted = (map entry sel ++ rest)%list) /\
    (forall pre t post, sorted = (pre ++ t :: post)%list ->
       (fold_left take pre q <=? 0) = false ->
       exists s, nth_error sel (List.length pre) = Some s /\ entry s = t) in
  exists selectedBuys selectedSells,
    visited (sort ascending (map with_price (data_or_empty (fetch Buy c)))) selectedBuys /\
    visited (sort descending (map with_price (data_or_empty (fetch Sell c)))) selectedSells /\
    buyer o = String.concat "," (map (fun s => id (tk (entry s))) selectedBuys) /\
    seller o = String.concat "," (map (fun s => id (tk (entry s))) selectedSells) /\
    order_ship_to o = first_field ship_to selectedSells /\
    order_ship_from o = first_field ship_from selectedBuys /\
    order_metal_form o = first_field metal_form selectedBuys /\
    order_isri_grade o = first_field isri_grade selectedBuys /\
    product_details o
    = (JS.string_or (first_field incoterms selectedBuys) "—" ++ " / " ++
       JS.string_or (first_field incoterms selectedSells) "—")%string /\
    (forall s, In s (selectedBuys ++ selectedSells) ->
               truthy_field (OptimizeMatching.quantity (tk (entry s))) = false ->
               allocQty s = 0 /\
               (is_finite (calculateTicketPrice (tk (entry s))) = true ->
                is_zero (calculateTicketPrice (tk (entry s)) * allocQty s) = true)).
Proof.
  intros q0 take visited.
  apply Forall_app in Hnum. destruct Hnum as [HnumB HnumS].
  unfold handleOptimize in Hin.
  destruct quantity as [q|].
  2:{ exfalso. cbn [truthy_text negb] in Hin. rewrite orb_true_r in Hin.
      destruct Hin as [H | []]. discriminate H. }
  specialize (Hq q eq_refl). subst q0.
  destruct (negb (JS.truthy_string c) || negb (truthy_text (Some q)));
    [destruct Hin as [H | []]; discriminate H|].
  cbn [parseFloat] in Hin.
  destruct (has_error (fetch Buy c) || has_error (fetch Sell c));
    [exfalso; revert Hin; message_only c|].
  destruct ((List.length (data_or_empty (fetch Buy c)) =? 0)%nat
            || (List.length (data_or_empty (fetch Sell c)) =? 0)%nat);
    [exfalso; revert Hin; message_only c|].
  pose proof (select_greedy64 (sort descending (map with_price (data_or_empty (fetch Sell c)))) q)
    as [_ HgS].
  pose proof (select_greedy64 (sort ascending (map with_price (data_or_empty (fetch Buy c)))) q)
    as [_ HgB].
  destruct (select q (sort descending _)) as [selS remS] eqn:ES.
  destruct (gt remS 0); [exfalso; revert Hin; message_only c|].
  destruct (select q (sort ascending _)) as [selB remB] eqn:EB.
  destruct (gt remB 0); [exfalso; revert Hin; message_only c|].
  destruct (ge (average selB q) (average selS q));
    [exfalso; revert Hin; message_only c|].
  destruct Hin as [H | [H | [H | []]]]; try discriminate H.
  inversion H; subst o; clear H.
  cbn [fst] in HgS, HgB.
  assert (Hvisit : forall sorted sel,
            (exists rest, sorted = (map entry sel ++ rest)%list) ->
            (forall pre t post, sorted = (pre ++ t :: post)%list ->
               if fold_left take pre q <=? 0
               then (List.length sel <= List.length pre)%nat
               else exists s, nth_error sel (List.length pre) = Some s /\
                              entry s = t /\
                              allocQty s
                              = min (fold_left take pre q)
                                    (field_or (OptimizeMatching.quantity (tk t)) 0)) ->
            visited sorted sel).
  { intros sorted sel Hpre Hg. split; [exact Hpre|].
    intros pre t post Hsplit Hleft. specialize (Hg pre t post Hsplit).
    fold take in Hg. rewrite Hleft in Hg.
    destruct Hg as [s [Hn [He _]]]. exists s. now split. }
  exists selB, selS. cbn.
  split; [apply Hvisit; [exact (select_prefix64 _ _ _ _ EB) | exact HgB]|].
  split; [apply Hvisit; [exact (select_prefix64 _ _ _ _ ES) | exact HgS]|].
  repeat (split; [reflexivity|]).
  intros s Hs Hz.
  assert (Ha : allocQty s = 0).
  { apply in_app_or in Hs. destruct Hs as [Hs | Hs].
    - apply (select_zero_quantity64 _ _ _ _ (sorted_numeric ascending _ HnumB) Hq EB s Hs Hz).
    - apply (select_zero_quantity64 _ _ _ _ (sorted_numeric descending _ HnumS) Hq ES s Hs Hz). }
  split; [exact Ha|]. rewrite Ha. apply finite_times_zero.
Qed.

End Optimizer64.

(* ================================================================== *)
(** ** Allocation Engine *)

Section Allocation64.

Import PrimFloat SpecFloat FloatOps FloatAxioms.
Import Double Double.PriceFixingDialog.
Local Open Scope float_scope.

Variable fails : nat -> bool.
Variable now : string.

(** *** Numbers of the dialog *)












(** *** Requests *)

Lemma request_answered64 {A} (apply : store -> A * store) (w : world) :
  fails (sent w) = false ->
  request fails apply w
  = (Ok (fst (apply (db w))), {| db := snd (apply (db w)); sent := S (sent w) |}).
Proof.
  intro H. unfold request. rewrite H. now destruct (apply (db w)).
Qed.





(** *** The rows of the other hedge executions *)







(** *** The checks of [handleSubmit] *)




End Allocation64.

(* ================================================================== *)
(** ** Exposure Aggregator *)

Section Exposure64.

Import PrimFloat SpecFloat FloatOps FloatAxioms.
Import Double Double.PriceFixingDialog Double.HedgingSummarySection.
Local Open Scope float_scope.




End Exposure64.

(* ================================================================== *)
(** ** Runs on the sample data *)

Section Runs64.

Import PrimFloat.
Import Double Double.OptimizeMatching.
Local Open Scope float_scope.

(** Scenario of the specification: sell 30 at 520 and 20 at 500, buy 40 at
    450, target 40.  The order takes 30 + 10 on the sell side at the
    average 515 and has the margin 65 / 450. *)
Lemma C3_order_for_covered_target_witness :
  exists o,
    handleOptimize "Copper" (Some 40) (from_ticket DoubleSamples.pool) 0.5 "t1"
    = [SelectTickets Buy "Copper"; SelectTickets Sell "Copper"; InsertOrder o] /\
    allocated_quantity_mt o = 40 /\
    buy_price o = 450 /\ sell_price o = 515 /\
    margin o = (515 - 450) / 450 /\
    (0 <? margin o) = true.
Proof.
  destruct (C3_order_for_covered_target
              (from_ticket DoubleSamples.pool) 0.5 "t1"
              "Copper" 40 [DoubleSamples.buy_450]
              [DoubleSamples.sell_500; DoubleSamples.sell_520]
              eq_refl eq_refl eq_refl)
    as [_ [_ Hcovered]].
  destruct (proj1 (Hcovered eq_refl eq_refl) eq_refl)
    as [o [Htrace [Hqty [Hbuy [Hsell [Hmargin Hpositive]]]]]].
  exists o. repeat split; try assumption. apply Hpositive. reflexivity.
Defined.

(** A buy ticket priced -10 against a sell ticket priced 5: the target is
    covered and the sell average is above the buy average, an order is
    inserted, and its margin 15 / (-10) is negative. *)
Lemma C3_counterexample_negative_margin :
  exists o,
    handleOptimize "Copper" (Some 40) (from_ticket DoubleSamples.pool_negative) 0.5 "t1"
    = [SelectTickets Buy "Copper"; SelectTickets Sell "Copper"; InsertOrder o] /\
    allocated_quantity_mt o = 40 /\
    buy_price o = -10 /\ sell_price o = 5 /\
    (buy_price o <? sell_price o) = true /\
    margin o = -1.5 /\
    (0 <? margin o) = false.
Proof.
  eexists. split; [reflexivity|]. cbn. repeat split.
Qed.

(** Buy 10 at 513.37 against sells of 3 and 7 at 513.37: the sell average
    (513.37 * 3 + 513.37 * 7) / 10 is rounded above 513.37, and the order is
    inserted. *)
Example same_price_order :
  exists o,
    handleOptimize "Copper" (Some 10) (from_ticket DoubleSamples.pool_same_price) 0.5 "t1"
    = [SelectTickets Buy "Copper"; SelectTickets Sell "Copper"; InsertOrder o] /\
    buy_price o = 513.37 /\
    sell_price o = 513.37000000000012 /\
    margin o = 2.214520476880535e-16.
Proof.
  eexists. split; [reflexivity|]. cbn. repeat split.
Qed.

(** Target -5 on the scenario pool: the tickets are read and the run ends
    with one of the three messages. *)
Lemma C5_missing_or_negative_target_witness :
  exists m,
    handleOptimize "Copper" (Some (-5)) (from_ticket DoubleSamples.pool) 0.5 "t1"
    = [SelectTickets Buy "Copper"; SelectTickets Sell "Copper"; ToastError m] /\
    (m = FailedToFetch \/ m = NoMatchingTickets \/ m = BuyExceedsSell).
Proof.
  apply (proj2 (proj2 (C5_missing_or_negative_target
                         (from_ticket DoubleSamples.pool) 0.5 "t1" "Copper")) (-5));
    reflexivity.
Defined.

(** Target -5: the tickets are read and the run ends with the margin
    message.  Target 0: the tickets are read and an order of quantity 0 is
    inserted, its prices being NaN. *)
Lemma C5_counterexample_target_not_positive :
  handleOptimize "Copper" (Some (-5)) (from_ticket DoubleSamples.pool) 0.5 "t1"
  = [SelectTickets Buy "Copper"; SelectTickets Sell "Copper"; ToastError BuyExceedsSell] /\
  exists o,
    handleOptimize "Copper" (Some 0) (from_ticket DoubleSamples.pool) 0.5 "t1"
    = [SelectTickets Buy "Copper"; SelectTickets Sell "Copper"; InsertOrder o] /\
    allocated_quantity_mt o = 0 /\
    buy_price o = nan /\ sell_price o = nan /\ margin o = nan.
Proof.
  split; [reflexivity|].
  eexists. split; [reflexivity|]. cbn. repeat split.
Qed.

(** Target 60 against a sell side of 30 + 20. *)
Lemma C7_insufficient_liquidity_witness :
  handleOptimize "Copper" (Some 60) (from_ticket DoubleSamples.pool) 0.5 "t1"
  = [SelectTickets Buy "Copper"; SelectTickets Sell "Copper";
     ToastError (NotEnoughSell 60)].
Proof.
  apply (proj1 (proj2 (C7_insufficient_liquidity
                         (from_ticket DoubleSamples.pool) 0.5 "t1" "Copper" 60
                         [DoubleSamples.buy_450]
                         [DoubleSamples.sell_500; DoubleSamples.sell_520]
                         eq_refl eq_refl eq_refl)));
    [discriminate | discriminate | reflexivity].
Defined.

(** With no sell ticket the run ends with the no-matching-tickets message,
    not with the not-enough-sell one; with both sides below the target it
    ends with the not-enough-sell message, not with the not-enough-buy one. *)
Lemma C7_counterexample_other_message :
  handleOptimize "Copper" (Some 40) (from_ticket DoubleSamples.pool_buy_only) 0.5 "t1"
  = [SelectTickets Buy "Copper"; SelectTickets Sell "Copper";
     ToastError NoMatchingTickets] /\
  map quantity [DoubleSamples.buy_450] = [Some 40] /\
  (40 <? 60) = true /\
  handleOptimize "Copper" (Some 60) (from_ticket DoubleSamples.pool) 0.5 "t1"
  = [SelectTickets Buy "Copper"; SelectTickets Sell "Copper";
     ToastError (NotEnoughSell 60)].
Proof.
  repeat split.
Qed.

(** Sells of 0.1 and 39.9 for the target 40: 40 - 0.1 is rounded to 39.9,
    the scan leaves nothing and the order is inserted.  Sells of 24.4 and
    15.6: 40 - 24.4 is rounded above 15.6, the scan leaves a positive
    remainder and the run ends with the not-enough-sell message. *)
Example rounded_remainders :
  (exists o,
     handleOptimize "Copper" (Some 40) (from_ticket DoubleSamples.pool_tenths) 0.5 "t1"
     = [SelectTickets Buy "Copper"; SelectTickets Sell "Copper"; InsertOrder o] /\
     sell_price o = 500.05000000000001) /\
  handleOptimize "Copper" (Some 40) (from_ticket DoubleSamples.pool_24_16) 0.5 "t1"
  = [SelectTickets Buy "Copper"; SelectTickets Sell "Copper";
     ToastError (NotEnoughSell 40)] /\
  40 - 24.4 - 15.6 = 1.7763568394002505e-15.
Proof.
  split; [eexists; split; reflexivity|]. split; reflexivity.
Qed.

(** The empty sell ticket S0 has the best price: it is visited first, is
    named first in the seller field and gives the order its ship-to. *)
Lemma C8_counterexample_empty_ticket_listed :
  quantity DoubleSamples.sell_600_empty = Some 0 /\
  exists o,
    handleOptimize "Copper" (Some 40) (from_ticket DoubleSamples.pool_with_empty) 0.5 "t1"
    = [SelectTickets Buy "Copper"; SelectTickets Sell "Copper"; InsertOrder o] /\
    seller o = "S0,S1,S2"%string /\
    order_ship_to o = ship_to DoubleSamples.sell_600_empty /\
    order_ship_to o = Some "Genoa"%string.
Proof.
  split; [reflexivity|].
  eexists. split; [reflexivity|]. cbn. repeat split.
Qed.

(** The scenario pool with the empty ticket S0: S0 is the first selected
    sell ticket of the order that is inserted. *)
Lemma C8_zero_quantity_ticket_is_listed_witness :
  exists o selectedBuys selectedSells s,
    In (InsertOrder o)
       (handleOptimize "Copper" (Some 40) (from_ticket DoubleSamples.pool_with_empty)
          0.5 "t1") /\
    nth_error selectedSells 0 = Some s /\
    tk (entry s) = DoubleSamples.sell_600_empty /\
    seller o = String.concat "," (map (fun s => id (tk (entry s))) selectedSells) /\
    order_ship_to o = first_field ship_to selectedSells /\
    product_details o
    = (JS.string_or (first_field incoterms selectedBuys) "—" ++ " / " ++
       JS.string_or (first_field incoterms selectedSells) "—")%string.
Proof.
  set (trace := handleOptimize "Copper" (Some 40)
                  (from_ticket DoubleSamples.pool_with_empty) 0.5 "t1").
  assert (Hin : In (nth 2 trace (ToastError PleaseFillIn)) trace)
    by (right; right; left; reflexivity).
  assert (Ho : exists o, nth 2 trace (ToastError PleaseFillIn) = InsertOrder o)
    by (eexists; reflexivity).
  destruct Ho as [o Ho]. rewrite Ho in Hin.
  assert (Hq : forall q, Some 40 = Some q -> is_nan q = false)
    by (intros q H; inversion H; reflexivity).
  assert (Hnum : Forall numeric_quantity
                   (data_or_empty (from_ticket DoubleSamples.pool_with_empty Buy "Copper")
                    ++ data_or_empty (from_ticket DoubleSamples.pool_with_empty Sell "Copper")))
    by (repeat constructor; intros x H; inversion H; reflexivity).
  destruct (C8_zero_quantity_ticket_is_listed
              (from_ticket DoubleSamples.pool_with_empty) 0.5 "t1"
              "Copper" (Some 40) o Hq Hnum Hin)
    as [selB [selS [_ [[_ Hvisited] [_ [Hseller [Hship [_ [_ [_ [Hdetails _]]]]]]]]]]].
  destruct (Hvisited [] (with_price DoubleSamples.sell_600_empty)
              (map with_price [DoubleSamples.sell_520; DoubleSamples.sell_500])
              eq_refl eq_refl)
    as [s [Hfirst Hentry]].
  exists o, selB, selS, s. split; [exact Hin|]. split; [exact Hfirst|].
  split; [now rewrite Hentry|]. repeat split; assumption.
Defined.

End Runs64.

Section Submissions64.

Import PrimFloat.
Import Double Double.PriceFixingDialog.
Local Open Scope float_scope.



(** Scenario of the specification: 100 MT physical, 60 fixed, 50 requested
    against a hedge with 30 open: refused, nothing written.  With 3.3 MT
    physical, the allocations 1.1 and 2.2 sum to 3.3000000000000003 and are
    refused as well. *)
Example allocation_above_available_refused :
  handleSubmit DoubleSamples.no_failure "t1" DoubleSamples.fix_50 DoubleSamples.world0
  = (Refused ExceedsAvailable, DoubleSamples.world0) /\
  handleSubmit DoubleSamples.no_failure "t1" DoubleSamples.fix_1_1_and_2_2
    DoubleSamples.world0
  = (Refused ExceedsAvailable, DoubleSamples.world0) /\
  totalAllocation DoubleSamples.fix_1_1_and_2_2 = 3.3000000000000003 /\
  availableUnfixedQty DoubleSamples.fix_1_1_and_2_2 = 3.3.
Proof. repeat split. Qed.



(** Scenario of the specification: allocating all 40 MT closes the hedge
    at the fixing price.  Allocating 39.99 MT leaves 40 - 39.99, which is
    0.0099999999999980105. *)
Example full_allocation_closes_hedge :
  DoubleSamples.shown
    (snd (handleSubmit DoubleSamples.no_failure "t1" DoubleSamples.fix_40
            DoubleSamples.world0))
  = [("H1"%string, Some 0, CLOSED, Some 9500); ("H2"%string, None, OPEN, None)] /\
  DoubleSamples.shown
    (snd (handleSubmit DoubleSamples.no_failure "t1" DoubleSamples.fix_39_99
            DoubleSamples.world0))
  = [("H1"%string, Some 0.0099999999999980105, PARTIALLY_CLOSED, None);
     ("H2"%string, None, OPEN, None)].
Proof. split; reflexivity. Qed.

End Submissions64.

Section Positions64.

Import PrimFloat.
Import Double Double.PriceFixingDialog Double.HedgingSummarySection.
Local Open Scope float_scope.

(** Buy 40 of which 25 open and Sell 10: long 15.  Buy 0.11 and Sell 0.1:
    0.11 - 0.1 is 0.009999999999999995, below the threshold, so flat.  Buy
    0.01, Buy 0.02 and Sell 0.02: 0.01 + 0.02 - 0.02 is
    0.0099999999999999985, so flat. *)
Example net_exposure_samples :
  netExposure (Some DoubleSamples.linked_long) = {| value := 15; label := Long 15 |} /\
  netExposure (Some DoubleSamples.linked_hundredth) = {| value := 0; label := Flat |} /\
  0 + 0.11 + - 0.1 = 0.009999999999999995 /\
  netExposure (Some DoubleSamples.linked_three) = {| value := 0; label := Flat |} /\
  0 + 0.01 + 0.02 + - 0.02 = 0.0099999999999999985.
Proof. repeat split. Qed.

End Positions64.

Set Warnings "inexact-float".


(* ================================================================== *)
(** * Further properties of the ticket matching optimizer *)

Section Selection.

Import OptimizeMatching.

Lemma select_allocation_bounds (sorted : list priced) (r : Q)
  (sel : list selected) (left : JS.number)
  (Hrange : Forall Specification.quantity_in_range (map tk sorted))
  (Hsel : select (JS.Fin r) sorted = (sel, left)) :
  Forall (fun s => exists a, allocQty s = JS.Fin a /\
                             0 <= a /\ a <= Specification.offered (tk (entry s)))
         sel.
Proof.
  revert r sel left Hsel. induction sorted as [|t rest IH]; intros r sel left Hsel.
  - inversion Hsel; subst. constructor.
  - inversion Hrange as [|? ? Ht Hrest]; subst.
    unfold Specification.quantity_in_range in Ht.
    destruct (Qlt_le_dec 0 r) as [Hpos | Hle];
      [|rewrite (select_done r _ Hle) in Hsel; inversion Hsel; subst; constructor].
    rewrite (select_step r t rest Hpos) in Hsel. cbv zeta in Hsel.
    rewrite min_finite in Hsel.
    change (JS.sub (JS.Fin r) (JS.Fin ?a)) with (JS.Fin (r - a)) in Hsel.
    destruct (select _ rest) as [more left'] eqn:E.
    inversion Hsel; subst. constructor.
    + cbn [allocQty entry]. eexists. split; [reflexivity|].
      destruct (Qle_bool r (Specification.offered (tk t))) eqn:Hc.
      * apply Qle_bool_iff in Hc. split; [lra | exact Hc].
      * split; [exact Ht | apply Qle_refl].
    + apply (IH Hrest _ _ _ E).
Qed.

(** X1.  The scan never allocates more than a ticket offers, and never a
    negative quantity. *)
Theorem select_within_capacity (sorted : list priced) (r : Q)
  (sel : list selected) (left : JS.number)
  (Hrange : Forall Specification.quantity_in_range (map tk sorted))
  (Hsel : select (JS.Fin r) sorted = (sel, left)) :
  Forall (fun s => exists a, allocQty s = JS.Fin a /\
                             0 <= a /\ a <= Specification.offered (tk (entry s)))
         sel.
Proof. exact (select_allocation_bounds sorted r sel left Hrange Hsel). Qed.

(** X3.  Only the last selected ticket can be split: a selected ticket that is
    followed by another one is allocated in full. *)
Theorem select_splits_only_last (sorted : list priced) (r : Q)
  (before after : list selected) (s : selected) (left : JS.number)
  (Hsel : select (JS.Fin r) sorted = (before ++ s :: after, left))
  (Hmore : after <> []) :
  allocQty s = JS.Fin (Specification.offered (tk (entry s))).
Proof.
  revert r before Hsel. induction sorted as [|t rest IH]; intros r before Hsel.
  - inversion Hsel as [[H _]]. destruct before; discriminate H.
  - destruct (Qlt_le_dec 0 r) as [Hpos | Hle];
      [|rewrite (select_done r _ Hle) in Hsel; inversion Hsel as [[H _]];
        destruct before; discriminate H].
    rewrite (select_step r t rest Hpos) in Hsel. cbv zeta in Hsel.
    rewrite min_finite in Hsel.
    change (JS.sub (JS.Fin r) (JS.Fin ?a)) with (JS.Fin (r - a)) in Hsel.
    destruct (select _ rest) as [more left'] eqn:E.
    inversion Hsel as [[Hlist Hleft]]. clear Hsel. subst left'.
    destruct before as [|b before'].
    + cbn [app] in Hlist. inversion Hlist as [[Hs Hafter]]. subst more.
      cbn [allocQty entry].
      destruct (Qle_bool r (Specification.offered (tk t))) eqn:Hc; [|reflexivity].
      exfalso. assert (Hz : r - r <= 0) by lra.
      rewrite (select_done (r - r) rest Hz) in E. inversion E; subst.
      now apply Hmore.
    + cbn [app] in Hlist. inversion Hlist as [[Hb Hrest]]. subst more.
      apply (IH _ _ E).
Qed.

(** X4.  The scans take the best prices first: an unselected sell candidate is
    never dearer than a selected one, an unselected buy candidate never
    cheaper. *)
Theorem select_best_price_first (pool : list priced) (r : JS.number)
  (sel : list selected) (left : JS.number) :
  (select r (sort descending pool) = (sel, left) ->
   exists rest,
     sort descending pool = map entry sel ++ rest /\
     forall s p, In s sel -> In p rest ->
                 calculatedPrice p <= calculatedPrice (entry s)) /\
  (select r (sort ascending pool) = (sel, left) ->
   exists rest,
     sort ascending pool = map entry sel ++ rest /\
     forall s p, In s sel -> In p rest ->
                 calculatedPrice (entry s) <= calculatedPrice p).
Proof.
  assert (Hsplit : forall (R : priced -> priced -> Prop) (l1 l2 : list priced),
             StronglySorted R (l1 ++ l2) ->
             forall x y, In x l1 -> In y l2 -> R x y).
  { intros R l1. induction l1 as [|z l1 IH]; intros l2 Hs x y Hx Hy; [contradiction|].
    cbn [app] in Hs. inversion Hs as [|? ? Hs' Hall]; subst.
    destruct Hx as [<- | Hx].
    - rewrite Forall_forall in Hall. apply Hall, in_or_app. now right.
    - apply (IH l2 Hs' x y Hx Hy). }
  split; intro Hsel; destruct (select_prefix _ _ _ _ Hsel) as [rest Hrest];
    exists rest; (split; [exact Hrest|]); intros s p Hs Hp.
  - pose proof (sort_descending_sorted pool) as Hsorted.
    apply Sorted_StronglySorted in Hsorted;
      [|intros a b c Hab Hbc; apply (Qle_trans _ _ _ Hbc Hab)].
    rewrite Hrest in Hsorted.
    apply (Hsplit _ _ _ Hsorted (entry s) p); [now apply in_map | exact Hp].
  - pose proof (sort_ascending_sorted pool) as Hsorted.
    apply Sorted_StronglySorted in Hsorted;
      [|intros a b c Hab Hbc; apply (Qle_trans _ _ _ Hab Hbc)].
    rewrite Hrest in Hsorted.
    apply (Hsplit _ _ _ Hsorted (entry s) p); [now apply in_map | exact Hp].
Qed.

End Selection.

Section Runs.

Import OptimizeMatching.

Variable fetch : side -> string -> response.
Variable random : Q.
Variable now : string.

(** X5.  A run has one of three shapes: the refusal before any read; the two
    reads and one message; the two reads and one inserted order.  An order
    is inserted only after both reads were answered without an error and
    with at least one candidate each. *)
Theorem handleOptimize_trace_shape (c : string) (quantity : JS.text) :
  let trace := handleOptimize c quantity fetch random now in
  trace = [ToastError PleaseFillIn] \/
  (exists m, trace = [SelectTickets Buy c; SelectTickets Sell c; ToastError m]) \/
  (exists o,
      trace = [SelectTickets Buy c; SelectTickets Sell c; InsertOrder o] /\
      JS.truthy_string c = true /\ JS.truthy_text quantity = true /\
      error (fetch Buy c) = None /\ error (fetch Sell c) = None /\
      data_or_empty (fetch Buy c) <> [] /\ data_or_empty (fetch Sell c) <> [] /\
      order_commodity_type o = c /\
      allocated_quantity_mt o = JS.parseFloat quantity).
Proof.
  intro trace. subst trace. unfold handleOptimize.
  destruct (JS.truthy_string c) eqn:Hc; cbn [negb orb]; [|left; reflexivity].
  destruct (JS.truthy_text quantity) eqn:Hq; cbn [negb]; [|left; reflexivity].
  right. unfold has_error.
  destruct (error (fetch Buy c)) eqn:Eb; cbn [orb]; [left; eexists; reflexivity|].
  destruct (error (fetch Sell c)) eqn:Es; cbn [orb]; [left; eexists; reflexivity|].
  destruct (data_or_empty (fetch Buy c)) as [|b buys] eqn:Db;
    cbn [List.length Nat.eqb orb]; [left; eexists; reflexivity|].
  destruct (data_or_empty (fetch Sell c)) as [|s sells] eqn:Ds;
    cbn [List.length Nat.eqb orb]; [left; eexists; reflexivity|].
  destruct (select _ (sort descending _)) as [selS remS].
  destruct (JS.gt remS (JS.Fin 0)); [left; eexists; reflexivity|].
  destruct (select _ (sort ascending _)) as [selB remB].
  destruct (JS.gt remB (JS.Fin 0)); [left; eexists; reflexivity|].
  destruct (JS.ge _ _); [left; eexists; reflexivity|].
  right. eexists. split; [reflexivity|]. cbn.
  repeat split; discriminate.
Qed.

End Runs.

Section OrderNumber.

Import OptimizeMatching.

Lemma count_from_in (k : nat) (start n : Z) :
  (start <= n < start + Z.of_nat k)%Z -> In n (Specification.count_from start k).
Proof.
  revert start. induction k as [|k IH]; intros start H; [lia|].
  cbn [Specification.count_from].
  destruct (Z.eq_dec start n) as [E | E]; [now left|].
  right. apply IH. lia.
Qed.

Lemma order_numbers_complete (n : Z) :
  (10000 <= n <= 99999)%Z -> In n Specification.order_numbers.
Proof.
  intro H. unfold Specification.order_numbers. apply count_from_in. lia.
Qed.

Lemma order_numbers_five_digits :
  forallb Specification.five_digits Specification.order_numbers = true.
Proof. vm_compute. reflexivity. Qed.

(** X6.  For a random value in [0, 1) the order id is the decimal writing of a
    number from 10000 to 99999: it has five digits. *)
Theorem orderId_five_digits (random : Q)
  (Hlow : 0 <= random) (Hhigh : random < 1) :
  let n := Specification.order_number random in
  (10000 <= n <= 99999)%Z /\
  orderId random = NilZero.string_of_int (Z.to_int n) /\
  String.length (orderId random) = 5%nat.
Proof.
  intro n.
  assert (Hn : (10000 <= n <= 99999)%Z).
  { subst n. unfold Specification.order_number. split.
    - apply (Qfloor_resp_le 10000 (10000 + random * 90000)). nra.
    - assert (H : (Qfloor (10000 + random * 90000) < 100000)%Z); [|lia].
      rewrite Zlt_Qlt.
      apply Qle_lt_trans with (10000 + random * 90000); [apply Qfloor_le|].
      change (inject_Z 100000) with 100000%Q. nra. }
  split; [exact Hn|]. split; [reflexivity|].
  pose proof (proj1 (forallb_forall _ _) order_numbers_five_digits n
                (order_numbers_complete n Hn)) as H.
  unfold Specification.five_digits in H. apply Nat.eqb_eq in H. exact H.
Qed.

End OrderNumber.

Section Averages.

Import OptimizeMatching.

Variable fetch : side -> string -> response.
Variable random : Q.
Variable now : string.





End Averages.

Lemma select_within_capacity_witness :
  Forall (fun s => exists a, OptimizeMatching.allocQty s = JS.Fin a /\
                             0 <= a /\
                             a <= Specification.offered
                                    (OptimizeMatching.tk (OptimizeMatching.entry s)))
    Samples.selected_sells.
Proof.
  apply (select_within_capacity Samples.sorted_sells 40 Samples.selected_sells
           Samples.left_sells).
  - repeat constructor; intro H; vm_compute in H; discriminate H.
  - reflexivity.
Defined.

(** Of the sell tickets S1 (30 at 520) and S2 (20 at 500) taken for the
    target 40, the first is allocated in full. *)
Lemma select_splits_only_last_witness :
  OptimizeMatching.allocQty
    (OptimizeMatching.mkSelected (OptimizeMatching.with_price Samples.sell_520) (JS.Fin 30))
  = JS.Fin (Specification.offered Samples.sell_520).
Proof.
  refine (select_splits_only_last Samples.sorted_sells 40 []
            [OptimizeMatching.mkSelected (OptimizeMatching.with_price Samples.sell_500)
               (JS.Fin (40 - 30))]
            (OptimizeMatching.mkSelected (OptimizeMatching.with_price Samples.sell_520)
               (JS.Fin 30))
            (JS.Fin (40 - 30 - (40 - 30))) _ _).
  - reflexivity.
  - discriminate.
Defined.

Lemma orderId_five_digits_witness :
  OptimizeMatching.orderId (1 # 2) = "55000"%string /\
  String.length (OptimizeMatching.orderId (1 # 2)) = 5%nat.
Proof.
  assert (Hlow : 0 <= 1 # 2) by discriminate.
  assert (Hhigh : 1 # 2 < 1) by reflexivity.
  split; [reflexivity|].
  exact (proj2 (proj2 (orderId_five_digits (1 # 2) Hlow Hhigh))).
Defined.


(* ================================================================== *)
(** * Further properties of the allocation engine *)

Section CommitRows.

Import PriceFixingDialog.

Variable fails : nat -> bool.
Variable now : string.

Lemma rows_of_updated (u : HedgeUpdate) (hedgeId : string) (l : list HedgeExecution) :
  filter (fun h => String.eqb (id h) hedgeId)
         (map (fun h => if String.eqb (id h) hedgeId then apply_update u h else h) l)
  = map (apply_update u) (filter (fun h => String.eqb (id h) hedgeId) l).
Proof.
  induction l as [|h l IH]; [reflexivity|].
  cbn [map filter]. destruct (String.eqb (id h) hedgeId) eqn:E.
  - cbn [apply_update id]. rewrite E. cbn [map]. now rewrite IH.
  - rewrite E. exact IH.
Qed.

(** The rows of a hedge execution after a commit that succeeded: each
    stored row of it has received the update computed from the listed
    hedge. *)
Lemma commit_updates_rows (d : dialog) (hedgeId : string)
  (hedge : HedgeExecution) (a : Q) (w w' : world) (fixingData : PricingFixing) :
  NoDup (selectedIds d) -> In hedgeId (selectedIds d) ->
  allocation_text d hedgeId = Some a -> 0 < a ->
  find_hedge d hedgeId = Some hedge ->
  fixingMutation fails now d w = (Ok fixingData, w') ->
  Specification.rows_of hedgeId (db w')
  = map (apply_update
           (hedge_update hedge (JS.Fin a) (JS.parseFloat (fixingPrice d)) now))
        (Specification.rows_of hedgeId (db w)).
Proof.
  intros Hunique Hsel Halloc Hpos Hfind Hrun.
  unfold fixingMutation, bind in Hrun.
  unfold request in Hrun at 1.
  destruct (fails (sent w)); [discriminate Hrun|].
  cbn [insert_pricing_fixing] in Hrun.
  set (fd := fixing_row d (next_fixing_id (db w))) in Hrun.
  set (w0 := {| db := _; sent := S (sent w) |}) in Hrun.
  assert (Hrows0 : hedge_execution (db w0) = hedge_execution (db w)) by reflexivity.
  destruct (for_of (selectedIds d) (allocate_hedge fails now d fd) w0)
    as [[[] | e] wf] eqn:Hloop; [|discriminate Hrun].
  inversion Hrun; subst wf; clear Hrun.
  destruct (in_split _ _ Hsel) as [pre [post Hsplit]].
  rewrite Hsplit in Hloop, Hunique.
  apply NoDup_remove_2 in Hunique.
  assert (Hpre : ~ In hedgeId pre) by (intro H; apply Hunique, in_or_app; now left).
  assert (Hpost : ~ In hedgeId post) by (intro H; apply Hunique, in_or_app; now right).
  destruct (for_of_split pre post hedgeId _ w0 w' Hloop) as [w1 [w2 [Hstep [Hrest Hw1]]]].
  assert (Hbefore : Specification.rows_of hedgeId (db w1)
                    = Specification.rows_of hedgeId (db w)).
  { rewrite <- Hw1, (for_of_keeps_other_rows fails now d fd pre hedgeId w0 Hpre).
    unfold Specification.rows_of. now rewrite Hrows0. }
  assert (Hafter : Specification.rows_of hedgeId (db w')
                   = Specification.rows_of hedgeId (db w2)).
  { pose proof (for_of_keeps_other_rows fails now d fd post hedgeId w2 Hpost) as H.
    rewrite Hrest in H. exact H. }
  rewrite Hafter, <- Hbefore. unfold Specification.rows_of.
  rewrite (allocate_hedge_completed fails now d fd hedgeId hedge a w1 w2
             Halloc Hpos Hfind Hstep).
  apply rows_of_updated.
Qed.

Lemma selectedIds_selected (d : dialog) (hedgeId : string) :
  In hedgeId (selectedIds d) -> is_selected d hedgeId = true.
Proof. unfold selectedIds. intro H. now apply filter_In in H. Qed.

(** X10.  A hedge execution closed by a commit is offered no more: no row of it
    passes the eligibility query, whatever the deletion marks, and the
    summary shows no Price Fix entry for it.  One that keeps an open
    quantity stays in an open status and can be price-fixed again. *)
Theorem closed_hedge_is_not_offered (d : dialog) (hedgeId : string)
  (hedge : HedgeExecution) (a : Q) (w w' : world) (fixingData : PricingFixing)
  (Hunique : NoDup (selectedIds d))
  (Hsel : In hedgeId (selectedIds d))
  (Halloc : allocation_text d hedgeId = Some a) (Hpos : 0 < a)
  (Hfind : find_hedge d hedgeId = Some hedge)
  (Hrun : fixingMutation fails now d w = (Ok fixingData, w')) :
  (openQty hedge <= a ->
   (forall metal s orderId showAll table h,
       map DialogQueries.row table = hedge_execution (db w') ->
       In h (DialogQueries.eligible_hedges metal s orderId showAll table) ->
       id h <> hedgeId) /\
   (forall row, In row (hedge_execution (db w')) -> id row = hedgeId ->
                DialogQueries.canPriceFix row = false)) /\
  (a < openQty hedge ->
   forall row, In row (hedge_execution (db w')) -> id row = hedgeId ->
               DialogQueries.in_open_status (status row) = true /\
               DialogQueries.canPriceFix row = true).
Proof.
  assert (Hrows : forall row, In row (hedge_execution (db w')) -> id row = hedgeId ->
            exists row0,
              row = apply_update
                      (hedge_update hedge (JS.Fin a) (JS.parseFloat (fixingPrice d)) now)
                      row0).
  { intros row Hin Hid.
    assert (Hrow : In row (Specification.rows_of hedgeId (db w')))
      by (apply rows_of_in; now split).
    rewrite (commit_updates_rows d hedgeId hedge a w w' fixingData
               Hunique Hsel Halloc Hpos Hfind Hrun) in Hrow.
    apply in_map_iff in Hrow. destruct Hrow as [row0 [Hrow _]]. eauto. }
  destruct (hedge_update_fields now hedge a (JS.parseFloat (fixingPrice d)))
    as [[m [Hm Hmax]] [Hclosed [Hpart _]]].
  split.
  - intro Hall.
    assert (Hst : forall row, In row (hedge_execution (db w')) -> id row = hedgeId ->
                              status row = CLOSED).
    { intros row Hin Hid. destruct (Hrows row Hin Hid) as [row0 ->].
      cbn [apply_update status]. apply Hclosed. lra. }
    split.
    + intros metal s orderId showAll table h Htable Hh Hid.
      unfold DialogQueries.eligible_hedges in Hh. cbv zeta in Hh.
      apply in_map_iff in Hh. destruct Hh as [sh [Hrow Hsh]].
      assert (Hdata : DialogQueries.in_open_status (status (DialogQueries.row sh)) = true).
      { destruct (negb showAll && DialogQueries.truthy_option orderId);
          [apply filter_In in Hsh; destruct Hsh as [Hsh _]|];
          apply filter_In in Hsh; destruct Hsh as [_ Hp];
          repeat (apply andb_true_iff in Hp; destruct Hp as [Hp ?]); assumption. }
      assert (Hin : In h (hedge_execution (db w'))).
      { rewrite <- Htable, <- Hrow. apply in_map.
        destruct (negb showAll && DialogQueries.truthy_option orderId);
          [apply filter_In in Hsh; destruct Hsh as [Hsh _]|];
          apply filter_In in Hsh; now destruct Hsh. }
      rewrite Hrow, (Hst h Hin Hid) in Hdata. discriminate Hdata.
    + intros row Hin Hid. unfold DialogQueries.canPriceFix.
      rewrite (Hst row Hin Hid). apply andb_false_r.
  - intros Hlt row Hin Hid. destruct (Hrows row Hin Hid) as [row0 ->].
    unfold DialogQueries.canPriceFix.
    cbn [apply_update status open_quantity_mt quantity_mt].
    assert (Hp : new_status (hedge_update hedge (JS.Fin a)
                               (JS.parseFloat (fixingPrice d)) now) = PARTIALLY_CLOSED)
      by (apply Hpart; lra).
    rewrite Hp, Hm. cbn [to_column JS.field_nullish DialogQueries.in_open_status negb].
    split; [reflexivity|]. rewrite andb_true_r. apply Qlt_bool_iff.
    rewrite Hmax, Q.max_r by lra. lra.
Qed.

End CommitRows.

Section AvailableQuantity.

Import PriceFixingDialog DialogQueries.

Variable fails : nat -> bool.
Variable now : string.

End AvailableQuantity.

Section Handlers.

Import PriceFixingDialog DialogQueries.

Lemma lookup_assign_same {A} (key : string) (v : A) (obj : list (string * A)) :
  lookup key (assign key v obj) = Some v.
Proof.
  induction obj as [|[k x] rest IH]; cbn [assign lookup].
  - now rewrite String.eqb_refl.
  - destruct (String.eqb k key) eqn:E; cbn [lookup]; rewrite E; [reflexivity | exact IH].
Qed.

Lemma lookup_assign_other {A} (key other : string) (v : A) (obj : list (string * A)) :
  key <> other -> lookup other (assign key v obj) = lookup other obj.
Proof.
  intro Hne. induction obj as [|[k x] rest IH]; cbn [assign lookup].
  - apply String.eqb_neq in Hne. now rewrite Hne.
  - destruct (String.eqb k key) eqn:E; cbn [lookup].
    + apply String.eqb_eq in E. subst k.
      apply String.eqb_neq in Hne. now rewrite Hne.
    + now rewrite IH.
Qed.

Lemma lookup_remove_same {A} (key : string) (obj : list (string * A)) :
  lookup key (remove key obj) = None.
Proof.
  induction obj as [|[k x] rest IH]; [reflexivity|].
  unfold remove in *. cbn [filter fst].
  destruct (String.eqb k key) eqn:E; cbn [negb]; [exact IH|].
  cbn [lookup]. now rewrite E.
Qed.

Lemma lookup_remove_other {A} (key other : string) (obj : list (string * A)) :
  key <> other -> lookup other (remove key obj) = lookup other obj.
Proof.
  intro Hne. induction obj as [|[k x] rest IH]; [reflexivity|].
  unfold remove in *. cbn [filter fst].
  destruct (String.eqb k key) eqn:E; cbn [negb lookup].
  - apply String.eqb_eq in E. subst k.
    apply String.eqb_neq in Hne. now rewrite Hne.
  - now rewrite IH.
Qed.

Lemma in_assign {A} (key : string) (v : A) (obj : list (string * A)) (e : string * A) :
  In e (assign key v obj) -> e = (key, v) \/ In e obj.
Proof.
  induction obj as [|[k x] rest IH]; cbn [assign].
  - intros [<- | []]. now left.
  - destruct (String.eqb k key) eqn:E.
    + apply String.eqb_eq in E. subst k. intros [<- | H]; [now left | right; now right].
    + intros [<- | H]; [right; now left|]. destruct (IH H); [now left | right; now right].
Qed.

Lemma keys_assign {A} (key : string) (v : A) (obj : list (string * A)) (k : string) :
  In k (map fst (assign key v obj)) -> k = key \/ In k (map fst obj).
Proof.
  intro H. apply in_map_iff in H. destruct H as [e [<- He]].
  destruct (in_assign key v obj e He) as [-> | Hin]; [now left|].
  right. now apply in_map.
Qed.

Lemma assign_keeps_keys_distinct {A} (key : string) (v : A) (obj : list (string * A)) :
  NoDup (map fst obj) -> NoDup (map fst (assign key v obj)).
Proof.
  induction obj as [|[k x] rest IH]; cbn [assign map fst]; intro H.
  - repeat constructor. intros [].
  - inversion H as [|? ? Hnot Hrest]; subst.
    destruct (String.eqb k key) eqn:E; cbn [map fst]; [now constructor|].
    constructor; [|now apply IH].
    intro Hin. destruct (keys_assign key v rest k Hin) as [-> | Hin'].
    + rewrite String.eqb_refl in E. discriminate E.
    + contradiction.
Qed.

Lemma remove_keeps_keys_distinct {A} (key : string) (obj : list (string * A)) :
  NoDup (map fst obj) -> NoDup (map fst (remove key obj)).
Proof.
  induction obj as [|[k x] rest IH]; [intros; constructor|].
  cbn [map fst]. intro H. inversion H as [|? ? Hnot Hrest]; subst.
  unfold remove in *. cbn [filter fst].
  destruct (negb (String.eqb k key)); [|now apply IH].
  cbn [map fst]. constructor; [|now apply IH].
  intro Hin. apply Hnot. apply in_map_iff in Hin. destruct Hin as [e [He Hin]].
  apply filter_In in Hin. apply in_map_iff. exists e. now split.
Qed.

Lemma is_selected_with_state (d : dialog) (sel : list (string * bool))
  (allocs : list (string * JS.text)) (k : string) :
  is_selected (with_state d sel allocs) k
  = match lookup k sel with Some b => b | None => false end.
Proof. reflexivity. Qed.

(** X14.  The handlers act on one hedge.  Ticking a box selects the hedge and
    leaves every allocation; unticking deselects it and drops its
    allocation; an allocation that was entered is the one read back; and
    no handler changes the selection or the allocation of another hedge. *)
Theorem handlers_act_on_one_hedge (d : dialog) (hedgeId : string) (value : JS.text) :
  is_selected (handleToggleHedge hedgeId true d) hedgeId = true /\
  allocations (handleToggleHedge hedgeId true d) = allocations d /\
  is_selected (handleToggleHedge hedgeId false d) hedgeId = false /\
  allocation_text (handleToggleHedge hedgeId false d) hedgeId = None /\
  allocation_text (handleAllocationChange hedgeId value d) hedgeId = value /\
  (forall other checked,
      hedgeId <> other ->
      is_selected (handleToggleHedge hedgeId checked d) other = is_selected d other /\
      allocation_text (handleToggleHedge hedgeId checked d) other
      = allocation_text d other /\
      is_selected (handleAllocationChange hedgeId value d) other = is_selected d other /\
      allocation_text (handleAllocationChange hedgeId value d) other
      = allocation_text d other).
Proof.
  unfold handleToggleHedge, handleAllocationChange.
  rewrite !is_selected_with_state, !lookup_assign_same.
  unfold allocation_text. cbn [with_state allocations].
  rewrite lookup_remove_same, lookup_assign_same.
  repeat split; try (now destruct value).
  - rewrite is_selected_with_state, lookup_assign_other by assumption. reflexivity.
  - destruct checked; [reflexivity|]. now rewrite lookup_remove_other.
  - now rewrite lookup_assign_other.
Qed.

Lemma filter_all {A} (p : A -> bool) (l : list A) :
  (forall x, In x l -> p x = true) -> filter p l = l.
Proof.
  induction l as [|x l IH]; intro H; [reflexivity|].
  cbn [filter]. rewrite (H x (or_introl eq_refl)). f_equal.
  apply IH. intros y Hy. apply H. now right.
Qed.

(** X15.  In every state of the dialog a user can reach, the hedge ids are
    distinct in the selection and in the allocations, every allocation
    belongs to a selected hedge, the ids the commit loops over are
    distinct, and the total counts every allocation that is entered. *)
Theorem reachable_state_invariant (d0 d : dialog) (Hreach : reachable d0 d) :
  NoDup (map fst (selectedHedges d)) /\
  NoDup (map fst (allocations d)) /\
  (forall e, In e (allocations d) -> is_selected d (fst e) = true) /\
  NoDup (selectedIds d) /\
  totalAllocation d
  = fold_left (fun sum (e : string * JS.text) => JS.add sum (alloc_of (snd e)))
              (allocations d) (JS.Fin 0).
Proof.
  assert (Hmain : NoDup (map fst (selectedHedges d)) /\
                  NoDup (map fst (allocations d)) /\
                  (forall e, In e (allocations d) -> is_selected d (fst e) = true)).
  { induction Hreach as [today
                          |d hedgeId checked _ [Hs [Ha Hsub]]
                          |d hedgeId value _ [Hs [Ha Hsub]] Hselected
                          |d price date fixings listed _ [Hs [Ha Hsub]]
                          |d _ [Hs [Ha Hsub]]].
    - cbn. repeat split; try constructor. intros e [].
    - unfold handleToggleHedge. cbn [with_state selectedHedges allocations].
      split; [now apply assign_keeps_keys_distinct|].
      split; [destruct checked; [exact Ha | now apply remove_keeps_keys_distinct]|].
      intros e He. rewrite is_selected_with_state.
      destruct (String.eqb hedgeId (fst e)) eqn:E.
      + apply String.eqb_eq in E. rewrite <- E, lookup_assign_same.
        destruct checked; [reflexivity|].
        unfold remove in He. apply filter_In in He. destruct He as [_ He].
        rewrite <- E, String.eqb_refl in He. discriminate He.
      + apply String.eqb_neq in E. rewrite lookup_assign_other by exact E.
        apply Hsub. destruct checked; [exact He|].
        unfold remove in He. apply filter_In in He. now destruct He.
    - unfold handleAllocationChange. cbn [with_state selectedHedges allocations].
      split; [exact Hs|]. split; [now apply assign_keeps_keys_distinct|].
      intros e He. rewrite is_selected_with_state.
      destruct (in_assign hedgeId value (allocations d) e He) as [-> | Hin].
      + exact Hselected.
      + apply (Hsub e Hin).
    - repeat split; assumption.
    - unfold autoFill.
      destruct (selectedIds d) as [|hedgeId [|? ?]] eqn:Hids; try (now repeat split).
      destruct (find_hedge d hedgeId); [|now repeat split].
      destruct (negb _); [|now repeat split].
      cbn [with_state selectedHedges allocations].
      split; [exact Hs|]. split; [repeat constructor; intros []|].
      intros e [<- | []]. cbn [fst].
      apply (selectedIds_selected d hedgeId). rewrite Hids. now left. }
  destruct Hmain as [Hs [Ha Hsub]].
  split; [exact Hs|]. split; [exact Ha|]. split; [exact Hsub|].
  split; [unfold selectedIds; now apply NoDup_filter|].
  unfold totalAllocation. now rewrite (filter_all _ _ Hsub).
Qed.

(** *** The auto-fill *)

End Handlers.

Section Links.

Import PriceFixingDialog.

Variable fails : nat -> bool.
Variable now : string.

(** The loop body when every request is answered and the link id can be
    computed. *)
Lemma allocate_hedge_answered (d : dialog) (fixingData : PricingFixing)
  (hedgeId : string) (w : world) :
  (forall n, (sent w <= n)%nat -> fails n = false) ->
  (dlg_level d = BL_ORDER -> blOrderId d <> None) ->
  exists w' links,
    allocate_hedge fails now d fixingData hedgeId w = (Ok tt, w') /\
    hedge_link (db w') = hedge_link (db w) ++ links /\
    map Specification.link_summary links
    = (if Specification.writes_for d hedgeId
       then [(hedgeId, alloc_of (allocation_text d hedgeId), fixing_row_id fixingData)]
       else []) /\
    sent w' = (sent w + 2 * List.length links)%nat.
Proof.
  intros Hok Hid. unfold allocate_hedge, Specification.writes_for.
  destruct (JS.le _ _); cbn [negb andb].
  { exists w, []. rewrite app_nil_r. repeat split. cbn. lia. }
  destruct (find_hedge d hedgeId) as [hedge|].
  2:{ exists w, []. rewrite app_nil_r. repeat split. cbn. lia. }
  unfold bind.
  assert (Hlink : exists linkId, compute_link_id d w = (Ok linkId, w)).
  { unfold compute_link_id. destruct (dlg_level d); [eexists; reflexivity|].
    destruct (blOrderId d); [eexists; reflexivity|]. now destruct Hid. }
  destruct Hlink as [linkId Hlink]. rewrite Hlink.
  unfold request at 1. rewrite (Hok (sent w)) by lia.
  cbn [insert_hedge_link]. unfold request. cbn [sent db].
  rewrite (Hok (S (sent w))) by lia.
  cbn [update_hedge_execution].
  eexists. eexists. split; [reflexivity|]. cbn [db hedge_link sent].
  split; [reflexivity|]. split; [reflexivity|]. cbn. lia.
Qed.

Lemma for_of_answered (d : dialog) (fixingData : PricingFixing)
  (ids : list string) (w : world) :
  (forall n, (sent w <= n)%nat -> fails n = false) ->
  (dlg_level d = BL_ORDER -> blOrderId d <> None) ->
  exists w' links,
    for_of ids (allocate_hedge fails now d fixingData) w = (Ok tt, w') /\
    hedge_link (db w') = hedge_link (db w) ++ links /\
    map Specification.link_summary links
    = map (fun hedgeId =>
             (hedgeId, alloc_of (allocation_text d hedgeId), fixing_row_id fixingData))
          (filter (Specification.writes_for d) ids) /\
    sent w' = (sent w + 2 * List.length links)%nat.
Proof.
  revert w. induction ids as [|hedgeId ids IH]; intros w Hok Hid.
  - exists w, []. rewrite app_nil_r. repeat split. cbn. lia.
  - destruct (allocate_hedge_answered d fixingData hedgeId w Hok Hid)
      as [w1 [links1 [Hstep [Hl1 [Hs1 Hn1]]]]].
    destruct (IH w1) as [w' [links2 [Hloop [Hl2 [Hs2 Hn2]]]]];
      [intros n Hn; apply Hok; lia | exact Hid|].
    exists w', (links1 ++ links2).
    rewrite for_of_cons, Hstep.
    split; [exact Hloop|].
    split; [rewrite Hl2, Hl1; now rewrite app_assoc|].
    split.
    + rewrite map_app, Hs1, Hs2. cbn [filter].
      destruct (Specification.writes_for d hedgeId); reflexivity.
    + rewrite length_app. lia.
Qed.

(** X17.  A commit whose requests are all answered succeeds; it adds one hedge
    link for every selected hedge that is listed and has a positive
    allocation, in the order of the selection, each with that allocation
    and the id of the new fixing; and it has sent one request for the
    fixing and two for each link. *)
Theorem answered_commit_writes_links (d : dialog) (w : world)
  (Hok : forall n, (sent w <= n)%nat -> fails n = false)
  (Hid : dlg_level d = BL_ORDER -> blOrderId d <> None) :
  exists w' links,
    let fixingData := fixing_row d (next_fixing_id (db w)) in
    fixingMutation fails now d w = (Ok fixingData, w') /\
    hedge_link (db w') = hedge_link (db w) ++ links /\
    map Specification.link_summary links
    = map (fun hedgeId =>
             (hedgeId, alloc_of (allocation_text d hedgeId), fixing_row_id fixingData))
          (Specification.written_ids d) /\
    sent w' = (sent w + 1 + 2 * List.length links)%nat.
Proof.
  unfold fixingMutation, bind.
  unfold request at 1. rewrite (Hok (sent w)) by lia.
  cbn [insert_pricing_fixing].
  set (fd := fixing_row d (next_fixing_id (db w))).
  set (w0 := {| db := _; sent := S (sent w) |}).
  destruct (for_of_answered d fd (selectedIds d) w0)
    as [w' [links [Hloop [Hl [Hs Hn]]]]];
    [intros n Hn; apply Hok; cbn in Hn; lia | exact Hid|].
  exists w', links. cbv zeta. rewrite Hloop.
  split; [reflexivity|]. split; [exact Hl|]. split; [exact Hs|].
  rewrite Hn. cbn. lia.
Qed.

(** *** The fixing's quantity and the links' quantities *)

End Links.

(* ================================================================== *)
(** * Further properties of the hedging summary *)

Section LinkedHedges.

Import PriceFixingDialog DialogQueries SummaryQueries.

Lemma member_in (s : string) (l : list string) : member s l = true <-> In s l.
Proof.
  unfold member. rewrite existsb_exists. split.
  - intros [x [Hx E]]. apply String.eqb_eq in E. now subst.
  - intro H. exists s. split; [exact H | apply String.eqb_refl].
Qed.

Lemma unique_in (xs : list string) (x : string) : In x (unique xs) <-> In x xs.
Proof.
  induction xs as [|y xs IH]; [reflexivity|].
  cbn [unique]. split.
  - intros [<- | H]; [now left|]. apply filter_In in H. right. now apply IH.
  - intros [<- | H]; [now left|].
    destruct (String.eqb x y) eqn:E.
    + apply String.eqb_eq in E. now left.
    + right. apply filter_In. split; [now apply IH | now rewrite E].
Qed.

(** Building the map from executions with distinct ids keeps them all, in
    order. *)
Lemma map_of_distinct (links : list HedgeLink) (es : list HedgeExecution)
  (m : list (string * LinkedHedge)) :
  NoDup (map fst m ++ map id es) ->
  fold_left (fun m e => assign (id e) (enrich links e) m) es m
  = m ++ map (fun e => (id e, enrich links e)) es.
Proof.
  revert m. induction es as [|e es IH]; intros m Hnd.
  - now rewrite app_nil_r.
  - cbn [fold_left map].
    assert (Hnew : ~ In (id e) (map fst m)).
    { cbn [map] in Hnd. intro Hin.
      apply NoDup_remove_2 in Hnd. apply Hnd, in_or_app. now left. }
    assert (Ha : assign (id e) (enrich links e) m = m ++ [(id e, enrich links e)]).
    { clear - Hnew. induction m as [|[k x] m IHm]; [reflexivity|].
      cbn [assign]. destruct (String.eqb k (id e)) eqn:E.
      - apply String.eqb_eq in E. exfalso. apply Hnew. now left.
      - cbn [app]. f_equal. apply IHm. intro H. apply Hnew. now right. }
    rewrite Ha, IH.
    + now rewrite <- app_assoc.
    + rewrite map_app. cbn [map fst]. rewrite <- app_assoc. exact Hnd.
Qed.

Lemma filter_keeps_distinct {A} (f : A -> string) (p : A -> bool) (l : list A) :
  NoDup (map f l) -> NoDup (map f (filter p l)).
Proof.
  induction l as [|x l IH]; [intros; constructor|].
  cbn [map filter]. intro H. inversion H as [|? ? Hx Hl]; subst.
  destruct (p x); [|now apply IH].
  cbn [map]. constructor; [|now apply IH].
  intro Hin. apply Hx. apply in_map_iff in Hin. destruct Hin as [y [Hy Hin]].
  apply filter_In in Hin. apply in_map_iff. exists y. now split.
Qed.

(** X19.  With distinct execution ids in the store, the summary lists each live
    execution that has a link addressed to the order or to one of its BL
    orders exactly once, in the order of the store, however many links it
    has; the quantity shown with it is that of its first link.  The match
    is on the link id alone, whatever the link level. *)
Theorem linkedHedges_lists_each_execution_once (o : string)
  (blOrders : option (list Z)) (link_table : list HedgeLink)
  (execution_table : list (stored HedgeExecution))
  (Ho : JS.truthy_string o = true)
  (Hkey : NoDup (map (fun e => id (row e)) execution_table)) :
  let links := links_query (linkIds o blOrders) link_table in
  let linked := linkedHedges (Some o) blOrders link_table execution_table in
  map exec linked
  = map row
        (filter (fun e => member (id (row e)) (map hedge_execution_id links)
                          && is_null (deleted_at e))
                execution_table) /\
  NoDup (map (fun h => id (exec h)) linked) /\
  (forall l, In l links <->
             In l link_table /\
             exists s, link_id l = Some s /\ In s (linkIds o blOrders)) /\
  (forall h, In h linked ->
             exists l, find (fun l => String.eqb (hedge_execution_id l) (id (exec h))) links
                       = Some l /\
                       allocatedQty h = Some (allocated_quantity_mt l) /\
                       linkLevel h = Some (link_level l) /\
                       linkId h = link_id l).
Proof.
  intros links linked.
  assert (Hlinks : forall l, In l links <->
                     In l link_table /\
                     exists s, link_id l = Some s /\ In s (linkIds o blOrders)).
  { intro l. subst links. unfold links_query. rewrite filter_In.
    split; intros [Hin H]; (split; [exact Hin|]).
    - destruct (link_id l) as [s|]; [|discriminate H].
      exists s. split; [reflexivity | now apply member_in].
    - destruct H as [s [-> Hs]]. now apply member_in. }
  set (p := fun e : stored HedgeExecution =>
              member (id (row e)) (map hedge_execution_id links)
              && is_null (deleted_at e)).
  assert (Hq : executions_query (unique (map hedge_execution_id links)) execution_table
               = map row (filter p execution_table)).
  { unfold executions_query. f_equal. apply filter_ext. intro e. subst p. cbn beta.
    f_equal. destruct (member (id (row e)) (map hedge_execution_id links)) eqn:E.
    - apply (proj2 (member_in _ _)). apply (proj2 (unique_in _ _)).
      now apply (proj1 (member_in _ _)).
    - destruct (member _ (unique _)) eqn:E'; [|reflexivity].
      apply (proj1 (member_in _ _)) in E'. apply (proj1 (unique_in _ _)) in E'.
      apply (proj2 (member_in _ _)) in E'. rewrite E in E'. discriminate E'. }
  assert (Hval : linked = map (enrich links) (map row (filter p execution_table))).
  { subst linked. unfold linkedHedges. rewrite Ho. cbn [negb]. fold links.
    destruct (List.length links =? 0)%nat eqn:El.
    - apply Nat.eqb_eq in El. apply length_zero_iff_nil in El.
      assert (Hp : forall e, p e = false)
        by (intro e; subst p; cbn beta; rewrite El; reflexivity).
      assert (Hnone : forall t, filter p t = []).
      { intro t. induction t as [|e t IHt]; [reflexivity|].
        cbn [filter]. now rewrite Hp. }
      rewrite Hnone. reflexivity.
    - cbv zeta. rewrite Hq, map_of_distinct.
      + cbn [app]. rewrite !map_map. reflexivity.
      + cbn [map app]. rewrite map_map.
        apply (filter_keeps_distinct (fun e => id (row e)) p). exact Hkey. }
  split; [rewrite Hval, map_map; cbn [enrich exec]; now rewrite map_id|].
  split.
  { rewrite Hval, !map_map. cbn [enrich exec].
    apply (filter_keeps_distinct (fun e => id (row e)) p). exact Hkey. }
  split; [exact Hlinks|].
  intros h Hh. rewrite Hval in Hh. apply in_map_iff in Hh.
  destruct Hh as [e [<- He]]. apply in_map_iff in He. destruct He as [se [<- Hse]].
  apply filter_In in Hse. destruct Hse as [_ Hp]. subst p. cbn beta in Hp.
  apply andb_true_iff in Hp. destruct Hp as [Hm _].
  apply member_in in Hm. apply in_map_iff in Hm. destruct Hm as [l [Hid Hl]].
  cbn [enrich exec allocatedQty linkLevel linkId].
  destruct (find (fun l0 => String.eqb (hedge_execution_id l0) (id (row se))) links)
    as [l'|] eqn:Ef.
  - exists l'. repeat split.
  - exfalso. apply (find_none _ _ Ef l) in Hl. rewrite Hid, String.eqb_refl in Hl.
    discriminate Hl.
Qed.

(** X20.  Without an order id, or without any link addressed to the order or
    its BL orders, the summary lists nothing and shows a flat position. *)
Theorem linkedHedges_empty (orderId : option string) (blOrders : option (list Z))
  (link_table : list HedgeLink) (execution_table : list (stored HedgeExecution)) :
  (DialogQueries.truthy_option orderId = false \/
   (forall l s, In l link_table -> link_id l = Some s ->
                forall o, orderId = Some o -> ~ In s (linkIds o blOrders))) ->
  linkedHedges orderId blOrders link_table execution_table = [] /\
  summary_exposure (linkedHedges orderId blOrders link_table execution_table)
  = {| HedgingSummarySection.value := 0;
       HedgingSummarySection.label := HedgingSummarySection.Flat |}.
Proof.
  intro H.
  assert (Hnil : linkedHedges orderId blOrders link_table execution_table = []).
  { unfold linkedHedges. destruct orderId as [o|]; [|reflexivity].
    destruct (JS.truthy_string o) eqn:Ho; cbn [negb]; [|reflexivity].
    destruct H as [H | H]; [cbn in H; congruence|].
    assert (Hl : links_query (linkIds o blOrders) link_table = []).
    { unfold links_query.
      induction link_table as [|l t IHt]; [reflexivity|].
      cbn [filter]. destruct (link_id l) as [s|] eqn:Es.
      - destruct (member s (linkIds o blOrders)) eqn:Em.
        + apply member_in in Em. exfalso.
          apply (H l s (or_introl eq_refl) Es o eq_refl Em).
        + apply IHt. intros l' s' Hin. apply H. now right.
      - apply IHt. intros l' s' Hin. apply H. now right. }
    rewrite Hl. reflexivity. }
  split; [exact Hnil|]. rewrite Hnil. reflexivity.
Qed.

End LinkedHedges.

(* ================================================================== *)
(** * Properties of the template engine's [resolveValue] *)

Section Resolve.

Import TemplateResolve.

Local Open Scope string_scope.

Variable inherited : string -> bool.
Variable inherited_array : string -> bool.
Variable number_of_text : string -> JS.number.
Variable number_of_object : value -> JS.number.
Variable text_of_object : value -> string.
Variable text_of_fraction : JS.number -> string.
Variable today : string.

Let resolve :=
  resolveValue inherited inherited_array number_of_text number_of_object
               text_of_object text_of_fraction today.

Lemma substring_all (s : string) : String.substring 0 (String.length s) s = s.
Proof. induction s as [|a s IH]; [reflexivity|]. cbn. now rewrite IH. Qed.

Lemma prefix_empty (s : string) : String.prefix "" s = true.
Proof. now destruct s. Qed.

Lemma get_own (key : string) (fields : list (string * value)) (v : value) :
  own key fields = Some v -> get inherited inherited_array key (Obj fields) = v.
Proof. intro H. cbn [get]. now rewrite H. Qed.

Lemma has_own (key : string) (fields : list (string * value)) (v : value) :
  own key fields = Some v -> has inherited inherited_array key (Obj fields) = Some true.
Proof. intro H. cbn [has]. now rewrite H. Qed.

(** X21.  The purchaser, the seller and the buyer are one company: for a field
    the company has, the three prefixed names resolve to the same value,
    that field of [company]. *)
Theorem company_prefixes_agree (data company : list (string * value))
  (f : string) (v : value)
  (Hcompany : own "company" data = Some (Obj company))
  (Hfield : own f company = Some v)
  (Hp : has inherited inherited_array ("purchaser_" ++ f) (Obj data) = Some false)
  (Hs : has inherited inherited_array ("seller_" ++ f) (Obj data) = Some false)
  (Hb : has inherited inherited_array ("buyer_" ++ f) (Obj data) = Some false) :
  resolve data ("purchaser_" ++ f) = Return v /\
  resolve data ("seller_" ++ f) = Return v /\
  resolve data ("buyer_" ++ f) = Return v.
Proof.
  assert (Hsrc : field inherited inherited_array data "company" = Obj company)
    by (apply get_own, Hcompany).
  cbn -[has get own field] in Hp, Hs, Hb.
  repeat split; unfold resolve, resolveValue; cbn -[has get own field].
  - rewrite Hp. cbn -[has get own field].
    rewrite prefix_empty, Nat.sub_0_r, substring_all, Hsrc.
    cbn [truthy]. rewrite (has_own f company v Hfield), (get_own f company v Hfield).
    reflexivity.
  - rewrite Hs. cbn -[has get own field].
    rewrite prefix_empty, Nat.sub_0_r, substring_all, Hsrc.
    cbn [truthy]. rewrite (has_own f company v Hfield), (get_own f company v Hfield).
    reflexivity.
  - rewrite Hb. cbn -[has get own field].
    rewrite prefix_empty, Nat.sub_0_r, substring_all, Hsrc.
    cbn [truthy]. rewrite (has_own f company v Hfield), (get_own f company v Hfield).
    reflexivity.
Qed.



Lemma truthy_text (s : string) : s <> "" -> truthy (Str s) = true.
Proof.
  intro H. cbn. unfold JS.truthy_string. apply negb_true_iff.
  now apply String.eqb_neq.
Qed.


(** X24.  The prefix [bl_] is tried before [bl_order_]: a name [bl_order_f] is
    first read as the field [order_f] of the BL extraction, and as the
    field [f] of the BL order only when the extraction has no such field. *)
Theorem bl_order_prefix_reads_extraction_first
  (data extraction blOrder : list (string * value)) (f : string) (v : value)
  (Hkey : has inherited inherited_array ("bl_order_" ++ f) (Obj data) = Some false)
  (Hextraction : own "bl_extraction" data = Some (Obj extraction))
  (Horder : own "bl_order" data = Some (Obj blOrder))
  (Hfield : own f blOrder = Some v) :
  (forall v', own ("order_" ++ f) extraction = Some v' ->
              resolve data ("bl_order_" ++ f) = Return v') /\
  (has inherited inherited_array ("order_" ++ f) (Obj extraction) = Some false ->
   resolve data ("bl_order_" ++ f) = Return v).
Proof.
  assert (Hex : field inherited inherited_array data "bl_extraction" = Obj extraction)
    by (apply get_own, Hextraction).
  assert (Hbo : field inherited inherited_array data "bl_order" = Obj blOrder)
    by (apply get_own, Horder).
  cbn -[has get own field] in Hkey.
  split.
  - intros v' Hv'. cbn -[has get own field] in Hv'.
    unfold resolve, resolveValue; cbn -[has get own field].
    rewrite Hkey. cbn -[has get own field].
    rewrite Nat.sub_0_r, substring_all, Hex. cbn [truthy].
    rewrite (has_own _ extraction v' Hv'), (get_own _ extraction v' Hv').
    reflexivity.
  - intro Hnone. cbn -[has get own field] in Hnone.
    unfold resolve, resolveValue; cbn -[has get own field].
    rewrite Hkey. cbn -[has get own field].
    rewrite Nat.sub_0_r, substring_all, Hex. cbn [truthy].
    rewrite Hnone, prefix_empty, Hbo. cbn [truthy].
    rewrite (has_own f blOrder v Hfield), (get_own f blOrder v Hfield).
    reflexivity.
Qed.

(** X25.  The engine replaces whatever the caller passed as [metycle] by the
    constant: the name [metycle] is the constant, and a name [metycle_f]
    is the field [f] of the constant. *)
Theorem metycle_is_the_constant (METYCLE_INFO : value)
  (data : list (string * value)) :
  resolve (construct METYCLE_INFO data) "metycle" = Return METYCLE_INFO /\
  (forall info f v,
      METYCLE_INFO = Obj info -> own f info = Some v ->
      has inherited inherited_array ("metycle_" ++ f)
          (Obj (construct METYCLE_INFO data)) = Some false ->
      resolve (construct METYCLE_INFO data) ("metycle_" ++ f) = Return v).
Proof.
  assert (Hown : own "metycle" (construct METYCLE_INFO data) = Some METYCLE_INFO)
    by apply lookup_assign_same.
  split.
  - unfold resolve, resolveValue. cbn -[has get own construct].
    rewrite (has_own _ _ _ Hown), (get_own _ _ _ Hown). reflexivity.
  - intros info f v -> Hfield Hkey.
    assert (Hsrc : field inherited inherited_array (construct (Obj info) data) "metycle"
                   = Obj info) by (apply get_own, Hown).
    cbn -[has get own field construct] in Hkey.
    unfold resolve, resolveValue; cbn -[has get own field construct].
    rewrite Hkey. cbn -[has get own field construct].
    rewrite prefix_empty, Nat.sub_0_r, substring_all, Hsrc. cbn [truthy].
    rewrite (has_own f info v Hfield), (get_own f info v Hfield).
    reflexivity.
Qed.

End Resolve.

(* ================================================================== *)
(** * The properties at the sample data *)

(** Allocating all 40 MT of H1 closes it: the summary shows no Price Fix
    entry for its row. *)
Lemma closed_hedge_is_not_offered_witness :
  DialogQueries.canPriceFix
    (nth 0 (PriceFixingDialog.hedge_execution
              (PriceFixingDialog.db Samples.world_after_40)) Samples.hedge_30)
  = false.
Proof.
  assert (Hpos : 0 < 40) by reflexivity.
  assert (Hall : PriceFixingDialog.openQty Samples.hedge_40 <= 40) by discriminate.
  assert (Hunique : NoDup (PriceFixingDialog.selectedIds Samples.fix_40))
    by (repeat constructor; intros []).
  assert (Hsel : In "H1"%string (PriceFixingDialog.selectedIds Samples.fix_40))
    by (left; reflexivity).
  apply (proj2 (proj1 (closed_hedge_is_not_offered Samples.no_failure "t1"
                         Samples.fix_40 "H1" Samples.hedge_40 40 Samples.world0
                         Samples.world_after_40 Samples.fixing_40
                         Hunique Hsel eq_refl Hpos eq_refl eq_refl) Hall)).
  - left. reflexivity.
  - reflexivity.
Defined.

(** After the dialog was opened and H1 ticked, the ids the commit loops
    over are distinct. *)
Lemma reachable_state_invariant_witness :
  NoDup (PriceFixingDialog.selectedIds
           (DialogQueries.handleToggleHedge "H1" true
              (DialogQueries.reset "2025-01-15" Samples.fix_15))).
Proof.
  assert (Hreach : DialogQueries.reachable Samples.fix_15
                     (DialogQueries.handleToggleHedge "H1" true
                        (DialogQueries.reset "2025-01-15" Samples.fix_15)))
    by (apply DialogQueries.reach_toggle, DialogQueries.reach_reset).
  exact (proj1 (proj2 (proj2 (proj2
           (reachable_state_invariant Samples.fix_15 _ Hreach))))).
Defined.

(** The commit of [fix_15] adds its links to the empty link table and has
    sent one request for the fixing and two for each link. *)
Lemma answered_commit_writes_links_witness :
  exists w' links,
    PriceFixingDialog.hedge_link (PriceFixingDialog.db w') = ([] ++ links)%list /\
    PriceFixingDialog.sent w' = (0 + 1 + 2 * List.length links)%nat.
Proof.
  assert (Hok : forall n, (PriceFixingDialog.sent Samples.world0 <= n)%nat ->
                          Samples.no_failure n = false)
    by (intros n _; reflexivity).
  assert (Hid : PriceFixingDialog.dlg_level Samples.fix_15 = PriceFixingDialog.BL_ORDER ->
                PriceFixingDialog.blOrderId Samples.fix_15 <> None)
    by (intro H; discriminate H).
  destruct (answered_commit_writes_links Samples.no_failure "t1" Samples.fix_15
              Samples.world0 Hok Hid)
    as [w' [links [_ [Hl [_ Hn]]]]].
  exists w', links. split; [exact Hl | exact Hn].
Defined.

(** H1 has a link to order 12345 and one to its BL order 7: the summary
    lists it once, and not H2, which is linked to another order. *)
Lemma linkedHedges_lists_each_execution_once_witness :
  map SummaryQueries.exec
      (SummaryQueries.linkedHedges (Some "12345"%string) (Some [7%Z])
         Samples.link_table Samples.execution_table)
  = [Samples.hedge_40].
Proof.
  assert (Hkey : NoDup (map (fun e => PriceFixingDialog.id (DialogQueries.row e))
                            Samples.execution_table)).
  { repeat constructor.
    - intros [H | []]. discriminate H.
    - intros []. }
  exact (proj1 (linkedHedges_lists_each_execution_once "12345" (Some [7%Z])
                  Samples.link_table Samples.execution_table eq_refl Hkey)).
Defined.

(** Without an order id the summary lists nothing. *)
Lemma linkedHedges_empty_witness :
  SummaryQueries.linkedHedges None (Some [7%Z])
    Samples.link_table Samples.execution_table = [].
Proof.
  exact (proj1 (linkedHedges_empty None (Some [7%Z]) Samples.link_table
                  Samples.execution_table (or_introl eq_refl))).
Defined.

(** The seller's, the buyer's and the purchaser's name are the name of
    the company. *)
Lemma company_prefixes_agree_witness :
  Samples.resolve_sample "purchaser_name"
  = TemplateResolve.Return (TemplateResolve.Str "Sample Company Ltd") /\
  Samples.resolve_sample "seller_name"
  = TemplateResolve.Return (TemplateResolve.Str "Sample Company Ltd") /\
  Samples.resolve_sample "buyer_name"
  = TemplateResolve.Return (TemplateResolve.Str "Sample Company Ltd").
Proof.
  exact (company_prefixes_agree Samples.object_prototype Samples.array_prototype
           (fun _ => JS.NaN) (fun _ => JS.NaN) (fun _ => "[object Object]"%string)
           (fun _ => "0.5"%string) "2025-01-15"
           Samples.template_data Samples.template_company "name"
           (TemplateResolve.Str "Sample Company Ltd")
           eq_refl eq_refl eq_refl eq_refl eq_refl).
Defined.


(** The extraction has no field [order_status]: the name [bl_order_status]
    is the status of the BL order. *)
Lemma bl_order_prefix_reads_extraction_first_witness :
  Samples.resolve_sample "bl_order_status"
  = TemplateResolve.Return (TemplateResolve.Str "In Transit").
Proof.
  exact (proj2 (bl_order_prefix_reads_extraction_first Samples.object_prototype
           Samples.array_prototype
           (fun _ => JS.NaN) (fun _ => JS.NaN) (fun _ => "[object Object]"%string)
           (fun _ => "0.5"%string) "2025-01-15"
           Samples.template_data Samples.template_extraction
           Samples.template_bl_order "status" (TemplateResolve.Str "In Transit")
           eq_refl eq_refl eq_refl eq_refl) eq_refl).
Defined.
